(** * mc-dual-proxy: PROXY-protocol codec, TCP forwarder and session-auth fan-out

    A shallow embedding of [proxyproto.go], the TCP forwarder
    ([handleConnection]), the multiauth HTTP server ([startMultiauth],
    [handleHasJoined], [querySessionServer]) and the reading of the
    command line ([main]), followed by the properties proved about them.

    Conventions.
    - A Go [byte] is a [Byte.byte]; both [[]byte] and [string] are
      [list byte] (a Go string is a byte sequence, and the conversions
      [string(line)] and [[]byte("...")] copy it unchanged).
    - Go's [int] is the 64-bit two's complement integer of the usual
      build targets; [uint16(x)] is [x mod 2^16].
    - A nil slice is the empty list: the code only ever tests slices that
      are either nil or non-empty against nil.
    - Loops whose termination is not structural carry a fuel argument and
      return [None] when it runs out; the fuel handed to them is computed
      from the reader, and the theorems show it suffices. *)

From Stdlib Require Import ZArith Lia.
From Stdlib Require Import Strings.Byte.
From stdpp Require Import base option list strings gmap.

(** ** Bytes and strings *)

Abbreviation bytes := (list byte).

(** A string literal as the bytes of a Go string constant. *)
Definition bs (s : string) : bytes := String.list_byte_of_string s.

#[global] Instance byte_eq_dec : EqDecision byte := Byte.byte_eq_dec.
#[global] Instance byte_inhabited : Inhabited byte := populate x00.

Definition byte_to_Z (b : byte) : Z := Z.of_N (Byte.to_N b).

(** [byte(x)]: conversion of an integer to a byte keeps the low 8 bits. *)
Definition byte_of_Z (z : Z) : byte :=
  default x00 (Byte.of_N (Z.to_N (z mod 256)%Z)).

Lemma byte_of_to_N (b : byte) : default x00 (Byte.of_N (Byte.to_N b)) = b.
Proof. by rewrite Byte.of_to_N. Qed.

#[global] Instance byte_countable : Countable byte :=
  inj_countable' Byte.to_N (λ n, default x00 (Byte.of_N n)) byte_of_to_N.

(** [uint16(x)] *)
Definition uint16 (x : Z) : Z := (x mod 65536)%Z.

(** [binary.BigEndian.Uint16(b)] for a two-byte slice. *)
Definition BigEndian_Uint16 (b : bytes) : Z :=
  match b with
  | [hi; lo] => Z.lor (byte_to_Z lo) (Z.shiftl (byte_to_Z hi) 8)
  | _ => 0%Z
  end.

(** [binary.BigEndian.PutUint16]: the two bytes stored for [v]. *)
Definition BigEndian_PutUint16 (v : Z) : bytes :=
  [byte_of_Z (Z.shiftr v 8); byte_of_Z v].

(** [b[lo:hi]] *)
Definition slice (b : bytes) (lo hi : nat) : bytes := take (hi - lo) (drop lo b).

(** [copy(dst[lo:hi], src)]: overwrites [min (hi-lo) (len src)] bytes of
    [dst] from offset [lo]. *)
Definition copy_at (dst : bytes) (lo hi : nat) (src : bytes) : bytes :=
  let n := (hi - lo) `min` length src in
  take lo dst ++ take n src ++ drop (lo + n) dst.

(** [make([]byte, n)] *)
Definition make (n : nat) : bytes := replicate n x00.

(** [strings.TrimRight(s, cutset)] for an ASCII cutset: drops every
    trailing byte that occurs in [cutset]. *)
Fixpoint TrimRight (s cutset : bytes) : bytes :=
  match s with
  | [] => []
  | c :: s' =>
      match TrimRight s' cutset with
      | [] => if decide (c ∈ cutset) then [] else [c]
      | t => c :: t
      end
  end.

(** [strings.Split(s, sep)] for a one-byte separator: always at least
    one part, one more than the number of separators. *)
Fixpoint Split (s : bytes) (sep : byte) : list bytes :=
  match s with
  | [] => [[]]
  | c :: s' =>
      if decide (c = sep) then [] :: Split s' sep
      else match Split s' sep with
           | p :: ps => (c :: p) :: ps
           | [] => [[c]]
           end
  end.

(** [strings.Contains(s, substr)] *)
Fixpoint Contains (s substr : bytes) : bool :=
  bool_decide (substr `prefix_of` s) ||
  match s with
  | [] => false
  | _ :: s' => Contains s' substr
  end.

(** ** [bufio.Reader] over a connection

    The reader holds the bytes fetched from the connection and not yet
    consumed ([br_buf], Go's [b.buf[b.r:b.w]]), the capacity of its buffer
    ([br_size], Go's [len(b.buf)]) and the connection it reads from.  The
    connection is the list of chunks that its successive [Read] calls
    will deliver; a [Read] into a slice shorter than the next chunk
    leaves the rest of the chunk for the next call, and once the chunks
    are used up every [Read] fails (end of stream or a network error; the
    code under study does not tell them apart).  An empty chunk is a
    [Read] that returns no byte and no error; the library gives up with
    [io.ErrNoProgress] after 100 of them in a row, which no connection
    produces and the model leaves out. *)

Record Reader := mkReader {
  br_buf : bytes;
  br_rd : list bytes;
  br_size : nat
}.

(** [bufio.NewReaderSize(rd, size)]; the library enforces a minimum
    capacity of 16. *)
Definition NewReaderSize (rd : list bytes) (size : nat) : Reader :=
  mkReader [] rd (size `max` 16).

(** Everything the reader will still yield, in order. *)
Definition content (br : Reader) : bytes := br_buf br ++ concat (br_rd br).

(** [rd.Read(p)] on the connection with [len(p) = n]: the bytes read and
    the connection afterwards, or [None] for an error. *)
Definition conn_Read (rd : list bytes) (n : nat) : option (bytes * list bytes) :=
  match rd with
  | [] => None
  | c :: rest =>
      Some (take n c, if decide (length c ≤ n) then rest else drop n c :: rest)
  end.

(** [b.fill()]: one read from the connection into the free part of the
    buffer.  The flag is [b.err != nil]. *)
Definition fill (br : Reader) : Reader * bool :=
  match conn_Read (br_rd br) (br_size br - length (br_buf br)) with
  | None => (br, true)
  | Some (d, rd') => (mkReader (br_buf br ++ d) rd' (br_size br), false)
  end.

(** The loop of [Peek]:
    [for b.w-b.r < n && b.w-b.r < len(b.buf) && b.err == nil { b.fill() }].
    A fill that takes only part of a chunk has filled the buffer, which
    ends the loop, so the recursion follows the list of chunks. *)
Fixpoint Peek_fill (n size : nat) (buf : bytes) (rd : list bytes) : Reader * bool :=
  if decide (length buf < n ∧ length buf < size) then
    match rd with
    | [] => (mkReader buf [] size, true)
    | c :: rest =>
        if decide (length c ≤ size - length buf)
        then Peek_fill n size (buf ++ c) rest
        else (mkReader (buf ++ take (size - length buf) c)
                       (drop (size - length buf) c :: rest) size, false)
    end
  else (mkReader buf rd size, false).

(** [b.Peek(n)] for [n <= len(b.buf)]: the reader afterwards, the bytes
    returned and whether an error was returned with them.  Nothing is
    consumed; with fewer than [n] bytes available the available ones are
    returned together with the error. *)
Definition Peek (br : Reader) (n : nat) : Reader * bytes * bool :=
  let '(br', _) := Peek_fill n (br_size br) (br_buf br) (br_rd br) in
  if decide (length (br_buf br') < n)
  then (br', br_buf br', true)
  else (br', take n (br_buf br'), false).

(** [b.Read(p)] with [len(p) = n > 0]: the reader afterwards, the bytes
    stored in [p] and whether an error was returned.  Buffered bytes are
    handed out first; with an empty buffer a large read goes to the
    connection directly and a small one fetches once into the buffer. *)
Definition Read (br : Reader) (n : nat) : Reader * bytes * bool :=
  match br_buf br with
  | [] =>
      if decide (br_size br ≤ n) then
        match conn_Read (br_rd br) n with
        | None => (br, [], true)
        | Some (d, rd') => (mkReader [] rd' (br_size br), d, false)
        end
      else
        match conn_Read (br_rd br) (br_size br) with
        | None => (br, [], true)
        | Some (d, rd') => (mkReader (drop n d) rd' (br_size br), take n d, false)
        end
  | buf => (mkReader (drop n buf) (br_rd br) (br_size br), take n buf, false)
  end.

(** Position one past the first occurrence of [delim]. *)
Fixpoint index_after (delim : byte) (b : bytes) : option nat :=
  match b with
  | [] => None
  | c :: b' => if decide (c = delim) then Some 1 else S <$> index_after delim b'
  end.

(** [b.ReadBytes(delim)]: [ReadSlice] searches the buffer, reports a
    pending error, hands back a full buffer as a fragment, or fills;
    [collectFragments] accumulates the fragments in [acc]. *)
Fixpoint ReadBytes_loop (fuel : nat) (delim : byte) (acc : bytes) (br : Reader)
  : option (Reader * bytes * bool) :=
  match fuel with
  | O => None
  | S fuel' =>
      match index_after delim (br_buf br) with
      | Some i =>
          Some (mkReader (drop i (br_buf br)) (br_rd br) (br_size br),
                acc ++ take i (br_buf br), false)
      | None =>
          if decide (br_size br ≤ length (br_buf br)) then
            ReadBytes_loop fuel' delim (acc ++ br_buf br)
              (mkReader [] (br_rd br) (br_size br))
          else
            let '(br', err) := fill br in
            if err then Some (mkReader [] (br_rd br') (br_size br'), acc ++ br_buf br', true)
            else ReadBytes_loop fuel' delim acc br'
      end
  end.

(** The number of connection reads and bytes still ahead. *)
Definition rd_weight (rd : list bytes) : nat :=
  (length rd + length (concat rd)).

Definition ReadBytes (br : Reader) (delim : byte) : option (Reader * bytes * bool) :=
  ReadBytes_loop (2 * rd_weight (br_rd br) + 2) delim [] br.

(** ** [proxyproto.go] *)

(** PROXY protocol v2 12-byte signature. *)
Definition proxyV2Sig : bytes :=
  [x0d; x0a; x0d; x0a; x00; x0d; x0a; x51; x55; x49; x54; x0a].

(** The ASCII prefix for PROXY protocol v1. *)
Definition proxyV1Prefix : bytes := bs "PROXY ".

(** [net.IP]: a byte slice of length 4 or 16, or nil. *)
Abbreviation IP := (list byte) (only parsing).

Record ProxyHeader := mkProxyHeader {
  Version : Z;
  SrcAddr : IP;
  DstAddr : IP;
  SrcPort : Z;
  DstPort : Z;
  RawBytes : bytes
}.

(** The errors the codec returns ([fmt.Errorf] messages in the source). *)
Inductive error :=
  | ErrV1ReadLine          (* proxy v1: failed to read header line *)
  | ErrV1NoCRLF            (* proxy v1: header does not end with CRLF *)
  | ErrV1Fields (n : nat)  (* proxy v1: expected 6 fields, got n *)
  | ErrV2ReadFixed         (* proxy v2: failed to read fixed header *)
  | ErrV2Version (ver : Z) (* proxy v2: unexpected version ver *)
  | ErrV2ReadBlock.        (* proxy v2: failed to read address block *)

#[global] Instance error_eq_dec : EqDecision error.
Proof. solve_decision. Defined.

(** [readFull] reads exactly [len(buf)] bytes from the reader: the reader
    afterwards, the bytes stored in [buf] so far and whether an error
    stopped the loop. *)
Fixpoint readFull_loop (fuel : nat) (br : Reader) (len : nat) (got : bytes)
  : option (Reader * bytes * bool) :=
  if decide (length got < len) then
    match fuel with
    | O => None
    | S fuel' =>
        let '(br', d, err) := Read br (len - length got) in
        if err then Some (br', got ++ d, true)
        else readFull_loop fuel' br' len (got ++ d)
    end
  else Some (br, got, false).

Definition readFull (br : Reader) (len : nat) : option (Reader * bytes * bool) :=
  readFull_loop (len + length (br_rd br) + 1) br len [].

(** *** [fmt.Sscanf(s, "%d", &x)]

    The scanner skips leading white space (a newline is an error), takes
    an optional sign and then a non-empty run of decimal digits, and
    hands the token to [strconv.ParseInt(tok, 10, 64)], which fails when
    the value does not fit an [int64].  Input after the digits is left
    unread.  On any failure the variable keeps its value. *)

(** White space as [fmt] sees it: the runes U+0009..U+000D, U+0020,
    U+0085, U+00A0, U+1680, U+2000..U+200A, U+2028, U+2029, U+202F,
    U+205F and U+3000, here in their UTF-8 encodings. *)
Fixpoint SkipSpace (s : bytes) : option bytes :=
  match s with
  | x0a :: _ => None
  | (x09 | x0b | x0c | x0d | x20) :: s' => SkipSpace s'
  | xc2 :: (x85 | xa0) :: s' => SkipSpace s'
  | xe1 :: x9a :: x80 :: s' => SkipSpace s'
  | xe2 :: x80 :: (x80 | x81 | x82 | x83 | x84 | x85 | x86 | x87 | x88 | x89
                   | x8a | xa8 | xa9 | xaf) :: s' => SkipSpace s'
  | xe2 :: x81 :: x9f :: s' => SkipSpace s'
  | xe3 :: x80 :: x80 :: s' => SkipSpace s'
  | _ => Some s
  end.

Definition is_digit (b : byte) : bool :=
  bool_decide (48 ≤ byte_to_Z b ≤ 57)%Z.

(** The leading run of decimal digits. *)
Fixpoint digits_prefix (s : bytes) : bytes :=
  match s with
  | c :: s' => if is_digit c then c :: digits_prefix s' else []
  | [] => []
  end.

(** The value of a run of decimal digits. *)
Definition decimal (ds : bytes) : Z :=
  foldl (λ acc d, 10 * acc + (byte_to_Z d - 48))%Z 0%Z ds.

(** [strconv.ParseInt(tok, 10, 64)] on a token made of a sign flag and
    digits. *)
Definition ParseInt (neg : bool) (ds : bytes) : option Z :=
  let v := if neg then (- decimal ds)%Z else decimal ds in
  if decide (- 2 ^ 63 ≤ v ≤ 2 ^ 63 - 1)%Z then Some v else None.

Definition scanInt (s : bytes) : option Z :=
  let '(neg, s1) :=
    match s with
    | x2b :: t => (false, t)
    | x2d :: t => (true, t)
    | _ => (false, s)
    end in
  match digits_prefix s1 with
  | [] => None
  | ds => ParseInt neg ds
  end.

(** The value stored by [fmt.Sscanf(s, "%d", &x)], if any. *)
Definition Sscanf_d (s : bytes) : option Z := SkipSpace s ≫= scanInt.

(** *** The parsers *)

Definition CR : byte := x0d.
Definition LF : byte := x0a.
Definition SP : byte := x20.

Section Codec.

(** [net.ParseIP] belongs to the Go library; the codec stores whatever it
    returns (nil for a string that is no IP literal). *)
Variable ParseIP : bytes → IP.

(** [parseProxyV1] parses a PROXY protocol v1 header from the reader. *)
Definition parseProxyV1 (br : Reader) : option (Reader * (option ProxyHeader * option error)) :=
  '(br, line, err) ← ReadBytes br LF;
  if (err : bool) then Some (br, (None, Some ErrV1ReadLine)) else
  if decide (length line < 2 ∨ line !! (length line - 2) ≠ Some CR)
  then Some (br, (None, Some ErrV1NoCRLF)) else
  let header := mkProxyHeader 1 [] [] 0 0 line in
  let str := TrimRight line [CR; LF] in
  let parts := Split str SP in
  if decide (length parts = 2 ∧ parts !! 1 = Some (bs "UNKNOWN"))
  then Some (br, (Some header, None)) else
  if decide (length parts ≠ 6)
  then Some (br, (None, Some (ErrV1Fields (length parts)))) else
  let srcPort := default 0%Z (Sscanf_d (parts !!! 4)) in
  let dstPort := default 0%Z (Sscanf_d (parts !!! 5)) in
  Some (br, (Some (mkProxyHeader 1 (ParseIP (parts !!! 2)) (ParseIP (parts !!! 3))
                     (uint16 srcPort) (uint16 dstPort) line), None)).

(** [parseProxyV2] parses a PROXY protocol v2 header from the reader. *)
Definition parseProxyV2 (br : Reader) : option (Reader * (option ProxyHeader * option error)) :=
  '(br, fixedHeader, err) ← readFull br 16;
  if (err : bool) then Some (br, (None, Some ErrV2ReadFixed)) else
  let verCmd := byte_to_Z (fixedHeader !!! 12) in
  let ver := Z.shiftr verCmd 4 in
  if decide (ver ≠ 2%Z) then Some (br, (None, Some (ErrV2Version ver))) else
  let famProto := byte_to_Z (fixedHeader !!! 13) in
  let addrFamily := Z.shiftr famProto 4 in
  let addrLen := BigEndian_Uint16 (slice fixedHeader 14 16) in
  '(br, addrBlock, err) ←
     (if decide (0 < addrLen)%Z then readFull br (Z.to_nat addrLen)
      else Some (br, [], false));
  if (err : bool) then Some (br, (None, Some ErrV2ReadBlock)) else
  let rawBytes := fixedHeader ++ addrBlock in
  let header := mkProxyHeader 2 [] [] 0 0 rawBytes in
  Some (br, (Some (
    if decide (addrFamily = 1%Z) then
      if decide (12 ≤ addrLen)%Z then
        mkProxyHeader 2 (slice addrBlock 0 4) (slice addrBlock 4 8)
          (BigEndian_Uint16 (slice addrBlock 8 10))
          (BigEndian_Uint16 (slice addrBlock 10 12)) rawBytes
      else header
    else if decide (addrFamily = 2%Z) then
      if decide (36 ≤ addrLen)%Z then
        mkProxyHeader 2 (slice addrBlock 0 16) (slice addrBlock 16 32)
          (BigEndian_Uint16 (slice addrBlock 32 34))
          (BigEndian_Uint16 (slice addrBlock 34 36)) rawBytes
      else header
    else header), None)).

(** [detectProxyProtocol] peeks at the buffered reader to detect if a
    PROXY protocol header is present.  The result is Go's pair of a
    header pointer and an error, either of which may be nil. *)
Definition detectProxyProtocol (br : Reader)
  : option (Reader * (option ProxyHeader * option error)) :=
  let '(br, peek, err) := Peek br 16 in
  let '(br, peek, err) := if (err : bool) then Peek br 6 else (br, peek, err) in
  if (err : bool) then Some (br, (None, None)) else
  if decide (16 ≤ length peek ∧ take 12 peek = proxyV2Sig)
  then parseProxyV2 br
  else if decide (6 ≤ length peek ∧ take 6 peek = proxyV1Prefix)
  then parseProxyV1 br
  else Some (br, (None, None)).

End Codec.

(** *** Synthesizing a v2 header *)

(** [net.Addr]: a [*net.TCPAddr] or an address of another kind. *)
Inductive Addr :=
  | TCPAddr (ip : IP) (Port : Z) (Zone : bytes)
  | OtherAddr (network str : bytes).

Definition v4InV6Prefix : bytes :=
  [x00; x00; x00; x00; x00; x00; x00; x00; x00; x00; xff; xff].

(** [ip.To4()]: the 4-byte form of an IPv4 address, else nil. *)
Definition To4 (ip : IP) : IP :=
  if decide (length ip = 4) then ip
  else if decide (length ip = 16 ∧ take 12 ip = v4InV6Prefix) then slice ip 12 16
  else [].

(** [ip.To16()]: the 16-byte form of an address, else nil. *)
Definition To16 (ip : IP) : IP :=
  if decide (length ip = 4) then v4InV6Prefix ++ ip
  else if decide (length ip = 16) then ip
  else [].

(** [ip.Equal(x)]: the same address, an IPv4 address and its 16-byte
    form being equal. *)
Definition IP_Equal (ip x : IP) : bool :=
  if decide (length ip = length x) then bool_decide (ip = x)
  else if decide (length ip = 4 ∧ length x = 16)
  then bool_decide (take 12 x = v4InV6Prefix ∧ ip = drop 12 x)
  else if decide (length ip = 16 ∧ length x = 4)
  then bool_decide (take 12 ip = v4InV6Prefix ∧ drop 12 ip = x)
  else false.

(** [buildProxyV2Header] generates a PROXY protocol v2 header for a TCP
    connection. *)
Definition buildProxyV2Header (srcAddr dstAddr : Addr) : bytes :=
  match srcAddr, dstAddr with
  | TCPAddr srcIP srcPort _, TCPAddr dstIP dstPort _ =>
      let srcIPv4 := To4 srcIP in
      let dstIPv4 := To4 dstIP in
      if decide (srcIPv4 ≠ [] ∧ dstIPv4 ≠ []) then
        let header := make (16 + 12) in
        let header := copy_at header 0 12 proxyV2Sig in
        let header := <[12%nat := x21]> header in
        let header := <[13%nat := x11]> header in
        let header := copy_at header 14 16 (BigEndian_PutUint16 12) in
        let header := copy_at header 16 20 srcIPv4 in
        let header := copy_at header 20 24 dstIPv4 in
        let header := copy_at header 24 26 (BigEndian_PutUint16 (uint16 srcPort)) in
        let header := copy_at header 26 28 (BigEndian_PutUint16 (uint16 dstPort)) in
        header
      else
        let srcIPv6 := To16 srcIP in
        let dstIPv6 := To16 dstIP in
        let header := make (16 + 36) in
        let header := copy_at header 0 12 proxyV2Sig in
        let header := <[12%nat := x21]> header in
        let header := <[13%nat := x21]> header in
        let header := copy_at header 14 16 (BigEndian_PutUint16 36) in
        let header := copy_at header 16 32 srcIPv6 in
        let header := copy_at header 32 48 dstIPv6 in
        let header := copy_at header 48 50 (BigEndian_PutUint16 (uint16 srcPort)) in
        let header := copy_at header 50 52 (BigEndian_PutUint16 (uint16 dstPort)) in
        header
  | _, _ =>
      let header := make 16 in
      let header := copy_at header 0 12 proxyV2Sig in
      let header := <[12%nat := x20]> header in
      let header := <[13%nat := x00]> header in
      let header := copy_at header 14 16 (BigEndian_PutUint16 0) in
      header
  end.

(** ** The TCP forwarder *)

(** [peekBufferSize] is large enough to detect and buffer the PROXY
    protocol header. *)
Definition peekBufferSize : nat := 512.

(** The accepted client connection: its two socket addresses and what
    its successive reads deliver. *)
Record ClientConn := mkClientConn {
  RemoteAddr : Addr;
  LocalAddr : Addr;
  incoming : list bytes
}.

(** The connection to the backend, seen from the forwarder: the bytes
    written to it so far and how many more its peer will take before
    writes start to fail ([None]: writes never fail). *)
Record BackendConn := mkBackendConn {
  written : bytes;
  room : option nat
}.

(** [conn.Write(p)]; the flag tells whether an error was returned, in
    which case only the bytes that still fitted were written. *)
Definition conn_Write (c : BackendConn) (p : bytes) : BackendConn * bool :=
  match room c with
  | None => (mkBackendConn (written c ++ p) None, false)
  | Some k =>
      if decide (length p ≤ k)
      then (mkBackendConn (written c ++ p) (Some (k - length p)), false)
      else (mkBackendConn (written c ++ take k p) (Some 0), true)
  end.

(** The writes of [io.Copy(dst, br)], one after the other until one
    fails. *)
Fixpoint write_all (dst : BackendConn) (ps : list bytes) : BackendConn * bool :=
  match ps with
  | [] => (dst, false)
  | p :: ps' =>
      let '(dst', err) := conn_Write dst p in
      if err then (dst', true) else write_all dst' ps'
  end.

(** [io.Copy(dst, br)]: the reader writes out what it has buffered and
    then everything the connection still delivers. *)
Definition io_Copy (dst : BackendConn) (br : Reader) : BackendConn * bool :=
  write_all dst (br_buf br :: br_rd br).

(** How a run of [handleConnection] ends. *)
Inductive ConnOutcome :=
  | DetectFailed (e : error)                 (* error detecting proxy protocol *)
  | DialFailed                               (* failed to connect to backend *)
  | HeaderWriteFailed (backend : BackendConn)
  | Spliced (backend : BackendConn) (pipe_err : bool).

Section Forwarder.

Variable ParseIP : bytes → IP.

(** [net.DialTimeout("tcp", backendAddr, dialTimeout)]: the connection,
    or [None] when dialing fails. *)
Variable DialTimeout : bytes → option BackendConn.

(** [handleConnection], client to backend: detect the header, dial, send
    one PROXY header, then copy the buffered reader to the backend.  The
    copy in the other direction runs concurrently on the two sockets and
    writes nothing to the backend. *)
Definition handleConnection (clientConn : ClientConn) (backendAddr : bytes)
  : option ConnOutcome :=
  let br := NewReaderSize (incoming clientConn) peekBufferSize in
  '(br, (proxyHeader, err)) ← detectProxyProtocol ParseIP br;
  match err with
  | Some e => Some (DetectFailed e)
  | None =>
      match DialTimeout backendAddr with
      | None => Some DialFailed
      | Some backendConn =>
          let '(backendConn, werr) :=
            match proxyHeader with
            | Some h => conn_Write backendConn (RawBytes h)
            | None =>
                let header := buildProxyV2Header (RemoteAddr clientConn)
                                (LocalAddr clientConn) in
                conn_Write backendConn header
            end in
          if (werr : bool) then Some (HeaderWriteFailed backendConn) else
          let '(backendConn, perr) := io_Copy backendConn br in
          Some (Spliced backendConn perr)
      end
  end.

End Forwarder.

(** ** The multiauth HTTP server *)

(** [hasJoinedPath] is the Mojang session server endpoint. *)
Definition hasJoinedPath : bytes := bs "/session/minecraft/hasJoined".

Definition StatusOK : Z := 200.
Definition StatusNoContent : Z := 204.
Definition StatusBadRequest : Z := 400.
Definition StatusNotFound : Z := 404.

(** Why a probe failed. *)
Inductive probe_error :=
  | ErrCreateRequest   (* create request: ... *)
  | ErrRequestFailed   (* request failed: ... *)
  | ErrReadBody.       (* read body: ... *)

(** [authResult] holds the response from a single upstream session
    server. *)
Record authResult := mkAuthResult {
  StatusCode : Z;
  Body : bytes;
  Server : bytes;
  Err : option probe_error
}.

(** What the network does with a GET of a URL. *)
Inductive upstream_reply :=
  | BadRequest                            (* the request cannot be built *)
  | NoResponse                            (* [client.Do] returns an error *)
  | BrokenBody (status : Z)               (* reading the body fails *)
  | Response (status : Z) (body : bytes).

(** [http.ResponseWriter], as a recorder of what the handler did. *)
Record ResponseWriter := mkResponseWriter {
  Header : gmap bytes bytes;
  Code : option Z;
  Sent : bytes
}.

Definition NewRecorder : ResponseWriter := mkResponseWriter ∅ None [].

(** [w.Header().Set(k, v)] *)
Definition Header_Set (k v : bytes) (w : ResponseWriter) : ResponseWriter :=
  mkResponseWriter (<[k := v]> (Header w)) (Code w) (Sent w).

(** [w.Header().Del(k)] *)
Definition Header_Del (k : bytes) (w : ResponseWriter) : ResponseWriter :=
  mkResponseWriter (delete k (Header w)) (Code w) (Sent w).

(** [w.WriteHeader(code)]: only the first call counts. *)
Definition WriteHeader (code : Z) (w : ResponseWriter) : ResponseWriter :=
  match Code w with
  | Some _ => w
  | None => mkResponseWriter (Header w) (Some code) (Sent w)
  end.

(** [w.Write(b)]: implies [WriteHeader(200)] when no status was written. *)
Definition Write (b : bytes) (w : ResponseWriter) : ResponseWriter :=
  let w := WriteHeader StatusOK w in
  mkResponseWriter (Header w) (Code w) (Sent w ++ b).

(** [http.Error(w, error, code)] *)
Definition http_Error (msg : bytes) (code : Z) (w : ResponseWriter) : ResponseWriter :=
  let w := Header_Del (bs "Content-Length") w in
  let w := Header_Set (bs "Content-Type") (bs "text/plain; charset=utf-8") w in
  let w := Header_Set (bs "X-Content-Type-Options") (bs "nosniff") w in
  let w := WriteHeader code w in
  Write (msg ++ [LF]) w.

(** The request, as far as the handlers look at it. *)
Record Request := mkRequest {
  Method : bytes;
  Path : bytes;       (* r.URL.Path *)
  RawQuery : bytes    (* r.URL.RawQuery *)
}.

(** The URL a probe requests. *)
Definition probe_url (serverBase rawQuery : bytes) : bytes :=
  TrimRight serverBase (bs "/") ++ hasJoinedPath ++ bs "?" ++ rawQuery.

(** The name of the server for logging. *)
Definition probe_name (serverBase : bytes) : bytes :=
  if Contains serverBase (bs "mojang") then bs "mojang"
  else if Contains serverBase (bs "minehut") then bs "minehut"
  else serverBase.

(** What the dispatcher's [select] receives, in the order it receives
    it: the result of the probe started for [servers[i]], or the closing
    of [ctx.Done()] (the 10 s deadline, or the request's own context). *)
Inductive event :=
  | Arrive (i : nat)
  | Done.

#[global] Instance event_eq_dec : EqDecision event.
Proof. solve_decision. Defined.

(** A run of [handleHasJoined]: the response, the URLs of the probes it
    started, how many events it took from the schedule, the last result
    that did not win, and whether it cancelled the probes on a win. *)
Record Run := mkRun {
  run_w : ResponseWriter;
  run_started : list bytes;
  run_taken : nat;
  run_last : authResult;
  run_cancelled : bool
}.

Section Multiauth.

(** The upstreams: the reply to a GET of each URL. *)
Variable net : bytes → upstream_reply.

(** [querySessionServer] makes a hasJoined request to a single upstream
    session server; the result is what it sends on [resultCh].  The body
    is read through [io.LimitReader(resp.Body, 64*1024)]. *)
Definition querySessionServer (serverBase rawQuery : bytes) : authResult :=
  let url := probe_url serverBase rawQuery in
  let serverName := probe_name serverBase in
  match net url with
  | BadRequest => mkAuthResult 0 [] serverName (Some ErrCreateRequest)
  | NoResponse => mkAuthResult 0 [] serverName (Some ErrRequestFailed)
  | BrokenBody _ => mkAuthResult 0 [] serverName (Some ErrReadBody)
  | Response status body => mkAuthResult status (take (64 * 1024) body) serverName None
  end.

(** The loop [for remaining > 0 { select { ... } }] and what follows it.
    [None]: the schedule ended while the loop was still waiting. *)
Fixpoint dispatch (results : list authResult) (w : ResponseWriter)
    (started : list bytes) (remaining taken : nat) (lastResult : authResult)
    (sched : list event) : option Run :=
  match remaining with
  | O => Some (mkRun (WriteHeader StatusNoContent w) started taken lastResult false)
  | S remaining' =>
      match sched with
      | [] => None
      | Done :: _ =>
          Some (mkRun (WriteHeader StatusNoContent w) started (S taken) lastResult false)
      | Arrive i :: sched' =>
          result ← results !! i;
          if decide (Err result ≠ None)
          then dispatch results w started remaining' (S taken) result sched'
          else if decide (StatusCode result = StatusOK ∧ 0 < length (Body result))
          then
            let w := Header_Set (bs "Content-Type") (bs "application/json") w in
            let w := WriteHeader StatusOK w in
            let w := Write (Body result) w in
            Some (mkRun w started (S taken) lastResult true)
          else dispatch results w started remaining' (S taken) result sched'
      end
  end.

(** [handleHasJoined] fans out the hasJoined request to all configured
    session servers concurrently and returns the first successful
    response. *)
Definition handleHasJoined (w : ResponseWriter) (r : Request) (servers : list bytes)
    (sched : list event) : option Run :=
  let query := RawQuery r in
  if decide (query = [])
  then Some (mkRun (http_Error (bs "missing query parameters") StatusBadRequest w)
               [] 0 (mkAuthResult 0 [] [] None) false)
  else
    let results := (λ server, querySessionServer server query) <$> servers in
    let started := (λ server, probe_url server query) <$> servers in
    dispatch results w started (length servers) 0 (mkAuthResult 0 [] [] None) sched.

(** *** Routing *)

(** The handlers [startMultiauth] registers. *)
Inductive handler :=
  | HasJoinedHandler   (* mux.HandleFunc(hasJoinedPath, ...) *)
  | HealthHandler      (* mux.HandleFunc("/health", ...) *)
  | CatchAllHandler.   (* mux.HandleFunc("/", ...) *)

(** [http.ServeMux]: the patterns by name, and those ending in a slash
    from longest to shortest. *)
Record ServeMux := mkServeMux {
  mux_m : gmap bytes handler;
  mux_es : list (bytes * handler)
}.

Definition NewServeMux : ServeMux := mkServeMux ∅ [].

Fixpoint appendSorted (es : list (bytes * handler)) (e : bytes * handler)
  : list (bytes * handler) :=
  match es with
  | [] => [e]
  | e' :: es' =>
      if decide (length e'.1 < length e.1) then e :: es
      else e' :: appendSorted es' e
  end.

(** [mux.HandleFunc(pattern, h)] *)
Definition HandleFunc (pattern : bytes) (h : handler) (mux : ServeMux) : ServeMux :=
  mkServeMux (<[pattern := h]> (mux_m mux))
    (if decide (last pattern = Some x2f) then appendSorted (mux_es mux) (pattern, h)
     else mux_es mux).

(** [mux.match(path)]: an exact match first, then the longest pattern
    ending in a slash that is a prefix of the path.  The method plays no
    part. *)
Definition mux_match (mux : ServeMux) (path : bytes) : option handler :=
  match mux_m mux !! path with
  | Some h => Some h
  | None => (λ found, found.2.2) <$> list_find (λ e, e.1 `prefix_of` path) (mux_es mux)
  end.

(** The mux built by [startMultiauth]. *)
Definition multiauth_mux : ServeMux :=
  HandleFunc (bs "/") CatchAllHandler
    (HandleFunc (bs "/health") HealthHandler
       (HandleFunc hasJoinedPath HasJoinedHandler NewServeMux)).

(** [Config] holds all runtime configuration. *)
Record Config := mkConfig {
  ListenAddr : bytes;
  BackendAddr : bytes;
  AuthListenAddr : bytes;
  SessionServers : list bytes
}.

(** [path.Clean] on a rooted path keeps the elements between the
    slashes in order, without the empty ones and the [.] ones; a [..]
    takes the element before it away and is dropped at the root. *)
Fixpoint clean_elems (out elems : list bytes) : list bytes :=
  match elems with
  | [] => out
  | e :: elems' =>
      if decide (e = [] ∨ e = bs ".") then clean_elems out elems'
      else if decide (e = bs "..") then clean_elems (take (length out - 1) out) elems'
      else clean_elems (out ++ [e]) elems'
  end.

Definition path_Clean (p : bytes) : bytes :=
  match clean_elems [] (Split p x2f) with
  | [] => bs "/"
  | elems => concat ((λ e, x2f :: e) <$> elems)
  end.

(** [cleanPath] of the mux: the canonical form of a path, rooted, and
    with the trailing slash of the original put back. *)
Definition cleanPath (p : bytes) : bytes :=
  if decide (p = []) then bs "/" else
  let p := if decide (head p = Some x2f) then p else x2f :: p in
  let np := path_Clean p in
  if decide (last p = Some x2f ∧ np ≠ bs "/") then np ++ bs "/" else np.

(** What serving a request does: a redirect to another path with the
    same query, a fan-out run, or a response written directly. *)
Inductive Served :=
  | Redirected (path query : bytes)
  | FanOut (run : option Run)
  | Direct (w : ResponseWriter).

(** The response as the server sends it: its response writer takes the
    status and the header of a HEAD request and drops what the handler
    writes as body. *)
Definition sent (r : Request) (w w' : ResponseWriter) : ResponseWriter :=
  if decide (Method r = bs "HEAD")
  then mkResponseWriter (Header w') (Code w') (Sent w)
  else w'.

Definition sent_run (r : Request) (w : ResponseWriter) (run : Run) : Run :=
  mkRun (sent r w (run_w run)) (run_started run) (run_taken run) (run_last run)
    (run_cancelled run).

(** The server [startMultiauth] starts, on one request.  [Path r] stands
    for [r.URL.Path] and for [r.URL.EscapedPath()] alike: the paths
    considered hold no percent-encoded byte.  The mux cleans the path of
    every request but a CONNECT request and answers a path that is not
    in canonical form with a redirect to the cleaned one (status 301, or
    307 in later versions of the library) before any handler runs;
    otherwise it runs the handler function registered for the pattern
    that matches, and [http.NotFound] when none does.  None of the three
    patterns ends in a slash behind a name, so the redirect that adds a
    trailing slash never applies. *)
Definition ServeHTTP (cfg : Config) (w : ResponseWriter) (r : Request)
    (sched : list event) : Served :=
  let path := if decide (Method r = bs "CONNECT") then Path r else cleanPath (Path r) in
  if decide (path ≠ Path r) then Redirected path (RawQuery r) else
  match mux_match multiauth_mux path with
  | Some HasJoinedHandler =>
      FanOut (sent_run r w <$> handleHasJoined w r (SessionServers cfg) sched)
  | Some HealthHandler =>
      let w' := WriteHeader StatusOK w in
      Direct (sent r w (Write (bs "ok") w'))
  | Some CatchAllHandler =>
      if Contains (Path r) (bs "hasJoined")
      then FanOut (sent_run r w <$> handleHasJoined w r (SessionServers cfg) sched)
      else
        let w' := WriteHeader StatusNotFound w in
        Direct (sent r w (Write (bs "mc-dual-proxy multiauth server") w'))
  | None => Direct (sent r w (http_Error (bs "404 page not found") StatusNotFound w))
  end.

End Multiauth.

(** ** The command line

    [main] reads four flags, splits the [-session-servers] flag at its
    commas, trims every part and keeps the parts that are not empty; with
    none left it ends the program through [log.Fatal]. *)

(** *** [strings.TrimSpace]

    The library removes the white-space runes of Unicode from both ends
    of a string.  [space_width s] is the number of bytes of the
    white-space rune that [s] begins with, 0 when it begins with none: the
    runes are U+0009..U+000D, U+0020, U+0085, U+00A0, U+1680,
    U+2000..U+200A, U+2028, U+2029, U+202F, U+205F and U+3000 in UTF-8,
    and bytes that are no valid encoding decode to U+FFFD, which is no
    white space.  [space_width_last r] is the same for the rune that a
    string ends with, [r] being the string reversed. *)

Definition space_width (s : bytes) : nat :=
  match s with
  | (x09 | x0a | x0b | x0c | x0d | x20) :: _ => 1
  | xc2 :: (x85 | xa0) :: _ => 2
  | xe1 :: x9a :: x80 :: _ => 3
  | xe2 :: x80 :: (x80 | x81 | x82 | x83 | x84 | x85 | x86 | x87 | x88 | x89
                   | x8a | xa8 | xa9 | xaf) :: _ => 3
  | xe2 :: x81 :: x9f :: _ => 3
  | xe3 :: x80 :: x80 :: _ => 3
  | _ => 0
  end.

Definition space_width_last (r : bytes) : nat :=
  match r with
  | (x09 | x0a | x0b | x0c | x0d | x20) :: _ => 1
  | (x85 | xa0) :: xc2 :: _ => 2
  | x80 :: x9a :: xe1 :: _ => 3
  | (x80 | x81 | x82 | x83 | x84 | x85 | x86 | x87 | x88 | x89
     | x8a | xa8 | xa9 | xaf) :: x80 :: xe2 :: _ => 3
  | x9f :: x81 :: xe2 :: _ => 3
  | x80 :: x80 :: xe3 :: _ => 3
  | _ => 0
  end.

(** Drops white-space runes from the head for as long as there is one.
    Every round drops at least one byte, so the length of the string is
    fuel enough. *)
Fixpoint trim_loop (width : bytes → nat) (fuel : nat) (s : bytes) : bytes :=
  match fuel with
  | O => s
  | S fuel' =>
      match width s with
      | O => s
      | k => trim_loop width fuel' (drop k s)
      end
  end.

Definition TrimLeftSpace (s : bytes) : bytes := trim_loop space_width (length s) s.

Definition TrimRightSpace (s : bytes) : bytes :=
  reverse (trim_loop space_width_last (length s) (reverse s)).

(** [strings.TrimSpace(s)] *)
Definition TrimSpace (s : bytes) : bytes := TrimRightSpace (TrimLeftSpace s).

(** *** [main] *)

(** The loop over the parts of the [-session-servers] flag:
    [s = strings.TrimSpace(s); if s != "" { cfg.SessionServers =
    append(cfg.SessionServers, s) }]. *)
Fixpoint appendServers (SessionServers : list bytes) (parts : list bytes) : list bytes :=
  match parts with
  | [] => SessionServers
  | s :: parts' =>
      let s := TrimSpace s in
      if decide (s ≠ []) then appendServers (SessionServers ++ [s]) parts'
      else appendServers SessionServers parts'
  end.

(** The values of the four flags after [flag.Parse]. *)
Record Flags := mkFlags {
  flag_listen : bytes;
  flag_backend : bytes;
  flag_auth_listen : bytes;
  flag_session_servers : bytes
}.

(** [main], up to the point where it starts the two servers: the
    configuration they are started with, or [None] when [log.Fatal] ends
    the program because no session server is configured. *)
Definition main (flags : Flags) : option Config :=
  let cfg := mkConfig (flag_listen flags) (flag_backend flags) (flag_auth_listen flags) [] in
  let servers := appendServers (SessionServers cfg) (Split (flag_session_servers flags) x2c) in
  if decide (length servers = 0) then None
  else Some (mkConfig (ListenAddr cfg) (BackendAddr cfg) (AuthListenAddr cfg) servers).

(** ** Vocabulary of the properties *)

(** The header [parseProxyV2] builds from the bytes it consumed. *)
Definition decodeV2 (raw : bytes) : ProxyHeader :=
  let addrBlock := drop 16 raw in
  let addrFamily := Z.shiftr (byte_to_Z (raw !!! 13%nat)) 4 in
  let addrLen := BigEndian_Uint16 (slice raw 14 16) in
  let header := mkProxyHeader 2 [] [] 0 0 raw in
  if decide (addrFamily = 1%Z) then
    if decide (12 ≤ addrLen)%Z then
      mkProxyHeader 2 (slice addrBlock 0 4) (slice addrBlock 4 8)
        (BigEndian_Uint16 (slice addrBlock 8 10))
        (BigEndian_Uint16 (slice addrBlock 10 12)) raw
    else header
  else if decide (addrFamily = 2%Z) then
    if decide (36 ≤ addrLen)%Z then
      mkProxyHeader 2 (slice addrBlock 0 16) (slice addrBlock 16 32)
        (BigEndian_Uint16 (slice addrBlock 32 34))
        (BigEndian_Uint16 (slice addrBlock 34 36)) raw
    else header
  else header.

(** A v2 header: the signature, version 2, and as many bytes after the
    16 fixed ones as its length field announces. *)
Definition well_formed_v2 (H : bytes) : Prop :=
  take 12 H = proxyV2Sig ∧
  Z.shiftr (byte_to_Z (H !!! 12%nat)) 4 = 2%Z ∧
  length H = 16 + Z.to_nat (BigEndian_Uint16 (slice H 14 16)).

(** Tokens separated by single spaces. *)
Fixpoint join_sp (tokens : list bytes) : bytes :=
  match tokens with
  | [] => []
  | [t] => t
  | t :: ts => t ++ SP :: join_sp ts
  end.

(** A v1 header line: the tokens, then CRLF. *)
Definition v1_line (tokens : list bytes) : bytes := join_sp tokens ++ [CR; LF].

(** A token holds no space, carriage return or line feed. *)
Definition clean_token (t : bytes) : Prop := (SP ∉ t) ∧ (CR ∉ t) ∧ (LF ∉ t).

(** What [parseProxyV1] makes of the tokens of a line. *)
Definition v1_outcome (ParseIP : bytes → IP) (tokens : list bytes)
  : option ProxyHeader * option error :=
  let line := v1_line tokens in
  if decide (length tokens = 2 ∧ tokens !! 1 = Some (bs "UNKNOWN"))
  then (Some (mkProxyHeader 1 [] [] 0 0 line), None)
  else if decide (length tokens ≠ 6)
  then (None, Some (ErrV1Fields (length tokens)))
  else (Some (mkProxyHeader 1 (ParseIP (tokens !!! 2)) (ParseIP (tokens !!! 3))
                (uint16 (default 0%Z (Sscanf_d (tokens !!! 4))))
                (uint16 (default 0%Z (Sscanf_d (tokens !!! 5)))) line), None).

(** A v1 header as the specification describes it: [PROXY UNKNOWN], or
    [PROXY], [TCP4] or [TCP6], and four more fields. *)
Definition well_formed_v1 (H : bytes) : Prop :=
  ∃ tokens, H = v1_line tokens ∧ Forall clean_token tokens ∧
    (tokens = [bs "PROXY"; bs "UNKNOWN"] ∨
     (length tokens = 6 ∧ tokens !! 0 = Some (bs "PROXY") ∧
      (tokens !! 1 = Some (bs "TCP4") ∨ tokens !! 1 = Some (bs "TCP6")))).

(** A TCP address whose IP has one of the two legal lengths and whose
    port fits 16 bits. *)
Definition valid_tcp_addr (a : Addr) : Prop :=
  match a with
  | TCPAddr ip port _ => (length ip = 4 ∨ length ip = 16) ∧ (0 ≤ port ≤ 65535)%Z
  | OtherAddr _ _ => False
  end.

Definition addr_ip (a : Addr) : IP :=
  match a with TCPAddr ip _ _ => ip | OtherAddr _ _ => [] end.

Definition addr_port (a : Addr) : Z :=
  match a with TCPAddr _ port _ => port | OtherAddr _ _ => 0%Z end.

(** Both addresses are IPv4, the case in which the 28-byte header is
    built. *)
Definition both_v4 (src dst : Addr) : Prop :=
  To4 (addr_ip src) ≠ [] ∧ To4 (addr_ip dst) ≠ [].

#[global] Instance both_v4_dec src dst : Decision (both_v4 src dst).
Proof. unfold both_v4. apply _. Defined.

(** The sign a decimal integer token starts with. *)
Inductive sign := NoSign | Plus | Minus.

#[global] Instance sign_eq_dec : EqDecision sign.
Proof. solve_decision. Defined.

(** A decimal integer token: an optional sign and digits. *)
Definition signed (sg : sign) (ds : bytes) : bytes :=
  match sg with
  | NoSign => ds
  | Plus => x2b :: ds
  | Minus => x2d :: ds
  end.

(** The value of such a token. *)
Definition signed_value (sg : sign) (ds : bytes) : Z :=
  match sg with
  | Minus => (- decimal ds)%Z
  | _ => decimal ds
  end.

(** The port [parseProxyV1] stores for a decimal token of value [v]. *)
Definition wrapped_port (v : Z) : Z :=
  if decide (- 2 ^ 63 ≤ v ≤ 2 ^ 63 - 1)%Z then (v mod 65536)%Z else 0%Z.

Definition all_digits (ds : bytes) : Prop := Forall (λ c, is_digit c = true) ds.
Definition no_digit (s : bytes) : Prop := Forall (λ c, is_digit c = false) s.

(** A result wins when it carries no error, status 200 and a non-empty
    body. *)
Definition winner (result : authResult) : Prop :=
  Err result = None ∧ StatusCode result = StatusOK ∧ 0 < length (Body result).

#[global] Instance winner_dec result : Decision (winner result).
Proof. unfold winner. apply _. Defined.

(** The probes whose results the dispatcher can receive before
    [ctx.Done()]: the arrivals of the schedule up to its first [Done]. *)
Fixpoint arrivals (sched : list event) : list nat :=
  match sched with
  | Arrive i :: sched' => i :: arrivals sched'
  | _ => []
  end.

(** The 204 response. *)
Definition no_content (w : ResponseWriter) : ResponseWriter :=
  mkResponseWriter (Header w) (Some StatusNoContent) (Sent w).

(** What the probe started for [servers[i]] sends on the channel. *)
Definition probe_result (net : bytes → upstream_reply) (servers : list bytes)
    (query : bytes) (i : nat) : option authResult :=
  (λ server, querySessionServer net server query) <$> servers !! i.

(** The probe started for [servers[i]] reports a result that does not
    win: an error, another status, or an empty body. *)
Definition loses (net : bytes → upstream_reply) (servers : list bytes)
    (query : bytes) (i : nat) : Prop :=
  ∃ result, probe_result net servers query i = Some result ∧ ¬ winner result.



#[global] Instance clean_token_dec t : Decision (clean_token t).
Proof. unfold clean_token. apply _. Defined.

#[global] Instance well_formed_v2_dec H : Decision (well_formed_v2 H).
Proof. unfold well_formed_v2. apply _. Defined.

(** A v2 header field by field: the signature, the version and command
    byte, the family and transport byte, the length of the address block
    and the block. *)
Definition v2_frame (verCmd famProto : byte) (block : bytes) : bytes :=
  proxyV2Sig ++ [verCmd; famProto] ++ BigEndian_PutUint16 (Z.of_nat (length block)) ++ block.

(** The address is a [*net.TCPAddr]. *)
Definition is_tcp (a : Addr) : Prop :=
  match a with TCPAddr _ _ _ => True | OtherAddr _ _ => False end.

#[global] Instance is_tcp_dec a : Decision (is_tcp a).
Proof. destruct a; apply _. Defined.

(** [strings.Join(elems, sep)] for a one-byte separator. *)
Fixpoint Join (elems : list bytes) (sep : byte) : bytes :=
  match elems with
  | [] => []
  | [e] => e
  | e :: elems' => e ++ sep :: Join elems' sep
  end.

(** An entry of the server list as [main] keeps it: not empty, without a
    comma, and with no white space left to trim at either end. *)
Definition trimmed_entry (s : bytes) : Prop := s ≠ [] ∧ (x2c ∉ s) ∧ TrimSpace s = s.

#[global] Instance trimmed_entry_dec s : Decision (trimmed_entry s).
Proof. unfold trimmed_entry. apply _. Defined.

(** One PROXY header as the codec frames it: a v1 line, which begins
    with ["PROXY "] and ends with its only line feed, a carriage return
    before it, or a v2 frame. *)
Definition one_proxy_header (H : bytes) : Prop :=
  (∃ l, H = l ++ [CR; LF] ∧ proxyV1Prefix `prefix_of` l ∧ LF ∉ l) ∨ well_formed_v2 H.

(** ** Concrete inputs *)

(** The first bytes of a Minecraft handshake. *)
Definition handshake : bytes :=
  [x10; x00; xfd; x05; x09; x6c; x6f; x63; x61; x6c; x68; x6f; x73; x74; x63; xdd; x02].

(** A v1 header as a gateway sends it. *)
Definition gateway_line : bytes :=
  v1_line [bs "PROXY"; bs "TCP4"; bs "1.2.3.4"; bs "10.0.0.1"; bs "11111"; bs "25565"].

(** Two upstreams: the first answers 200 with a profile, the second 204. *)
Definition two_upstreams (url : bytes) : upstream_reply :=
  if Contains url (bs "mojang") then Response 200 (bs "{profile}") else Response 204 [].

Definition two_servers : list bytes :=
  [bs "https://sessionserver.mojang.com"; bs "https://api.minehut.com/mitm/proxy"].

(** The configuration of the command line's defaults. *)
Definition default_config : Config :=
  mkConfig (bs "0.0.0.0:25565") (bs "127.0.0.1:25566") (bs "127.0.0.1:8652") two_servers.

Definition join_request : Request :=
  mkRequest (bs "GET") hasJoinedPath (bs "username=TestPlayer&serverId=abc123").

(** What a run answered: status, body, and the number of events taken. *)
Definition answered (run : option Run) : option (option Z * bytes * nat) :=
  (λ run, (Code (run_w run), Sent (run_w run), run_taken run)) <$> run.

(** The flags at their default values. *)
Definition default_flags : Flags :=
  mkFlags (bs "0.0.0.0:25565") (bs "127.0.0.1:25566") (bs "127.0.0.1:8652")
    (bs "https://sessionserver.mojang.com,https://api.minehut.com/mitm/proxy").

(** A connection from a gateway, which sends a v1 header first. *)
Definition gateway_client : ClientConn :=
  mkClientConn (TCPAddr [x0a; x00; x00; x07] 40000 []) (TCPAddr [x0a; x00; x00; x01] 25565 [])
    [gateway_line ++ bs "MC_"; bs "DATA"].

(** A connection from a player, which starts with the handshake. *)
Definition direct_client : ClientConn :=
  mkClientConn (TCPAddr [xcb; x00; x71; x32] 49152 []) (TCPAddr [x0a; x00; x00; x01] 25565 [])
    [take 3 handshake; drop 3 handshake].

(** * Properties *)

(** Settles a decidable proposition on closed terms by evaluation. *)
Ltac by_evaluation := apply (bool_decide_unpack _); vm_compute; exact I.

(** ** The buffered reader *)

Lemma conn_Read_content rd n d rd' :
  conn_Read rd n = Some (d, rd') → concat rd = d ++ concat rd'.
Proof.
  destruct rd as [|c rest]; simpl; [done|].
  intros [= <- <-]. case_decide; simpl.
  - by rewrite take_ge.
  - by rewrite app_assoc, take_drop.
Qed.

Lemma conn_Read_length rd n d rd' :
  conn_Read rd n = Some (d, rd') →
  length d ≤ n ∧ length rd' ≤ length rd ∧
  (0 < n → d = [] → length rd' < length rd).
Proof.
  destruct rd as [|c rest]; simpl; [done|].
  intros [= <- <-]. rewrite length_take. split; [lia|].
  case_decide; simpl; split; try lia.
  intros Hn Hd. apply (f_equal length) in Hd. rewrite length_take in Hd.
  simpl in Hd. lia.
Qed.

Lemma conn_Read_weight rd n d rd' :
  conn_Read rd n = Some (d, rd') → 0 < n → rd_weight rd' < rd_weight rd.
Proof.
  unfold rd_weight. destruct rd as [|c rest]; simpl; [done|].
  intros [= <- <-] Hn. case_decide; simpl; rewrite !length_app.
  - lia.
  - rewrite length_drop. lia.
Qed.

Lemma Peek_fill_spec n size buf rd :
  ∃ br' err, Peek_fill n size buf rd = (br', err) ∧
    content br' = buf ++ concat rd ∧ br_size br' = size ∧
    (if err then br_rd br' = [] ∧ length (br_buf br') < n
     else n ≤ length (br_buf br') ∨ size ≤ length (br_buf br')).
Proof.
  revert buf. induction rd as [|c rest IH]; intros buf; simpl.
  - case_decide; eexists _, _; (split; [done|]); unfold content; simpl;
      split_and!; try done; lia.
  - case_decide as Hlt.
    + case_decide as Hc.
      * destruct (IH (buf ++ c)) as (br' & err & -> & Hcont & Hsz & Herr).
        eexists _, _; split; [done|]. by rewrite Hcont, <-app_assoc.
      * eexists _, _; split; [done|]. unfold content; simpl.
        split_and!; [|done|].
        -- by rewrite <-!app_assoc, (app_assoc (take _ _)), take_drop.
        -- right. rewrite length_app, length_take. lia.
    + eexists _, _; split; [done|]. unfold content; simpl. split_and!; try done. lia.
Qed.

(** [Peek_fill] is the loop of [Peek] over [fill]. *)
Lemma Peek_fill_loop n size buf rd :
  Peek_fill n size buf rd =
    if decide (length buf < n ∧ length buf < size) then
      let '(br', err) := fill (mkReader buf rd size) in
      if err then (br', true)
      else Peek_fill n size (br_buf br') (br_rd br')
    else (mkReader buf rd size, false).
Proof.
  destruct rd as [|c rest]; simpl; case_decide as Hlt; try done.
  unfold fill. simpl. case_decide as Hc.
  - by rewrite take_ge.
  - destruct rest; simpl; rewrite decide_False; try done;
      rewrite length_app, length_take; lia.
Qed.

(** [Peek] consumes nothing and returns the first [n] bytes of the
    stream, with an error exactly when the stream is shorter. *)
Lemma Peek_spec br n :
  n ≤ br_size br →
  ∃ br', Peek br n = (br', take n (content br), bool_decide (length (content br) < n)) ∧
    content br' = content br ∧ br_size br' = br_size br.
Proof.
  intros Hn. unfold Peek.
  destruct (Peek_fill_spec n (br_size br) (br_buf br) (br_rd br))
    as (br' & err & -> & Hcont & Hsz & Herr).
  fold (content br) in Hcont. rewrite <-Hcont.
  case_decide as Hlt.
  - assert (br_rd br' = []) as Hrd.
    { destruct err; [by destruct Herr|]. lia. }
    assert (content br' = br_buf br') as Hb.
    { unfold content. rewrite Hrd. simpl. by rewrite app_nil_r. }
    exists br'. rewrite Hb, take_ge by lia.
    rewrite bool_decide_eq_true_2 by done. by rewrite <-Hb.
  - exists br'. rewrite bool_decide_eq_false_2.
    + unfold content at 1. rewrite take_app_le by lia. done.
    + unfold content. rewrite length_app. lia.
Qed.

Lemma index_after_Some delim b i :
  index_after delim b = Some i →
  ∃ l, take i b = l ++ [delim] ∧ delim ∉ l.
Proof.
  revert i. induction b as [|c b IH]; intros i; simpl; [done|].
  case_decide as Hc.
  - intros [= <-]. exists []. subst. split; [done|]. apply not_elem_of_nil.
  - destruct (index_after delim b) as [j|]; simpl; [|done].
    intros [= <-]. destruct (IH j eq_refl) as (l & Hl & Hnot).
    exists (c :: l). simpl. rewrite Hl. split; [done|].
    rewrite not_elem_of_cons. split; [congruence|done].
Qed.

Lemma index_after_None delim b : index_after delim b = None → delim ∉ b.
Proof.
  induction b as [|c b IH]; simpl; [intros; apply not_elem_of_nil|].
  case_decide; [done|]. destruct (index_after delim b); simpl; [done|].
  intros _. rewrite not_elem_of_cons. split; [congruence|by apply IH].
Qed.

Lemma fill_spec br :
  br_rd br ≠ [] → length (br_buf br) < br_size br →
  ∃ br', fill br = (br', false) ∧ content br' = content br ∧
    br_size br' = br_size br ∧ rd_weight (br_rd br') < rd_weight (br_rd br).
Proof.
  intros Hrd Hlt. unfold fill.
  destruct (conn_Read (br_rd br) _) as [[d rd']|] eqn:Hread.
  - eexists; split; [done|]. unfold content; simpl.
    rewrite (conn_Read_content _ _ _ _ Hread), <-app_assoc.
    split_and!; try done. eapply conn_Read_weight; [done|lia].
  - by destruct (br_rd br).
Qed.

Lemma ReadBytes_loop_spec delim fuel acc br :
  0 < br_size br →
  2 * rd_weight (br_rd br) + (if br_buf br is [] then 0 else 1) < fuel →
  ∃ br' line err, ReadBytes_loop fuel delim acc br = Some (br', acc ++ line, err) ∧
    content br = line ++ content br' ∧ br_size br' = br_size br ∧
    (if (err : bool) then (delim ∉ line) ∧ content br' = []
     else ∃ l, line = l ++ [delim] ∧ delim ∉ l).
Proof.
  revert acc br. induction fuel as [|fuel IH]; intros acc br Hsz Hfuel; [lia|].
  simpl. destruct (index_after delim (br_buf br)) as [i|] eqn:Hidx.
  - eexists _, _, _; split; [done|]. unfold content; simpl.
    split_and!; [|done|by eapply index_after_Some].
    by rewrite app_assoc, take_drop.
  - apply index_after_None in Hidx. case_decide as Hfull.
    + destruct (IH (acc ++ br_buf br) (mkReader [] (br_rd br) (br_size br)))
        as (br' & line & err & -> & Hcont & Hsz' & Herr); [done| |].
      { simpl. destruct (br_buf br); simpl in *; lia. }
      exists br', (br_buf br ++ line), err. rewrite app_assoc.
      split; [done|]. unfold content in *; simpl in *.
      rewrite Hcont, <-app_assoc. split_and!; try done.
      destruct err.
      * destruct Herr as [? ?]. split; [|done]. rewrite elem_of_app. tauto.
      * destruct Herr as (l & -> & Hl). exists (br_buf br ++ l).
        rewrite <-app_assoc. split; [done|]. rewrite elem_of_app. tauto.
    + destruct (br_rd br) as [|c rest] eqn:Hrd.
      * unfold fill. rewrite Hrd. simpl.
        eexists _, _, true; split; [done|]. unfold content; simpl.
        rewrite Hrd. simpl. rewrite app_nil_r. done.
      * destruct (fill_spec br) as (br' & -> & Hcont & Hsz' & Hw);
          [by rewrite Hrd|lia|].
        destruct (IH acc br') as (br'' & line & err & -> & Hcont' & Hsz'' & Herr).
        { lia. }
        { rewrite Hrd in Hw. destruct (br_buf br'), (br_buf br); lia. }
        exists br'', line, err. split; [done|]. rewrite <-Hcont, Hcont'.
        split_and!; try done. congruence.
Qed.

(** [ReadBytes] always returns; what it returns is the head of the
    stream, through the first [delim] when there is one. *)
Lemma ReadBytes_spec br delim :
  0 < br_size br →
  ∃ br' line err, ReadBytes br delim = Some (br', line, err) ∧
    content br = line ++ content br' ∧ br_size br' = br_size br ∧
    (if (err : bool) then (delim ∉ line) ∧ content br' = []
     else ∃ l, line = l ++ [delim] ∧ delim ∉ l).
Proof.
  intros Hsz. unfold ReadBytes.
  destruct (ReadBytes_loop_spec delim (2 * rd_weight (br_rd br) + 2) [] br)
    as (br' & line & err & H); [done| |].
  { destruct (br_buf br); lia. }
  eauto.
Qed.

Lemma Read_spec br n :
  0 < n →
  ∃ br' d err, Read br n = (br', d, err) ∧
    content br = d ++ content br' ∧ br_size br' = br_size br ∧ length d ≤ n ∧
    length (br_rd br') ≤ length (br_rd br) ∧
    (if (err : bool) then d = [] ∧ content br' = []
     else d = [] → length (br_rd br') < length (br_rd br)).
Proof.
  intros Hn. unfold Read, content. destruct (br_buf br) as [|b buf] eqn:Hbuf.
  - case_decide as Hsz.
    + destruct (conn_Read (br_rd br) n) as [[d rd']|] eqn:Hread.
      * destruct (conn_Read_length _ _ _ _ Hread) as (? & ? & ?).
        eexists _, _, false; split; [done|]. simpl.
        rewrite (conn_Read_content _ _ _ _ Hread). split_and!; auto.
      * destruct (br_rd br) eqn:Hrd; [|done].
        eexists _, _, true; split; [done|]. rewrite Hbuf, Hrd. simpl. split_and!; auto; lia.
    + destruct (conn_Read (br_rd br) (br_size br)) as [[d rd']|] eqn:Hread.
      * destruct (conn_Read_length _ _ _ _ Hread) as (? & ? & Hd).
        eexists _, _, false; split; [done|]. simpl.
        rewrite (conn_Read_content _ _ _ _ Hread).
        rewrite app_assoc, take_drop, length_take. split_and!; auto; try lia.
        intros Ht. apply Hd; [lia|]. destruct d; [done|]. destruct n; [lia|done].
      * destruct (br_rd br) eqn:Hrd; [|done].
        eexists _, _, true; split; [done|]. rewrite Hbuf, Hrd. simpl. split_and!; auto; lia.
  - eexists _, _, false; split; [done|]. simpl.
    rewrite app_assoc, take_drop, length_take.
    split_and!; auto; try lia. destruct n; [lia|done].
Qed.

Lemma readFull_loop_spec fuel br len got :
  (len - length got) + length (br_rd br) < fuel →
  ∃ br' more err, readFull_loop fuel br len got = Some (br', got ++ more, err) ∧
    content br = more ++ content br' ∧ br_size br' = br_size br ∧
    (if (err : bool) then length (got ++ more) < len ∧ content br' = []
     else length (got ++ more) = length got `max` len).
Proof.
  revert br got. induction fuel as [|fuel IH]; intros br got Hfuel; [lia|].
  simpl. case_decide as Hlt.
  - destruct (Read_spec br (len - length got)) as
      (br' & d & err & -> & Hcont & Hsz & Hd & Hrd & Herr); [lia|].
    destruct err.
    + destruct Herr as [-> Hnil]. exists br', [], true. split; [done|].
      rewrite app_nil_r. split_and!; try done.
    + destruct (IH br' (got ++ d)) as (br'' & more & err & -> & Hcont' & Hsz' & Herr').
      { rewrite length_app. destruct d as [|b d]; simpl in *; try specialize (Herr eq_refl); lia. }
      exists br'', (d ++ more), err. rewrite !app_assoc. split; [done|].
      rewrite Hcont, Hcont', <-!app_assoc. rewrite <-app_assoc in Herr'.
      split_and!; try done; [congruence|].
      destruct err; [done|]. rewrite Herr', !length_app. lia.
  - exists br, [], false. rewrite app_nil_r. split; [done|]. split_and!; try done. lia.
Qed.

(** [readFull] always returns; it consumes the first [len] bytes of the
    stream, or fails on a stream that is shorter. *)
Lemma readFull_spec br len :
  ∃ br' got err, readFull br len = Some (br', got, err) ∧
    content br = got ++ content br' ∧ br_size br' = br_size br ∧
    (if (err : bool) then length got < len ∧ content br' = [] else length got = len).
Proof.
  unfold readFull.
  destruct (readFull_loop_spec (len + length (br_rd br) + 1) br len [])
    as (br' & more & err & Heq & Hcont & Hsz & Herr); [simpl; lia|].
  exists br', more, err. simpl in *. by split_and!.
Qed.

(** With enough bytes ahead [readFull] succeeds. *)
Lemma readFull_enough br len :
  len ≤ length (content br) →
  ∃ br', readFull br len = Some (br', take len (content br), false) ∧
    content br' = drop len (content br) ∧ br_size br' = br_size br.
Proof.
  intros Hlen.
  destruct (readFull_spec br len) as (br' & got & err & -> & Hcont & Hsz & Herr).
  destruct err.
  - destruct Herr as [Hlt Hnil]. rewrite Hcont, Hnil, app_nil_r in Hlen. lia.
  - exists br'. rewrite Hcont, take_app_length', drop_app_length' by done. done.
Qed.

(** The first [delim] of a stream splits it in one way only. *)
Lemma first_delim_unique (delim : byte) l1 r1 l2 r2 :
  l1 ++ delim :: r1 = l2 ++ delim :: r2 → delim ∉ l1 → delim ∉ l2 →
  l1 = l2 ∧ r1 = r2.
Proof.
  revert l2. induction l1 as [|a l1 IH]; intros [|b l2]; simpl.
  - by intros [= ->].
  - intros [= <- _] _ Hb. exfalso. apply Hb. left.
  - intros [= -> _] Ha. exfalso. apply Ha. left.
  - intros [= -> Heq]. rewrite !not_elem_of_cons. intros [_ H1] [_ H2].
    destruct (IH l2 Heq H1 H2) as [-> ->]. done.
Qed.

(** On a stream that holds a line, [ReadBytes] returns the line. *)
Lemma ReadBytes_line br delim l rest :
  0 < br_size br → content br = l ++ delim :: rest → delim ∉ l →
  ∃ br', ReadBytes br delim = Some (br', l ++ [delim], false) ∧
    content br' = rest ∧ br_size br' = br_size br.
Proof.
  intros Hsz Hcont Hl.
  destruct (ReadBytes_spec br delim Hsz) as (br' & line & err & -> & Hc & Hsz' & Herr).
  destruct err.
  - destruct Herr as [Hnot Hnil]. rewrite Hc, Hnil, app_nil_r in Hcont.
    exfalso. apply Hnot. rewrite Hcont, elem_of_app. right. left.
  - destruct Herr as (l' & -> & Hl'). rewrite Hc, <-app_assoc in Hcont. simpl in Hcont.
    destruct (first_delim_unique _ _ _ _ _ Hcont Hl' Hl) as [-> Hrest]. eauto.
Qed.

(** ** Bytes and big-endian integers *)

Lemma byte_to_Z_range b : (0 ≤ byte_to_Z b < 256)%Z.
Proof. unfold byte_to_Z. pose proof (Byte.to_N_bounded b). lia. Qed.

Lemma byte_to_of_Z z : byte_to_Z (byte_of_Z z) = (z mod 256)%Z.
Proof.
  unfold byte_to_Z, byte_of_Z.
  pose proof (Z.mod_pos_bound z 256 eq_refl) as Hz.
  destruct (Byte.of_N (Z.to_N (z mod 256))) as [b|] eqn:Hb.
  - simpl. rewrite (Byte.to_of_N _ Hb). lia.
  - apply Byte.of_N_None_iff in Hb. lia.
Qed.

Lemma lor_shiftl_8 lo hi :
  (0 ≤ lo < 256)%Z → (0 ≤ hi)%Z → Z.lor lo (Z.shiftl hi 8) = (lo + 256 * hi)%Z.
Proof.
  intros Hlo Hhi. rewrite <-Z.add_nocarry_lor.
  - rewrite Z.shiftl_mul_pow2 by lia. lia.
  - apply Z.bits_inj'. intros n Hn. rewrite Z.land_spec, Z.bits_0.
    destruct (decide (n < 8)%Z).
    + rewrite Z.shiftl_spec_low by lia. apply andb_false_r.
    + replace lo with (lo mod 2 ^ 8)%Z by (apply Z.mod_small; lia).
      rewrite Z.mod_pow2_bits_high by lia. done.
Qed.

(** Decoding what [PutUint16] stored gives the value back. *)
Lemma BigEndian_Uint16_PutUint16 v :
  (0 ≤ v < 65536)%Z → BigEndian_Uint16 (BigEndian_PutUint16 v) = v.
Proof.
  intros Hv. unfold BigEndian_Uint16, BigEndian_PutUint16.
  rewrite !byte_to_of_Z, Z.shiftr_div_pow2 by lia.
  change (2 ^ 8)%Z with 256%Z.
  assert (0 ≤ v / 256 < 256)%Z by (split; [apply Z.div_pos|apply Z.div_lt_upper_bound]; lia).
  rewrite (Z.mod_small (v / 256)) by done.
  rewrite lor_shiftl_8; [|apply Z.mod_pos_bound|]; try lia.
  rewrite (Z.div_mod v 256) at 3 by lia. lia.
Qed.

(** ** Splitting, trimming and joining *)

Lemma Split_cons c s sep :
  Split (c :: s) sep =
    if decide (c = sep) then [] :: Split s sep
    else match Split s sep with
         | p :: ps => (c :: p) :: ps
         | [] => [[c]]
         end.
Proof. done. Qed.

Lemma Split_token t : SP ∉ t → Split t SP = [t].
Proof.
  induction t as [|c t IH]; [done|].
  rewrite not_elem_of_cons. intros [Hc Ht].
  rewrite Split_cons, decide_False by done. by rewrite IH.
Qed.

Lemma Split_token_sep t rest :
  SP ∉ t → Split (t ++ SP :: rest) SP = t :: Split rest SP.
Proof.
  induction t as [|c t IH].
  - intros _. rewrite app_nil_l, Split_cons. by rewrite decide_True.
  - rewrite not_elem_of_cons. intros [Hc Ht].
    rewrite <-app_comm_cons, Split_cons, decide_False by done. by rewrite IH.
Qed.

Lemma Split_join_sp tokens :
  tokens ≠ [] → Forall (λ t, SP ∉ t) tokens → Split (join_sp tokens) SP = tokens.
Proof.
  induction tokens as [|t ts IH]; [done|]. intros _ Hall.
  apply Forall_cons in Hall as [Ht Hts].
  destruct ts as [|t' ts].
  - simpl. by apply Split_token.
  - change (join_sp (t :: t' :: ts)) with (t ++ SP :: join_sp (t' :: ts)).
    rewrite Split_token_sep by done. by rewrite IH.
Qed.

Lemma TrimRight_cons c s cutset :
  TrimRight (c :: s) cutset =
    match TrimRight s cutset with
    | [] => if decide (c ∈ cutset) then [] else [c]
    | t => c :: t
    end.
Proof. done. Qed.

Lemma TrimRight_app_cutset s cutset tail :
  Forall (λ c, c ∈ cutset) tail →
  (∀ c, last s = Some c → c ∉ cutset) →
  TrimRight (s ++ tail) cutset = s.
Proof.
  intros Htail. induction s as [|c s IH].
  - intros _. rewrite app_nil_l.
    induction Htail as [|c tail Hc _ IH]; [done|].
    rewrite TrimRight_cons, IH. by rewrite decide_True.
  - intros Hlast. rewrite <-app_comm_cons, TrimRight_cons. destruct s as [|c' s].
    + rewrite IH by done. rewrite decide_False; [done|]. by apply Hlast.
    + rewrite IH; [done|]. intros d Hd. apply Hlast. done.
Qed.

Lemma elem_of_join_sp c tokens :
  c ∈ join_sp tokens → c = SP ∨ ∃ t, t ∈ tokens ∧ c ∈ t.
Proof.
  induction tokens as [|t ts IH]; [by intros ?%not_elem_of_nil|].
  destruct ts as [|t' ts].
  - simpl. intros Hc. right. exists t. split; [left|done].
  - change (join_sp (t :: t' :: ts)) with (t ++ SP :: join_sp (t' :: ts)).
    rewrite elem_of_app, elem_of_cons. intros [Hc|[->|Hc]].
    + right. exists t. split; [left|done].
    + by left.
    + destruct (IH Hc) as [->|(u & Hu & Hcu)]; [by left|].
      right. exists u. split; [by right|done].
Qed.

Lemma join_sp_clean c tokens :
  Forall clean_token tokens → c ∈ join_sp tokens → c ≠ CR ∧ c ≠ LF.
Proof.
  intros Hall Hc. apply elem_of_join_sp in Hc as [->|(t & Ht & Hct)]; [done|].
  rewrite Forall_forall in Hall. destruct (Hall t Ht) as (_ & Hcr & Hlf).
  split; intros ->; done.
Qed.

(** ** [Sscanf] on port tokens *)

Lemma digit_not_space c s : is_digit c = true → SkipSpace (c :: s) = Some (c :: s).
Proof. intros Hc. destruct c; first [done | by vm_compute in Hc]. Qed.

Lemma digit_not_sign c : is_digit c = true → c ≠ x2b ∧ c ≠ x2d.
Proof. intros Hc. split; intros ->; by vm_compute in Hc. Qed.

Lemma digits_prefix_all ds : all_digits ds → digits_prefix ds = ds.
Proof. induction 1 as [|c ds Hc _ IH]; simpl; [done|]. by rewrite Hc, IH. Qed.

Lemma scanInt_digits ds :
  ds ≠ [] → all_digits ds → scanInt ds = ParseInt false ds.
Proof.
  intros Hne Hall. destruct ds as [|c ds]; [done|].
  pose proof (Forall_inv Hall) as Hc. simpl in Hc.
  destruct (digit_not_sign c Hc) as [Hp Hm].
  assert (scanInt (c :: ds) = match digits_prefix (c :: ds) with
                              | [] => None | d => ParseInt false d end) as ->.
  { unfold scanInt. destruct c; done. }
  by rewrite digits_prefix_all.
Qed.

Lemma Sscanf_d_signed sg ds :
  ds ≠ [] → all_digits ds →
  Sscanf_d (signed sg ds) = ParseInt (bool_decide (sg = Minus)) ds.
Proof.
  intros Hne Hall. unfold Sscanf_d, signed. destruct sg.
  - destruct ds as [|c ds]; [done|].
    rewrite digit_not_space by apply (Forall_inv Hall). simpl.
    by apply scanInt_digits.
  - change (SkipSpace (x2b :: ds)) with (Some (x2b :: ds)). simpl.
    unfold scanInt. rewrite digits_prefix_all by done. by destruct ds.
  - change (SkipSpace (x2d :: ds)) with (Some (x2d :: ds)). simpl.
    unfold scanInt. rewrite digits_prefix_all by done. by destruct ds.
Qed.

Lemma port_of_signed sg ds :
  ds ≠ [] → all_digits ds →
  uint16 (default 0%Z (Sscanf_d (signed sg ds))) = wrapped_port (signed_value sg ds).
Proof.
  intros Hne Hall. rewrite Sscanf_d_signed by done.
  unfold ParseInt, wrapped_port, signed_value. destruct sg; simpl; by case_decide.
Qed.

(** Skipping white space leaves a suffix of the input. *)
Ltac skip_space_cases IH :=
  lazymatch goal with
  | |- Some _ = Some _ → _ => intros [= <-]; done
  | |- None = Some _ → _ => done
  | |- SkipSpace ?t = Some _ → _ =>
      let H := fresh in
      intros H; apply IH in H; [repeat apply suffix_cons_r; exact H | simpl in *; lia]
  | |- context [match ?x with _ => _ end] => destruct x; simpl; skip_space_cases IH
  end.

Lemma SkipSpace_suffix_bounded n s s' :
  length s ≤ n → SkipSpace s = Some s' → s' `suffix_of` s.
Proof.
  revert s s'. induction n as [|n IH]; intros s s' Hlen.
  - destruct s; [|simpl in Hlen; lia]. by intros [= <-].
  - destruct s as [|c s]; [by intros [= <-]|].
    destruct c; simpl; skip_space_cases IH.
Qed.

Lemma SkipSpace_suffix s s' : SkipSpace s = Some s' → s' `suffix_of` s.
Proof. by apply (SkipSpace_suffix_bounded (length s)). Qed.

Lemma no_digit_suffix s s' : no_digit s → s' `suffix_of` s → no_digit s'.
Proof. intros Hs [k ->]. by apply Forall_app in Hs as [_ ?]. Qed.

Lemma scanInt_no_digit s : no_digit s → scanInt s = None.
Proof.
  intros Hs. unfold scanInt.
  assert (∀ t, no_digit t → digits_prefix t = []) as Hnil.
  { intros [|c t] Ht; [done|]. simpl. by rewrite (Forall_inv Ht). }
  destruct s as [|c t]; [done|].
  pose proof (Forall_inv_tail Hs) as Ht.
  destruct c; rewrite Hnil; done.
Qed.

(** A token without a digit stores nothing. *)
Lemma Sscanf_d_no_digit s : no_digit s → Sscanf_d s = None.
Proof.
  intros Hs. unfold Sscanf_d. destruct (SkipSpace s) as [s'|] eqn:Hskip; [|done].
  simpl. apply scanInt_no_digit.
  eapply no_digit_suffix; [done|]. by apply SkipSpace_suffix.
Qed.

Lemma digit_clean c : is_digit c = true → c ≠ SP ∧ c ≠ CR ∧ c ≠ LF.
Proof. intros Hc. split_and!; intros ->; by vm_compute in Hc. Qed.

Lemma signed_clean sg ds : all_digits ds → clean_token (signed sg ds).
Proof.
  intros Hall.
  assert (clean_token ds) as (? & ? & ?).
  { unfold clean_token, all_digits in *. rewrite Forall_forall in Hall.
    split_and!; intros Hin; apply Hall in Hin; by vm_compute in Hin. }
  unfold signed, clean_token. destruct sg; [done|..];
    rewrite !not_elem_of_cons; done.
Qed.

(** ** Addresses *)

Lemma To4_length ip : To4 ip ≠ [] → length (To4 ip) = 4.
Proof.
  unfold To4, slice. repeat case_decide; try done.
  intros _. rewrite length_take, length_drop. lia.
Qed.

Lemma To16_length ip : length ip = 4 ∨ length ip = 16 → length (To16 ip) = 16.
Proof.
  unfold To16. intros [Hl|Hl]; repeat case_decide; try lia.
  by rewrite length_app, Hl.
Qed.

Lemma IP_Equal_To4 ip : To4 ip ≠ [] → IP_Equal (To4 ip) ip = true.
Proof.
  unfold To4. case_decide as H4.
  - intros _. unfold IP_Equal. rewrite decide_True by done. by apply bool_decide_eq_true.
  - case_decide as H16; [|done]. intros _. destruct H16 as [Hl Hp].
    unfold IP_Equal, slice. rewrite length_take, length_drop, Hl.
    rewrite decide_False by lia. rewrite decide_True by lia.
    apply bool_decide_eq_true. split; [done|]. apply take_ge. rewrite length_drop. lia.
Qed.

Lemma IP_Equal_To16 ip :
  length ip = 4 ∨ length ip = 16 → IP_Equal (To16 ip) ip = true.
Proof.
  unfold To16. intros [Hl|Hl]; repeat case_decide; try lia.
  - unfold IP_Equal. rewrite length_app, Hl. simpl.
    apply bool_decide_eq_true. done.
  - unfold IP_Equal. rewrite decide_True by done. by apply bool_decide_eq_true.
Qed.

(** ** [buildProxyV2Header] as a concatenation *)

Lemma build_v4 sip sp sz dip dp dz :
  To4 sip ≠ [] → To4 dip ≠ [] →
  buildProxyV2Header (TCPAddr sip sp sz) (TCPAddr dip dp dz) =
    proxyV2Sig ++ [x21; x11; x00; x0c] ++ To4 sip ++ To4 dip ++
    BigEndian_PutUint16 (uint16 sp) ++ BigEndian_PutUint16 (uint16 dp).
Proof.
  intros Hs Hd. unfold buildProxyV2Header. rewrite decide_True by done.
  pose proof (To4_length _ Hs) as Hls. pose proof (To4_length _ Hd) as Hld.
  destruct (To4 sip) as [|s0 [|s1 [|s2 [|s3 [|]]]]]; try done.
  destruct (To4 dip) as [|d0 [|d1 [|d2 [|d3 [|]]]]]; try done.
Qed.

Lemma build_v6 sip sp sz dip dp dz :
  ¬ (To4 sip ≠ [] ∧ To4 dip ≠ []) →
  length sip = 4 ∨ length sip = 16 → length dip = 4 ∨ length dip = 16 →
  buildProxyV2Header (TCPAddr sip sp sz) (TCPAddr dip dp dz) =
    proxyV2Sig ++ [x21; x21; x00; x24] ++ To16 sip ++ To16 dip ++
    BigEndian_PutUint16 (uint16 sp) ++ BigEndian_PutUint16 (uint16 dp).
Proof.
  intros Hno Hs Hd. unfold buildProxyV2Header. rewrite decide_False by done.
  pose proof (To16_length _ Hs) as Hls. pose proof (To16_length _ Hd) as Hld.
  destruct (To16 sip) as
    [|s0 [|s1 [|s2 [|s3 [|s4 [|s5 [|s6 [|s7 [|s8 [|s9 [|s10 [|s11 [|s12 [|s13 [|s14 [|s15 [|]]]]]]]]]]]]]]]]];
    try done.
  destruct (To16 dip) as
    [|d0 [|d1 [|d2 [|d3 [|d4 [|d5 [|d6 [|d7 [|d8 [|d9 [|d10 [|d11 [|d12 [|d13 [|d14 [|d15 [|]]]]]]]]]]]]]]]]];
    try done.
Qed.

(** ** The codec on a stream *)

Section CodecProperties.

Variable ParseIP : bytes → IP.

Lemma lookup_total_take_lt (l : bytes) (n i : nat) :
  i < n → take n l !!! i = l !!! i.
Proof. intros. by rewrite !list_lookup_total_alt, lookup_take_lt. Qed.

Lemma lookup_total_app_lt (l k : bytes) (i : nat) :
  i < length l → (l ++ k) !!! i = l !!! i.
Proof. intros. by rewrite !list_lookup_total_alt, lookup_app_l. Qed.

Lemma slice_take (l : bytes) (n lo hi : nat) :
  hi ≤ n → slice (take n l) lo hi = slice l lo hi.
Proof.
  intros. unfold slice. rewrite skipn_firstn_comm, take_take. f_equal. lia.
Qed.

Lemma slice_app_l (l k : bytes) (lo hi : nat) :
  hi ≤ length l → slice (l ++ k) lo hi = slice l lo hi.
Proof.
  intros. unfold slice. destruct (decide (lo ≤ length l)).
  - rewrite drop_app_le by done. rewrite take_app_le; [done|]. rewrite length_drop. lia.
  - replace (hi - lo) with 0 by lia. done.
Qed.

Lemma parseProxyV2_well_formed br H B :
  content br = H ++ B → well_formed_v2 H →
  ∃ br', parseProxyV2 br = Some (br', (Some (decodeV2 H), None)) ∧
    content br' = B ∧ br_size br' = br_size br.
Proof.
  intros Hcont (Hsig & Hver & Hlen). unfold parseProxyV2.
  destruct (readFull_enough br 16) as (br1 & -> & Hc1 & Hsz1).
  { rewrite Hcont, length_app. lia. }
  simpl. rewrite Hcont in *.
  rewrite (take_app_le H B 16) by lia.
  rewrite lookup_total_take_lt by lia. rewrite decide_False by (by intros []).
  rewrite slice_take by lia.
  set (L := BigEndian_Uint16 (slice H 14 16)) in *.
  assert (H = take 16 H ++ drop 16 H) as HH by (by rewrite take_drop).
  assert (length (drop 16 H) = Z.to_nat L) as Hblock by (rewrite length_drop; lia).
  assert (content br1 = drop 16 H ++ B) as Hc1'.
  { rewrite Hc1, drop_app_le by lia. done. }
  assert (∃ br', (if decide (0 < L)%Z then readFull br1 (Z.to_nat L)
                  else Some (br1, [], false)) = Some (br', drop 16 H, false) ∧
                 content br' = B ∧ br_size br' = br_size br) as (br2 & -> & Hc2 & Hsz2).
  { case_decide as HL.
    - destruct (readFull_enough br1 (Z.to_nat L)) as (br2 & -> & Hc2 & Hsz2).
      { rewrite Hc1', length_app. lia. }
      exists br2. rewrite Hc1', <-Hblock, take_app_length, drop_app_length in *.
      split_and!; [done|done|congruence].
    - exists br1. destruct (drop 16 H) eqn:Hd; [|simpl in Hblock; lia].
      split_and!; [done|by rewrite Hc1'|done]. }
  simpl. exists br2. split; [|done]. do 3 f_equal.
  unfold decodeV2. fold L. rewrite take_drop.
  rewrite lookup_total_take_lt by lia. done.
Qed.

(** [detectProxyProtocol] in terms of the stream: peeking consumes
    nothing, and the choice of parser depends on the first bytes only. *)
Lemma detect_stream br :
  16 ≤ br_size br →
  ∃ br1, content br1 = content br ∧ br_size br1 = br_size br ∧
    detectProxyProtocol ParseIP br =
      if decide (16 ≤ length (content br) ∧ take 12 (content br) = proxyV2Sig)
      then parseProxyV2 br1
      else if decide (6 ≤ length (content br) ∧ take 6 (content br) = proxyV1Prefix)
      then parseProxyV1 ParseIP br1
      else Some (br1, (None, None)).
Proof.
  intros Hsz. unfold detectProxyProtocol.
  destruct (Peek_spec br 16 Hsz) as (br1 & -> & Hc1 & Hsz1).
  case_bool_decide as Hshort.
  - destruct (Peek_spec br1 6) as (br2 & -> & Hc2 & Hsz2); [lia|].
    rewrite Hc1. exists br2. split_and!; [congruence|congruence|].
    case_bool_decide as Hshort'.
    + rewrite !decide_False by lia. done.
    + rewrite length_take, !take_take.
      replace (6 `min` length (content br)) with 6 by lia.
      change (12 `min` 6) with 6. change (6 `min` 6) with 6.
      repeat case_decide; try done; exfalso; destruct_and?; try lia;
        match goal with H : ¬ _ |- _ => apply H; split; [lia | done] end.
  - exists br1. split_and!; [done|done|].
    rewrite length_take, !take_take.
    replace (16 `min` length (content br)) with 16 by lia.
    change (12 `min` 16) with 12. change (6 `min` 16) with 6.
    repeat case_decide; try done; exfalso; destruct_and?; try lia;
      match goal with H : ¬ _ |- _ => apply H; split; [lia | done] end.
Qed.

(** [parseProxyV1] on a stream that starts with a line of clean tokens:
    it consumes the line and nothing more, and the outcome depends on
    the tokens only. *)
Lemma parseProxyV1_tokens br tokens B :
  0 < br_size br → tokens ≠ [] → Forall clean_token tokens →
  content br = v1_line tokens ++ B →
  ∃ br', parseProxyV1 ParseIP br = Some (br', v1_outcome ParseIP tokens) ∧
    content br' = B ∧ br_size br' = br_size br.
Proof.
  intros Hsz Hne Hclean Hcont. unfold parseProxyV1.
  destruct (ReadBytes_line br LF (join_sp tokens ++ [CR]) B) as (br' & -> & Hc & Hsz');
    [done| |..].
  { rewrite Hcont. unfold v1_line. by rewrite <-!app_assoc. }
  { rewrite elem_of_app, list_elem_of_singleton. intros [Hin|Hin]; [|done].
    by destruct (join_sp_clean _ _ Hclean Hin). }
  simpl. rewrite <-app_assoc. change ([CR] ++ [LF]) with [CR; LF].
  fold (v1_line tokens).
  rewrite decide_False.
  2:{ unfold v1_line. rewrite length_app. simpl. intros [?|Hcr]; [lia|]. apply Hcr.
      replace (length (join_sp tokens) + 2 - 2) with (length (join_sp tokens) + 0) by lia.
      by rewrite lookup_app_r, Nat.add_0_r, Nat.sub_diag by lia. }
  assert (TrimRight (v1_line tokens) [CR; LF] = join_sp tokens) as ->.
  { apply TrimRight_app_cutset; [repeat constructor|].
    intros c Hlast Hcut. apply last_Some_elem_of in Hlast.
    destruct (join_sp_clean _ _ Hclean Hlast) as [? ?].
    apply elem_of_cons in Hcut as [->|Hcut]; [done|].
    apply list_elem_of_singleton in Hcut as ->. done. }
  rewrite Split_join_sp; [|done|].
  2:{ eapply Forall_impl; [done|]. by intros t (? & _). }
  exists br'. split; [|done]. unfold v1_outcome.
  repeat case_decide; done.
Qed.

Lemma parseProxyV1_frame br :
  0 < br_size br →
  ∃ br' hdr err, parseProxyV1 ParseIP br = Some (br', (hdr, err)) ∧
    match hdr, err with
    | Some h, None => content br = RawBytes h ++ content br'
    | None, Some _ => True
    | _, _ => False
    end.
Proof.
  intros Hsz. unfold parseProxyV1.
  destruct (ReadBytes_spec br LF Hsz) as (br' & line & err & -> & Hc & _ & _).
  simpl. destruct err; [by eexists _, _, _|].
  repeat case_decide; by eexists _, _, _.
Qed.

Lemma parseProxyV2_frame br :
  ∃ br' hdr err, parseProxyV2 br = Some (br', (hdr, err)) ∧
    match hdr, err with
    | Some h, None => content br = RawBytes h ++ content br'
    | None, Some _ => True
    | _, _ => False
    end.
Proof.
  unfold parseProxyV2.
  destruct (readFull_spec br 16) as (br1 & fixed & err & -> & Hc1 & _ & _).
  simpl. destruct err; [by eexists _, _, _|].
  case_decide; [by eexists _, _, _|].
  set (L := BigEndian_Uint16 _).
  assert (∃ br2 block err, (if decide (0 < L)%Z then readFull br1 (Z.to_nat L)
                            else Some (br1, [], false)) = Some (br2, block, err) ∧
                           content br1 = block ++ content br2)
    as (br2 & block & err & -> & Hc2).
  { case_decide.
    - destruct (readFull_spec br1 (Z.to_nat L)) as (br2 & block & err & -> & Hc2 & _).
      by eexists _, _, _.
    - by eexists _, _, _. }
  simpl. destruct err; [by eexists _, _, _|].
  eexists _, _, _. split; [done|]. simpl.
  rewrite Hc1, Hc2, app_assoc. repeat case_decide; done.
Qed.

(** Whatever the stream, [detectProxyProtocol] returns, and unless it
    returns an error the stream is the raw bytes of the header it
    returns (nothing when it returns none) followed by what the reader
    still holds. *)
Lemma detect_frame br :
  16 ≤ br_size br →
  ∃ br' hdr err, detectProxyProtocol ParseIP br = Some (br', (hdr, err)) ∧
    (err = None → content br = from_option RawBytes [] hdr ++ content br').
Proof.
  intros Hsz. destruct (detect_stream br Hsz) as (br1 & Hc1 & Hsz1 & ->).
  repeat case_decide.
  - destruct (parseProxyV2_frame br1) as (br' & hdr & err & -> & Hf).
    exists br', hdr, err. split; [done|]. intros ->.
    destruct hdr; [|done]. by rewrite <-Hc1.
  - destruct (parseProxyV1_frame br1) as (br' & hdr & err & -> & Hf); [lia|].
    exists br', hdr, err. split; [done|]. intros ->.
    destruct hdr; [|done]. by rewrite <-Hc1.
  - by exists br1, None, None.
Qed.

Lemma take_prefix_eq (n : nat) (l p : bytes) :
  length p = n → (take n l = p ↔ p `prefix_of` l).
Proof.
  intros Hn. split.
  - intros <-. apply prefix_take.
  - intros [k ->]. by rewrite take_app_length'.
Qed.

Lemma RawBytes_decodeV2 raw : RawBytes (decodeV2 raw) = raw.
Proof. unfold decodeV2. repeat case_decide; done. Qed.

Lemma Version_decodeV2 raw : Version (decodeV2 raw) = 2%Z.
Proof. unfold decodeV2. repeat case_decide; done. Qed.

Lemma detect_v2 br H B :
  16 ≤ br_size br → well_formed_v2 H → content br = H ++ B →
  ∃ br', detectProxyProtocol ParseIP br = Some (br', (Some (decodeV2 H), None)) ∧
    content br' = B.
Proof.
  intros Hsz Hwf Hcont.
  destruct (detect_stream br Hsz) as (br1 & Hc1 & Hsz1 & ->).
  pose proof Hwf as (Hsig & _ & Hlen).
  rewrite decide_True.
  - destruct (parseProxyV2_well_formed br1 H B) as (br' & -> & Hc & _); [congruence|done|].
    eauto.
  - rewrite Hcont, length_app, take_app_le by lia. split; [lia|done].
Qed.

Lemma v1_line_prefix tokens :
  (∃ rest, tokens = bs "PROXY" :: rest ∧ rest ≠ []) →
  proxyV1Prefix `prefix_of` v1_line tokens.
Proof.
  intros (rest & -> & Hne). destruct rest as [|t ts]; [done|].
  unfold v1_line. change (join_sp (bs "PROXY" :: t :: ts))
    with (proxyV1Prefix ++ join_sp (t :: ts)).
  rewrite <-app_assoc. by eexists.
Qed.

Lemma detect_v1 br tokens B :
  16 ≤ br_size br → Forall clean_token tokens →
  (∃ rest, tokens = bs "PROXY" :: rest ∧ rest ≠ []) →
  content br = v1_line tokens ++ B →
  ∃ br', detectProxyProtocol ParseIP br = Some (br', v1_outcome ParseIP tokens) ∧
    content br' = B.
Proof.
  intros Hsz Hclean Hshape Hcont.
  destruct (detect_stream br Hsz) as (br1 & Hc1 & Hsz1 & ->).
  destruct (v1_line_prefix tokens Hshape) as [k Hk].
  rewrite Hcont, Hk, <-app_assoc.
  rewrite decide_False.
  2:{ intros [_ Hsig]. discriminate Hsig. }
  rewrite decide_True.
  2:{ split; [rewrite length_app; simpl; lia|done]. }
  destruct (parseProxyV1_tokens br1 tokens B) as (br' & -> & Hc & _);
    [lia| |done|congruence|eauto].
  by destruct Hshape as (rest & -> & _).
Qed.

(** C5. On a stream that begins neither with ["PROXY "] nor with the v2
    signature (a stream shorter than 6 bytes included),
    [detectProxyProtocol] reports no header and no error, and the reader
    still yields the whole stream. *)
Theorem detect_no_header_consumes_nothing (br : Reader) :
  16 ≤ br_size br →
  ¬ proxyV1Prefix `prefix_of` content br →
  ¬ proxyV2Sig `prefix_of` content br →
  ∃ br', detectProxyProtocol ParseIP br = Some (br', (None, None)) ∧
    content br' = content br.
Proof.
  intros Hsz Hv1 Hv2.
  destruct (detect_stream br Hsz) as (br1 & Hc1 & _ & ->).
  rewrite decide_False.
  2:{ intros [_ Hsig]. apply Hv2. by apply (take_prefix_eq 12). }
  rewrite decide_False.
  2:{ intros [_ Hpre]. apply Hv1. by apply (take_prefix_eq 6). }
  eauto.
Qed.

(** C4. On a stream made of a well-formed v1 or v2 header [H] followed
    by any bytes [B], [detectProxyProtocol] returns a header whose
    [RawBytes] are [H], and the reader is left at the first byte of [B]. *)
Theorem detect_returns_raw_header (br : Reader) (H B : bytes) :
  16 ≤ br_size br →
  well_formed_v1 H ∨ well_formed_v2 H →
  content br = H ++ B →
  ∃ br' h, detectProxyProtocol ParseIP br = Some (br', (Some h, None)) ∧
    RawBytes h = H ∧ content br' = B.
Proof.
  intros Hsz [Hv1|Hv2] Hcont.
  - destruct Hv1 as (tokens & -> & Hclean & Hshape).
    destruct (detect_v1 br tokens B) as (br' & -> & Hc); try done.
    { destruct Hshape as [->|(Hlen & H0 & _)]; [by eexists|].
      destruct tokens as [|t0 [|t1 ts]]; try done. simpl in H0.
      injection H0 as ->. by eexists. }
    unfold v1_outcome.
    destruct Hshape as [->|(Hlen & _)].
    + rewrite decide_True by done. by eexists _, _.
    + rewrite decide_False by lia. rewrite decide_False by lia. by eexists _, _.
  - destruct (detect_v2 br H B) as (br' & -> & Hc); try done.
    eexists _, _. split; [done|]. by rewrite RawBytes_decodeV2.
Qed.

(** C6. Detecting on the output of [buildProxyV2Header] for a valid TCP
    address pair yields a version-2 header with the ports of the pair
    and with its addresses: in 4-byte form when both are IPv4, else both
    in 16-byte form. *)
Theorem detect_build_roundtrip (br : Reader) (src dst : Addr) :
  16 ≤ br_size br →
  valid_tcp_addr src → valid_tcp_addr dst →
  content br = buildProxyV2Header src dst →
  ∃ br' h, detectProxyProtocol ParseIP br = Some (br', (Some h, None)) ∧
    content br' = [] ∧
    Version h = 2%Z ∧
    SrcPort h = addr_port src ∧ DstPort h = addr_port dst ∧
    SrcAddr h = (if decide (both_v4 src dst) then To4 (addr_ip src) else To16 (addr_ip src)) ∧
    DstAddr h = (if decide (both_v4 src dst) then To4 (addr_ip dst) else To16 (addr_ip dst)) ∧
    IP_Equal (SrcAddr h) (addr_ip src) = true ∧
    IP_Equal (DstAddr h) (addr_ip dst) = true ∧
    RawBytes h = buildProxyV2Header src dst.
Proof.
  intros Hsz Hsrc Hdst Hcont.
  destruct src as [sip sp sz|]; [|done]. destruct dst as [dip dp dz|]; [|done].
  destruct Hsrc as [Hsl Hsp], Hdst as [Hdl Hdp]. cbn [addr_ip addr_port].
  assert (uint16 sp = sp) as Hsp' by (apply Z.mod_small; lia).
  assert (uint16 dp = dp) as Hdp' by (apply Z.mod_small; lia).
  pose proof (BigEndian_Uint16_PutUint16 sp ltac:(lia)) as Hrs.
  pose proof (BigEndian_Uint16_PutUint16 dp ltac:(lia)) as Hrd.
  set (H := buildProxyV2Header _ _) in *.
  case_decide as Hv4.
  - destruct Hv4 as [Hs4 Hd4]. cbn [addr_ip] in Hs4, Hd4.
    pose proof (build_v4 sip sp sz dip dp dz Hs4 Hd4) as HH. fold H in HH.
    rewrite Hsp', Hdp' in HH.
    pose proof (IP_Equal_To4 _ Hs4) as Hes. pose proof (IP_Equal_To4 _ Hd4) as Hed.
    pose proof (To4_length _ Hs4) as Hls. pose proof (To4_length _ Hd4) as Hld.
    destruct (To4 sip) as [|s0 [|s1 [|s2 [|s3 [|]]]]]; try done.
    destruct (To4 dip) as [|d0 [|d1 [|d2 [|d3 [|]]]]]; try done.
    destruct (detect_v2 br H []) as (br' & -> & Hc); [done| |by rewrite app_nil_r|].
    { rewrite HH. done. }
    eexists _, _. split; [done|]. rewrite RawBytes_decodeV2, Version_decodeV2.
    split_and!; try done; rewrite HH; try done.
  - unfold both_v4 in Hv4. cbn [addr_ip] in Hv4.
    pose proof (build_v6 sip sp sz dip dp dz Hv4 Hsl Hdl) as HH. fold H in HH.
    rewrite Hsp', Hdp' in HH.
    pose proof (IP_Equal_To16 _ Hsl) as Hes. pose proof (IP_Equal_To16 _ Hdl) as Hed.
    pose proof (To16_length _ Hsl) as Hls. pose proof (To16_length _ Hdl) as Hld.
    destruct (To16 sip) as
      [|s0 [|s1 [|s2 [|s3 [|s4 [|s5 [|s6 [|s7 [|s8 [|s9 [|s10 [|s11 [|s12 [|s13 [|s14 [|s15 [|]]]]]]]]]]]]]]]]];
      try done.
    destruct (To16 dip) as
      [|d0 [|d1 [|d2 [|d3 [|d4 [|d5 [|d6 [|d7 [|d8 [|d9 [|d10 [|d11 [|d12 [|d13 [|d14 [|d15 [|]]]]]]]]]]]]]]]]];
      try done.
    destruct (detect_v2 br H []) as (br' & -> & Hc); [done| |by rewrite app_nil_r|].
    { rewrite HH. done. }
    eexists _, _. split; [done|]. rewrite RawBytes_decodeV2, Version_decodeV2.
    split_and!; try done; rewrite HH; try done.
Qed.

(** C7 (amended). A CRLF-terminated line of space-separated tokens is
    rejected exactly when its token list is neither a 2-token list whose
    second token is [UNKNOWN] nor a 6-token list; a 6-token line is
    accepted whatever its first two tokens are.  Either way the line and
    nothing else is consumed. *)
Theorem v1_token_count_decides (br : Reader) (tokens : list bytes) (B : bytes) :
  0 < br_size br → tokens ≠ [] → Forall clean_token tokens →
  content br = v1_line tokens ++ B →
  ∃ br' hdr err, parseProxyV1 ParseIP br = Some (br', (hdr, err)) ∧
    content br' = B ∧
    match hdr, err with
    | Some h, None =>
        ((length tokens = 2 ∧ tokens !! 1 = Some (bs "UNKNOWN")) ∨ length tokens = 6) ∧
        Version h = 1%Z ∧ RawBytes h = v1_line tokens
    | None, Some e =>
        ¬ (length tokens = 2 ∧ tokens !! 1 = Some (bs "UNKNOWN")) ∧
        length tokens ≠ 6 ∧ e = ErrV1Fields (length tokens)
    | _, _ => False
    end.
Proof.
  intros Hsz Hne Hclean Hcont.
  destruct (parseProxyV1_tokens br tokens B) as (br' & -> & Hc & _); try done.
  unfold v1_outcome. repeat case_decide; eexists _, _, _; (split; [done|]);
    split; try done; split_and!; try done; auto; lia.
Qed.

(** C9 (amended). A 6-token line is accepted whatever its port tokens
    are.  A port token that is a decimal integer, an optional sign and
    digits, yields its value modulo 2^16 when the value fits a signed
    64-bit integer and 0 when it does not; a port token without any
    digit yields 0. *)
Theorem v1_port_token_wraps (br : Reader) (t0 t1 t2 t3 p4 p5 B : bytes) :
  0 < br_size br →
  Forall clean_token [t0; t1; t2; t3; p4; p5] →
  content br = v1_line [t0; t1; t2; t3; p4; p5] ++ B →
  ∃ br' h, parseProxyV1 ParseIP br = Some (br', (Some h, None)) ∧
    (∀ sg ds, p4 = signed sg ds → ds ≠ [] → all_digits ds →
       SrcPort h = wrapped_port (signed_value sg ds)) ∧
    (∀ sg ds, p5 = signed sg ds → ds ≠ [] → all_digits ds →
       DstPort h = wrapped_port (signed_value sg ds)) ∧
    (no_digit p4 → SrcPort h = 0%Z) ∧
    (no_digit p5 → DstPort h = 0%Z).
Proof.
  intros Hsz Hclean Hcont.
  destruct (parseProxyV1_tokens br [t0; t1; t2; t3; p4; p5] B)
    as (br' & -> & _); try done.
  unfold v1_outcome. rewrite decide_False by (simpl; lia).
  rewrite decide_False by (simpl; lia).
  eexists _, _. split; [done|]. cbn [SrcPort DstPort].
  change ([t0; t1; t2; t3; p4; p5] !!! 4) with p4.
  change ([t0; t1; t2; t3; p4; p5] !!! 5) with p5.
  split_and!.
  - intros sg ds -> ? ?. by apply port_of_signed.
  - intros sg ds -> ? ?. by apply port_of_signed.
  - intros Hno. by rewrite Sscanf_d_no_digit.
  - intros Hno. by rewrite Sscanf_d_no_digit.
Qed.

End CodecProperties.

(** C7, counterexample: a 6-token line whose second token is [UDP4] is
    accepted. *)
Lemma v1_udp4_line_accepted :
  let tokens := [bs "PROXY"; bs "UDP4"; bs "1.2.3.4"; bs "5.6.7.8"; bs "1"; bs "2"] in
  tokens !! 1 ≠ Some (bs "TCP4") ∧ tokens !! 1 ≠ Some (bs "TCP6") ∧
  tokens ≠ [bs "PROXY"; bs "UNKNOWN"] ∧
  ∀ ParseIP, ∃ br',
    parseProxyV1 ParseIP (NewReaderSize [v1_line tokens] peekBufferSize) =
      Some (br', (Some (mkProxyHeader 1 (ParseIP (bs "1.2.3.4")) (ParseIP (bs "5.6.7.8"))
                          1 2 (v1_line tokens)), None)).
Proof. split_and!; try done. intros ParseIP. eexists. vm_compute. reflexivity. Qed.

(** C9, counterexample: the port token [65536] is a decimal integer
    outside [0, 65535] and has a leading integer, yet yields port 0; the
    port token [9223372036854775809] yields 0 and not its value modulo
    2^16, which is 1. *)
Lemma v1_port_zero_from_integer_tokens :
  let tokens := [bs "PROXY"; bs "TCP4"; bs "1.2.3.4"; bs "5.6.7.8";
                 bs "65536"; bs "9223372036854775809"] in
  Sscanf_d (bs "65536") = Some 65536%Z ∧
  (9223372036854775809 mod 2 ^ 16 = 1)%Z ∧
  ∀ ParseIP, ∃ br',
    parseProxyV1 ParseIP (NewReaderSize [v1_line tokens] peekBufferSize) =
      Some (br', (Some (mkProxyHeader 1 (ParseIP (bs "1.2.3.4")) (ParseIP (bs "5.6.7.8"))
                          0 0 (v1_line tokens)), None)).
Proof. split_and!; try done. intros ParseIP. eexists. vm_compute. reflexivity. Qed.

(** ** The forwarder *)

Lemma conn_Write_spec c p c' err :
  conn_Write c p = (c', err) →
  (∃ k, written c' = written c ++ take k p) ∧
  (err = false → written c' = written c ++ p) ∧
  (room c = None → err = false ∧ room c' = None).
Proof.
  unfold conn_Write. destruct (room c) as [k|] eqn:Hroom.
  - case_decide; intros [= <- <-]; simpl; split_and!; try done.
    + exists (length p). by rewrite take_ge.
    + by exists k.
  - intros [= <- <-]. simpl. split_and!; try done.
    exists (length p). by rewrite take_ge.
Qed.

Lemma write_all_spec dst ps dst' err :
  write_all dst ps = (dst', err) →
  (∃ k, written dst' = written dst ++ take k (concat ps)) ∧
  (err = false → written dst' = written dst ++ concat ps) ∧
  (room dst = None → err = false).
Proof.
  revert dst. induction ps as [|p ps IH]; intros dst; simpl.
  - intros [= <- <-]. split_and!; try done.
    + exists 0. by rewrite app_nil_r.
    + intros _. by rewrite app_nil_r.
  - destruct (conn_Write dst p) as [dst1 err1] eqn:Hw.
    destruct (conn_Write_spec _ _ _ _ Hw) as ((k & Hk) & Hok & Hroom).
    destruct err1.
    + intros [= <- <-]. split_and!; [|done|].
      * exists (k `min` length p). rewrite Hk. f_equal.
        rewrite take_app_le by lia. by rewrite <-take_take, firstn_all.
      * intros Hn. by destruct (Hroom Hn).
    + intros Hrest. destruct (IH _ Hrest) as ((k' & Hk') & Hok' & Hroom').
      rewrite (Hok eq_refl) in *. split_and!.
      * exists (length p + k'). rewrite Hk', <-app_assoc. f_equal.
        by rewrite take_app_add.
      * intros ->. by rewrite Hok', <-app_assoc.
      * intros Hn. apply Hroom'. by destruct (Hroom Hn).
Qed.

Section ForwarderTheorems.

Variable ParseIP : bytes → IP.
Variable DialTimeout : bytes → option BackendConn.

(** [handleConnection] always comes to an end. *)
Lemma handleConnection_returns clientConn backendAddr :
  is_Some (handleConnection ParseIP DialTimeout clientConn backendAddr).
Proof.
  unfold handleConnection.
  destruct (detect_frame ParseIP (NewReaderSize (incoming clientConn) peekBufferSize))
    as (br' & hdr & err & -> & _); [simpl; lia|].
  simpl. destruct err; [done|]. destruct (DialTimeout backendAddr); [|done].
  destruct (match hdr with Some _ => _ | None => _ end) as [bk []]; [done|].
  by destruct (io_Copy bk br').
Qed.

End ForwarderTheorems.

Section FanOutProofs.

Variable net : bytes → upstream_reply.

Lemma probe_result_lookup servers query i :
  ((λ server, querySessionServer net server query) <$> servers) !! i
    = probe_result net servers query i.
Proof. unfold probe_result. by rewrite list_lookup_fmap. Qed.

(** A result that does not win leaves the dispatcher in its loop. *)
Lemma dispatch_loser results w started remaining taken last i result sched :
  results !! i = Some result → ¬ winner result →
  dispatch results w started (S remaining) taken last (Arrive i :: sched)
    = dispatch results w started remaining (S taken) result sched.
Proof.
  intros Hres Hlose. simpl. rewrite Hres. simpl.
  case_decide as Herr; [done|]. rewrite decide_False; [done|].
  intros [Hst Hbody]. apply Hlose. split; [|done].
  destruct (Err result); [|done]. by destruct Herr.
Qed.

Lemma dispatch_winner results w started remaining taken last i result sched :
  results !! i = Some result → winner result →
  dispatch results w started (S remaining) taken last (Arrive i :: sched)
    = Some (mkRun (Write (Body result)
                     (WriteHeader StatusOK
                        (Header_Set (bs "Content-Type") (bs "application/json") w)))
              started (S taken) last true).
Proof.
  intros Hres (Herr & Hst & Hbody). simpl. rewrite Hres. simpl.
  rewrite decide_False by (by rewrite Herr; intros []).
  by rewrite decide_True.
Qed.

Lemma dispatch_losers servers query w started pre :
  ∀ remaining taken last rest,
  Forall (loses net servers query) pre →
  ∃ last',
    dispatch ((λ server, querySessionServer net server query) <$> servers)
      w started (length pre + remaining) taken last ((Arrive <$> pre) ++ rest)
    = dispatch ((λ server, querySessionServer net server query) <$> servers)
        w started remaining (length pre + taken) last' rest.
Proof.
  induction pre as [|j pre IH]; intros remaining taken last rest Hlose.
  - by exists last.
  - apply Forall_cons in Hlose as [(result & Hres & Hlose) Hpre].
    cbn [length fmap list_fmap app Nat.add].
    rewrite (dispatch_loser _ _ _ _ _ _ _ result); [|by rewrite probe_result_lookup|done].
    destruct (IH remaining (S taken) result rest Hpre) as [last' ->].
    exists last'. by rewrite Nat.add_succ_r.
Qed.

(** Distinct probes of [n] servers are at most [n]. *)
Lemma distinct_probes_bounded (n : nat) (js : list nat) :
  NoDup js → Forall (λ j, j < n) js → length js ≤ n.
Proof.
  intros Hnd Hlt. pose proof (submseteq_length js (seq 0 n)) as Hle.
  rewrite length_seq in Hle. apply Hle, NoDup_submseteq; [done|].
  intros j Hj. rewrite Forall_forall in Hlt. apply elem_of_seq. specialize (Hlt j Hj). lia.
Qed.

Lemma written_response_200 w body :
  Code w = None →
  let w' := Write body (WriteHeader StatusOK
              (Header_Set (bs "Content-Type") (bs "application/json") w)) in
  Code w' = Some StatusOK ∧
  Header w' !! bs "Content-Type" = Some (bs "application/json") ∧
  Sent w' = Sent w ++ body.
Proof.
  intros Hc. unfold Write, WriteHeader, Header_Set. simpl. rewrite Hc. simpl.
  split_and!; try done. by rewrite lookup_insert_eq.
Qed.

(** A probe that reports belongs to a configured server. *)
Lemma probe_result_range servers query j result :
  probe_result net servers query j = Some result → j < length servers.
Proof.
  unfold probe_result. intros (server & Hs & _)%fmap_Some.
  by apply lookup_lt_Some in Hs.
Qed.

(** What a winning probe reports is the upstream's body, up to the 64 KiB
    that are read of it. *)
Lemma winner_of_upstream server query body :
  net (probe_url server query) = Response StatusOK body → body ≠ [] →
  winner (querySessionServer net server query) ∧
  Body (querySessionServer net server query) = take (64 * 1024) body.
Proof.
  intros Hnet Hbody. unfold querySessionServer, winner. rewrite Hnet.
  cbn [Err StatusCode Body]. split_and!; try reflexivity.
  rewrite length_take. destruct body as [|c body]; [congruence|].
  cbn [length]. lia.
Qed.

(** C1. If the first result to win is received before [ctx.Done()], each
    probe reporting once, the response has status 200,
    [Content-Type: application/json] and that result's body, and the
    dispatcher takes nothing more from the channel: it has consumed the
    results up to the winner, whatever comes after. *)
Theorem first_winner_is_served (w : ResponseWriter) (r : Request) (servers : list bytes)
    (pre : list nat) (i : nat) (post : list event) (result : authResult) :
  RawQuery r ≠ [] → Code w = None → Sent w = [] →
  NoDup (pre ++ [i]) →
  Forall (loses net servers (RawQuery r)) pre →
  probe_result net servers (RawQuery r) i = Some result → winner result →
  ∃ run, handleHasJoined net w r servers ((Arrive <$> pre) ++ Arrive i :: post) = Some run ∧
    Code (run_w run) = Some StatusOK ∧
    Header (run_w run) !! bs "Content-Type" = Some (bs "application/json") ∧
    Sent (run_w run) = Body result ∧
    run_taken run = S (length pre) ∧
    run_cancelled run = true.
Proof.
  intros Hq Hw Hsent Hnd Hlose Hres Hwin. unfold handleHasJoined.
  rewrite decide_False by done.
  assert (Forall (λ j, j < length servers) (pre ++ [i])) as Hrange.
  { apply Forall_app. split.
    - eapply Forall_impl; [done|]. intros j (res & Hj & _).
      by eapply probe_result_range.
    - repeat constructor. by eapply probe_result_range. }
  pose proof (distinct_probes_bounded _ _ Hnd Hrange) as Hlen.
  rewrite length_app in Hlen. simpl in Hlen.
  replace (length servers) with (length pre + S (length servers - length pre - 1)) by lia.
  destruct (dispatch_losers servers (RawQuery r) w
              ((λ server, probe_url server (RawQuery r)) <$> servers) pre
              (S (length servers - length pre - 1)) 0 (mkAuthResult 0 [] [] None)
              (Arrive i :: post) Hlose) as [last' ->].
  rewrite (dispatch_winner _ _ _ _ _ _ _ result); [|by rewrite probe_result_lookup|done].
  eexists. split; [done|]. cbn [run_w run_taken run_cancelled].
  destruct (written_response_200 w (Body result) Hw) as (? & ? & Hs).
  rewrite Hsent in Hs. split_and!; try done.
Qed.

Lemma dispatch_no_winner servers query w started sched :
  ∀ remaining taken last,
  Forall (loses net servers query) (arrivals sched) →
  Done ∈ sched ∨ remaining ≤ length (arrivals sched) →
  ∃ taken' last',
    dispatch ((λ server, querySessionServer net server query) <$> servers)
      w started remaining taken last sched
    = Some (mkRun (WriteHeader StatusNoContent w) started taken' last' false).
Proof.
  induction sched as [|e sched IH]; intros remaining taken last Hlose Hcomplete.
  - destruct Hcomplete as [Hdone|Hlen]; [by apply not_elem_of_nil in Hdone|].
    simpl in Hlen. assert (remaining = 0) as -> by lia. by eexists _, _.
  - destruct remaining as [|remaining]; [by eexists _, _|].
    destruct e as [j|]; [|by eexists _, _].
    cbn [arrivals] in Hlose, Hcomplete.
    apply Forall_cons in Hlose as [(result & Hres & Hl) Hlose].
    rewrite (dispatch_loser _ _ _ _ _ _ _ result); [|by rewrite probe_result_lookup|done].
    apply IH; [done|]. destruct Hcomplete as [Hdone|Hlen].
    + left. by apply elem_of_cons in Hdone as [|].
    + right. simpl in Hlen. lia.
Qed.

(** C2. If no winning result is received before [ctx.Done()], either
    because the deadline fires or because every probe has reported, the
    response is 204 No Content with nothing else written: the same
    response whatever the probes were and in whatever order they failed. *)
Theorem no_winner_gives_no_content (w : ResponseWriter) (r : Request)
    (servers : list bytes) (sched : list event) :
  RawQuery r ≠ [] → Code w = None →
  Forall (loses net servers (RawQuery r)) (arrivals sched) →
  Done ∈ sched ∨ length servers ≤ length (arrivals sched) →
  ∃ run, handleHasJoined net w r servers sched = Some run ∧
    run_w run = no_content w ∧ run_cancelled run = false.
Proof.
  intros Hq Hw Hlose Hcomplete. unfold handleHasJoined.
  rewrite decide_False by done.
  destruct (dispatch_no_winner servers (RawQuery r) w
              ((λ server, probe_url server (RawQuery r)) <$> servers) sched
              (length servers) 0 (mkAuthResult 0 [] [] None) Hlose Hcomplete)
    as (taken' & last' & ->).
  eexists. split; [done|]. simpl. split; [|done].
  unfold WriteHeader, no_content. by rewrite Hw.
Qed.

(** C10. With no upstream configured and a non-empty query the handler
    answers 204 at once: it starts no probe and takes nothing from the
    schedule, neither a result nor the deadline. *)
Theorem no_servers_gives_no_content (w : ResponseWriter) (r : Request)
    (sched : list event) :
  RawQuery r ≠ [] → Code w = None →
  ∃ run, handleHasJoined net w r [] sched = Some run ∧
    run_w run = no_content w ∧
    run_started run = [] ∧ run_taken run = 0 ∧ run_cancelled run = false.
Proof.
  intros Hq Hw. unfold handleHasJoined. rewrite decide_False by done.
  eexists. split; [done|]. simpl. split_and!; try done.
  unfold WriteHeader, no_content. by rewrite Hw.
Qed.

End FanOutProofs.

(** ** Routing *)





Section RoutingTheorems.

Variable net : bytes → upstream_reply.


End RoutingTheorems.


(** * Further properties *)

(** ** [readFull] *)

(** On a stream that ends too early [readFull] hands back what there
    was, with the error. *)
Lemma readFull_short br len :
  length (content br) < len →
  ∃ br', readFull br len = Some (br', content br, true) ∧ content br' = [].
Proof.
  intros Hlen.
  destruct (readFull_spec br len) as (br' & got & err & -> & Hcont & Hsz & Herr).
  destruct err.
  - destruct Herr as [_ Hnil]. exists br'. rewrite Hcont, Hnil, app_nil_r. done.
  - rewrite Hcont, length_app in Hlen. lia.
Qed.

(** X1. Whatever the buffering of the reader and however the connection
    cuts the stream into reads, [readFull] returns the first [len] bytes
    of the stream and leaves the rest in the reader; it reports an error
    exactly when the stream holds fewer than [len] bytes, and then
    returns all of them. *)
Theorem readFull_reads_exactly (br : Reader) (len : nat) :
  ∃ br', readFull br len
           = Some (br', take len (content br), bool_decide (length (content br) < len)) ∧
    content br' = drop len (content br).
Proof.
  destruct (decide (length (content br) < len)) as [Hlt|Hge].
  - destruct (readFull_short br len Hlt) as (br' & -> & Hnil).
    exists br'. rewrite bool_decide_eq_true_2 by done.
    rewrite take_ge, drop_ge by lia. done.
  - destruct (readFull_enough br len) as (br' & -> & Hc & _); [lia|].
    exists br'. by rewrite bool_decide_eq_false_2.
Qed.

(** ** The codec on streams that are no well-formed header *)

Section CodecEdges.

Variable ParseIP : bytes → IP.

(** X2. On every stream [detectProxyProtocol] returns.  It never returns
    a header together with an error, and when it returns no error the
    stream is the raw bytes of the header it returns (nothing when it
    returns none) followed by what the reader still holds: no byte of
    the payload is lost or repeated. *)
Theorem detect_keeps_the_stream (br : Reader) :
  16 ≤ br_size br →
  ∃ br' hdr err, detectProxyProtocol ParseIP br = Some (br', (hdr, err)) ∧
    (err = None → content br = from_option RawBytes [] hdr ++ content br') ∧
    (err ≠ None → hdr = None).
Proof.
  intros Hsz. destruct (detect_stream ParseIP br Hsz) as (br1 & Hc1 & Hsz1 & ->).
  repeat case_decide.
  - destruct (parseProxyV2_frame br1) as (br' & hdr & err & -> & Hf).
    exists br', hdr, err. split; [done|]. split.
    + intros ->. destruct hdr; [|done]. by rewrite <-Hc1.
    + intros He. destruct hdr, err; done.
  - destruct (parseProxyV1_frame ParseIP br1) as (br' & hdr & err & -> & Hf); [lia|].
    exists br', hdr, err. split; [done|]. split.
    + intros ->. destruct hdr; [|done]. by rewrite <-Hc1.
    + intros He. destruct hdr, err; done.
  - by exists br1, None, None.
Qed.

(** X3. A stream that begins with the v2 signature and ends before its
    sixteenth byte is taken for a stream without header: no header, no
    error, nothing consumed. *)
Theorem detect_short_v2_signature (br : Reader) :
  16 ≤ br_size br →
  proxyV2Sig `prefix_of` content br → length (content br) < 16 →
  ∃ br', detectProxyProtocol ParseIP br = Some (br', (None, None)) ∧
    content br' = content br.
Proof.
  intros Hsz [k Hk] Hlen.
  destruct (detect_stream ParseIP br Hsz) as (br1 & Hc1 & _ & ->).
  rewrite decide_False by lia.
  rewrite decide_False; [eauto|].
  intros [_ Hpre]. rewrite Hk in Hpre. discriminate Hpre.
Qed.

(** A stream that begins with sixteen bytes carrying the signature goes
    to [parseProxyV2]. *)
Lemma detect_v2_fixed br F B :
  16 ≤ br_size br → content br = F ++ B → length F = 16 → take 12 F = proxyV2Sig →
  ∃ br1, content br1 = F ++ B ∧ br_size br1 = br_size br ∧
    detectProxyProtocol ParseIP br = parseProxyV2 br1.
Proof.
  intros Hsz Hcont HF Hsig.
  destruct (detect_stream ParseIP br Hsz) as (br1 & Hc1 & Hsz1 & ->).
  exists br1. split_and!; [congruence|done|].
  rewrite decide_True; [done|].
  rewrite Hcont, length_app, take_app_le by lia. split; [lia|done].
Qed.

(** X4. After the signature, a version nibble other than 2 is an error
    that names the version found; the sixteen fixed bytes are consumed. *)
Theorem detect_v2_rejects_other_versions (br : Reader) (F B : bytes) :
  16 ≤ br_size br → content br = F ++ B →
  length F = 16 → take 12 F = proxyV2Sig →
  Z.shiftr (byte_to_Z (F !!! 12%nat)) 4 ≠ 2%Z →
  ∃ br', detectProxyProtocol ParseIP br
           = Some (br', (None, Some (ErrV2Version (Z.shiftr (byte_to_Z (F !!! 12%nat)) 4)))) ∧
    content br' = B.
Proof.
  intros Hsz Hcont HF Hsig Hver.
  destruct (detect_v2_fixed br F B) as (br1 & Hc1 & Hsz1 & ->); try done.
  unfold parseProxyV2.
  destruct (readFull_enough br1 16) as (br2 & -> & Hc2 & _).
  { rewrite Hc1, length_app. lia. }
  rewrite Hc1, take_app_length', drop_app_length' in * by done.
  simpl. rewrite decide_True by done. eauto.
Qed.

(** X5. A v2 header whose address block is cut short, the stream ending
    before the announced number of bytes, is an error; nothing of the
    stream is left. *)
Theorem detect_v2_truncated_block (br : Reader) (F P : bytes) :
  16 ≤ br_size br → content br = F ++ P →
  length F = 16 → take 12 F = proxyV2Sig →
  Z.shiftr (byte_to_Z (F !!! 12%nat)) 4 = 2%Z →
  length P < Z.to_nat (BigEndian_Uint16 (slice F 14 16)) →
  ∃ br', detectProxyProtocol ParseIP br = Some (br', (None, Some ErrV2ReadBlock)) ∧
    content br' = [].
Proof.
  intros Hsz Hcont HF Hsig Hver Hshort.
  destruct (detect_v2_fixed br F P) as (br1 & Hc1 & Hsz1 & ->); try done.
  unfold parseProxyV2.
  destruct (readFull_enough br1 16) as (br2 & -> & Hc2 & _).
  { rewrite Hc1, length_app. lia. }
  rewrite Hc1, take_app_length', drop_app_length' in * by done.
  simpl. rewrite decide_False by (by intros []).
  rewrite decide_True by lia.
  destruct (readFull_short br2 (Z.to_nat (BigEndian_Uint16 (slice F 14 16))))
    as (br3 & -> & Hnil); [by rewrite Hc2|].
  simpl. eauto.
Qed.

(** X6. A stream that begins with ["PROXY "] and ends without a line
    feed is an error of reading the header line. *)
Theorem detect_v1_unterminated_line (br : Reader) :
  16 ≤ br_size br →
  proxyV1Prefix `prefix_of` content br → LF ∉ content br →
  ∃ br', detectProxyProtocol ParseIP br = Some (br', (None, Some ErrV1ReadLine)) ∧
    content br' = [].
Proof.
  intros Hsz [k Hk] Hlf.
  destruct (detect_stream ParseIP br Hsz) as (br1 & Hc1 & Hsz1 & ->).
  rewrite decide_False.
  2:{ intros [_ Hsig]. rewrite Hk in Hsig. discriminate Hsig. }
  rewrite decide_True.
  2:{ rewrite Hk, length_app. split; [simpl; lia|done]. }
  unfold parseProxyV1.
  destruct (ReadBytes_spec br1 LF) as (br' & line & err & -> & Hc & _ & Herr); [lia|].
  simpl. destruct err.
  - destruct Herr as [_ Hnil]. eauto.
  - destruct Herr as (l & -> & _). exfalso. apply Hlf.
    rewrite <-Hc1, Hc, !elem_of_app, list_elem_of_singleton. auto.
Qed.

(** X7. A v1 line that ends in a line feed without a carriage return
    before it is rejected, whatever its fields; the line is consumed. *)
Theorem detect_v1_requires_crlf (br : Reader) (l B : bytes) :
  16 ≤ br_size br →
  content br = l ++ LF :: B → LF ∉ l →
  proxyV1Prefix `prefix_of` l → last l ≠ Some CR →
  ∃ br', detectProxyProtocol ParseIP br = Some (br', (None, Some ErrV1NoCRLF)) ∧
    content br' = B.
Proof.
  intros Hsz Hcont Hlf [k Hk] Hlast.
  destruct (detect_stream ParseIP br Hsz) as (br1 & Hc1 & Hsz1 & ->).
  rewrite Hcont, Hk, <-!app_assoc.
  rewrite decide_False.
  2:{ intros [_ Hsig]. discriminate Hsig. }
  rewrite decide_True.
  2:{ rewrite length_app. split; [simpl; lia|done]. }
  unfold parseProxyV1.
  destruct (ReadBytes_line br1 LF l B) as (br' & -> & Hc & _); [lia|congruence|done|].
  simpl. rewrite decide_True; [eauto|].
  right. rewrite length_app. simpl.
  replace (length l + 1 - 2) with (length l - 1) by (rewrite Hk, length_app; simpl; lia).
  rewrite lookup_app_l by (rewrite Hk, length_app; simpl; lia).
  rewrite last_lookup in Hlast. by rewrite <-Nat.sub_1_r in Hlast.
Qed.

(** X8. The addresses of a v1 header are what [net.ParseIP] makes of the
    third and the fourth field, nil included; the protocol field is not
    consulted, so nothing ties the addresses to [TCP4] or [TCP6]. *)
Theorem detect_v1_addresses (br : Reader) (proto src dst srcPort dstPort B : bytes) :
  16 ≤ br_size br →
  Forall clean_token [proto; src; dst; srcPort; dstPort] →
  content br = v1_line [bs "PROXY"; proto; src; dst; srcPort; dstPort] ++ B →
  ∃ br' h, detectProxyProtocol ParseIP br = Some (br', (Some h, None)) ∧
    Version h = 1%Z ∧ SrcAddr h = ParseIP src ∧ DstAddr h = ParseIP dst ∧
    content br' = B.
Proof.
  intros Hsz Hclean Hcont.
  destruct (detect_v1 ParseIP br [bs "PROXY"; proto; src; dst; srcPort; dstPort] B)
    as (br' & -> & Hc); [done| |by eexists|done|].
  { constructor; [by_evaluation|done]. }
  unfold v1_outcome. rewrite decide_False by (simpl; lia).
  rewrite decide_False by (simpl; lia).
  by eexists _, _.
Qed.

End CodecEdges.

(** ** Decoding a v2 header *)

Lemma v2_frame_parts verCmd famProto block :
  v2_frame verCmd famProto block =
    (proxyV2Sig ++ [verCmd; famProto] ++ BigEndian_PutUint16 (Z.of_nat (length block))) ++ block.
Proof. unfold v2_frame. by rewrite <-!app_assoc. Qed.

Lemma v2_frame_length verCmd famProto block :
  length (v2_frame verCmd famProto block) = 16 + length block.
Proof. unfold v2_frame. rewrite !length_app. done. Qed.

Lemma v2_frame_addrLen verCmd famProto block :
  (Z.of_nat (length block) < 65536)%Z →
  BigEndian_Uint16 (slice (v2_frame verCmd famProto block) 14 16) = Z.of_nat (length block).
Proof.
  intros Hlen. rewrite v2_frame_parts, slice_app_l by (rewrite !length_app; simpl; lia).
  change (slice _ 14 16) with (BigEndian_PutUint16 (Z.of_nat (length block))).
  apply BigEndian_Uint16_PutUint16. lia.
Qed.

Lemma v2_frame_well_formed verCmd famProto block :
  Z.shiftr (byte_to_Z verCmd) 4 = 2%Z → (Z.of_nat (length block) < 65536)%Z →
  well_formed_v2 (v2_frame verCmd famProto block).
Proof.
  intros Hver Hlen. split_and!.
  - done.
  - done.
  - rewrite v2_frame_addrLen, v2_frame_length by done. lia.
Qed.

Lemma decodeV2_frame verCmd famProto block :
  (Z.of_nat (length block) < 65536)%Z →
  decodeV2 (v2_frame verCmd famProto block) =
    let raw := v2_frame verCmd famProto block in
    let addrFamily := Z.shiftr (byte_to_Z famProto) 4 in
    let header := mkProxyHeader 2 [] [] 0 0 raw in
    if decide (addrFamily = 1%Z) then
      if decide (12 ≤ length block) then
        mkProxyHeader 2 (slice block 0 4) (slice block 4 8)
          (BigEndian_Uint16 (slice block 8 10))
          (BigEndian_Uint16 (slice block 10 12)) raw
      else header
    else if decide (addrFamily = 2%Z) then
      if decide (36 ≤ length block) then
        mkProxyHeader 2 (slice block 0 16) (slice block 16 32)
          (BigEndian_Uint16 (slice block 32 34))
          (BigEndian_Uint16 (slice block 34 36)) raw
      else header
    else header.
Proof.
  intros Hlen. unfold decodeV2. rewrite v2_frame_addrLen by done.
  change (drop 16 (v2_frame verCmd famProto block)) with block.
  change (v2_frame verCmd famProto block !!! 13) with famProto.
  cbv zeta. repeat case_decide; try done; lia.
Qed.

Section V2Decoding.

Variable ParseIP : bytes → IP.

(** X9. A v2 header of family AF_INET is decoded from the first twelve
    bytes of its address block: two 4-byte addresses and two big-endian
    ports.  The command nibble and the transport nibble play no part, and
    bytes of the block after the twelfth (TLVs) are kept in [RawBytes]
    and otherwise ignored. *)
Theorem detect_v2_inet (br : Reader) (verCmd famProto : byte)
    (src dst : IP) (srcPort dstPort : Z) (tlv B : bytes) :
  16 ≤ br_size br →
  Z.shiftr (byte_to_Z verCmd) 4 = 2%Z → Z.shiftr (byte_to_Z famProto) 4 = 1%Z →
  length src = 4 → length dst = 4 →
  (0 ≤ srcPort < 65536)%Z → (0 ≤ dstPort < 65536)%Z →
  (Z.of_nat (length tlv) < 65524)%Z →
  content br = v2_frame verCmd famProto
                 (src ++ dst ++ BigEndian_PutUint16 srcPort ++ BigEndian_PutUint16 dstPort ++ tlv)
               ++ B →
  ∃ br', detectProxyProtocol ParseIP br
           = Some (br', (Some (mkProxyHeader 2 src dst srcPort dstPort
                                 (v2_frame verCmd famProto
                                    (src ++ dst ++ BigEndian_PutUint16 srcPort
                                         ++ BigEndian_PutUint16 dstPort ++ tlv))), None)) ∧
    content br' = B.
Proof.
  intros Hsz Hver Hfam Hsrc Hdst Hsp Hdp Htlv Hcont.
  set (block := src ++ dst ++ _) in *.
  assert (length block = 12 + length tlv) as Hblock.
  { unfold block. rewrite !length_app, Hsrc, Hdst. simpl. lia. }
  destruct (detect_v2 ParseIP br (v2_frame verCmd famProto block) B)
    as (br' & -> & Hc); [done|apply v2_frame_well_formed; [done|lia]|done|].
  exists br'. split; [|done]. do 3 f_equal.
  rewrite decodeV2_frame by lia. cbv zeta.
  rewrite decide_True by done. rewrite decide_True by lia.
  destruct src as [|s0 [|s1 [|s2 [|s3 [|]]]]]; try done.
  destruct dst as [|d0 [|d1 [|d2 [|d3 [|]]]]]; try done.
  change (slice block 0 4) with [s0; s1; s2; s3].
  change (slice block 4 8) with [d0; d1; d2; d3].
  change (slice block 8 10) with (BigEndian_PutUint16 srcPort).
  change (slice block 10 12) with (BigEndian_PutUint16 dstPort).
  by rewrite !BigEndian_Uint16_PutUint16.
Qed.

(** X10. A v2 header of family AF_INET6 is decoded from the first
    thirty-six bytes of its address block: two 16-byte addresses and two
    big-endian ports; the rest of the block is kept in [RawBytes] only. *)
Theorem detect_v2_inet6 (br : Reader) (verCmd famProto : byte)
    (src dst : IP) (srcPort dstPort : Z) (tlv B : bytes) :
  16 ≤ br_size br →
  Z.shiftr (byte_to_Z verCmd) 4 = 2%Z → Z.shiftr (byte_to_Z famProto) 4 = 2%Z →
  length src = 16 → length dst = 16 →
  (0 ≤ srcPort < 65536)%Z → (0 ≤ dstPort < 65536)%Z →
  (Z.of_nat (length tlv) < 65500)%Z →
  content br = v2_frame verCmd famProto
                 (src ++ dst ++ BigEndian_PutUint16 srcPort ++ BigEndian_PutUint16 dstPort ++ tlv)
               ++ B →
  ∃ br', detectProxyProtocol ParseIP br
           = Some (br', (Some (mkProxyHeader 2 src dst srcPort dstPort
                                 (v2_frame verCmd famProto
                                    (src ++ dst ++ BigEndian_PutUint16 srcPort
                                         ++ BigEndian_PutUint16 dstPort ++ tlv))), None)) ∧
    content br' = B.
Proof.
  intros Hsz Hver Hfam Hsrc Hdst Hsp Hdp Htlv Hcont.
  set (block := src ++ dst ++ _) in *.
  assert (length block = 36 + length tlv) as Hblock.
  { unfold block. rewrite !length_app, Hsrc, Hdst. simpl. lia. }
  destruct (detect_v2 ParseIP br (v2_frame verCmd famProto block) B)
    as (br' & -> & Hc); [done|apply v2_frame_well_formed; [done|lia]|done|].
  exists br'. split; [|done]. do 3 f_equal.
  rewrite decodeV2_frame by lia. cbv zeta.
  rewrite decide_False by lia. rewrite decide_True by done. rewrite decide_True by lia.
  destruct src as
    [|s0 [|s1 [|s2 [|s3 [|s4 [|s5 [|s6 [|s7 [|s8 [|s9 [|s10 [|s11 [|s12 [|s13 [|s14 [|s15 [|]]]]]]]]]]]]]]]]];
    try done.
  destruct dst as
    [|d0 [|d1 [|d2 [|d3 [|d4 [|d5 [|d6 [|d7 [|d8 [|d9 [|d10 [|d11 [|d12 [|d13 [|d14 [|d15 [|]]]]]]]]]]]]]]]]];
    try done.
  change (slice block 0 16)
    with [s0; s1; s2; s3; s4; s5; s6; s7; s8; s9; s10; s11; s12; s13; s14; s15].
  change (slice block 16 32)
    with [d0; d1; d2; d3; d4; d5; d6; d7; d8; d9; d10; d11; d12; d13; d14; d15].
  change (slice block 32 34) with (BigEndian_PutUint16 srcPort).
  change (slice block 34 36) with (BigEndian_PutUint16 dstPort).
  by rewrite !BigEndian_Uint16_PutUint16.
Qed.

(** X11. A v2 header of another family, or one whose address block is
    too short for its family (under 12 bytes for AF_INET, under 36 for
    AF_INET6), is accepted all the same: the header returned has nil
    addresses and zero ports, and the whole frame as [RawBytes]. *)
Theorem detect_v2_without_addresses (br : Reader) (verCmd famProto : byte) (block B : bytes) :
  16 ≤ br_size br →
  Z.shiftr (byte_to_Z verCmd) 4 = 2%Z → (Z.of_nat (length block) < 65536)%Z →
  (Z.shiftr (byte_to_Z famProto) 4 = 1%Z → length block < 12) →
  (Z.shiftr (byte_to_Z famProto) 4 = 2%Z → length block < 36) →
  content br = v2_frame verCmd famProto block ++ B →
  ∃ br', detectProxyProtocol ParseIP br
           = Some (br', (Some (mkProxyHeader 2 [] [] 0 0 (v2_frame verCmd famProto block)),
                         None)) ∧
    content br' = B.
Proof.
  intros Hsz Hver Hlen H4 H6 Hcont.
  destruct (detect_v2 ParseIP br (v2_frame verCmd famProto block) B)
    as (br' & -> & Hc); [done|by apply v2_frame_well_formed|done|].
  exists br'. split; [|done]. do 3 f_equal.
  rewrite decodeV2_frame by lia. cbv zeta.
  repeat case_decide; try done; [specialize (H4 ltac:(done))|specialize (H6 ltac:(done))]; lia.
Qed.

End V2Decoding.

(** ** Headers built by [buildProxyV2Header] *)

Lemma To16_length_cases ip : length (To16 ip) = 0 ∨ length (To16 ip) = 16.
Proof.
  unfold To16. repeat case_decide; auto.
  right. rewrite length_app. simpl. lia.
Qed.

(** Whatever the addresses, the header built is a frame: LOCAL without
    an address block, or PROXY over TCP with a block of 12 or 36 bytes.
    An IP that is neither 4 nor 16 bytes long leaves its field zero. *)
Lemma build_frame src dst :
  ∃ verCmd famProto block,
    buildProxyV2Header src dst = v2_frame verCmd famProto block ∧
    Z.shiftr (byte_to_Z verCmd) 4 = 2%Z ∧
    (length block = 0 ∨ length block = 12 ∨ length block = 36).
Proof.
  destruct src as [sip sp sz|]; [destruct dst as [dip dp dz|]|].
  - destruct (decide (To4 sip ≠ [] ∧ To4 dip ≠ [])) as [[Hs Hd]|Hno].
    + rewrite build_v4 by done.
      pose proof (To4_length _ Hs) as Hls. pose proof (To4_length _ Hd) as Hld.
      exists x21, x11, (To4 sip ++ To4 dip ++ BigEndian_PutUint16 (uint16 sp)
                          ++ BigEndian_PutUint16 (uint16 dp)).
      split_and!; [|done|].
      * unfold v2_frame. rewrite !length_app, Hls, Hld. done.
      * right. left. rewrite !length_app, Hls, Hld. done.
    + exists x21, x21, (drop 16 (buildProxyV2Header (TCPAddr sip sp sz) (TCPAddr dip dp dz))).
      unfold buildProxyV2Header. rewrite decide_False by done.
      destruct (To16_length_cases sip) as [Hls|Hls], (To16_length_cases dip) as [Hld|Hld].
      all: destruct (To16 sip) as
        [|s0 [|s1 [|s2 [|s3 [|s4 [|s5 [|s6 [|s7 [|s8 [|s9 [|s10 [|s11 [|s12 [|s13 [|s14 [|s15 [|]]]]]]]]]]]]]]]]];
        try done.
      all: destruct (To16 dip) as
        [|d0 [|d1 [|d2 [|d3 [|d4 [|d5 [|d6 [|d7 [|d8 [|d9 [|d10 [|d11 [|d12 [|d13 [|d14 [|d15 [|]]]]]]]]]]]]]]]]];
        try done.
      all: split_and!; [reflexivity | done | right; right; reflexivity].
  - exists x20, x00, []. split_and!; [reflexivity|done|by left].
  - exists x20, x00, []. split_and!; [reflexivity|done|by left].
Qed.

Section BuiltHeaders.

Variable ParseIP : bytes → IP.

Lemma detect_built br src dst B :
  16 ≤ br_size br → content br = buildProxyV2Header src dst ++ B →
  ∃ br' h, detectProxyProtocol ParseIP br = Some (br', (Some h, None)) ∧
    Version h = 2%Z ∧ RawBytes h = buildProxyV2Header src dst ∧ content br' = B.
Proof.
  intros Hsz Hcont.
  destruct (build_frame src dst) as (verCmd & famProto & block & Hbuild & Hver & Hlen).
  rewrite Hbuild in *.
  destruct (detect_v2 ParseIP br (v2_frame verCmd famProto block) B)
    as (br' & -> & Hc); [done|apply v2_frame_well_formed; [done|lia]|done|].
  eexists _, _. split; [done|].
  by rewrite Version_decodeV2, RawBytes_decodeV2.
Qed.

(** X12. Whatever the two addresses are, of any kind, with IPs of any
    length and ports of any value, [buildProxyV2Header] returns 16, 28 or
    52 bytes that [detectProxyProtocol] accepts as one version-2 header
    and consumes exactly. *)
Theorem built_header_is_always_detected (br : Reader) (src dst : Addr) (B : bytes) :
  16 ≤ br_size br →
  content br = buildProxyV2Header src dst ++ B →
  length (buildProxyV2Header src dst) ∈ [16; 28; 52] ∧
  ∃ br' h, detectProxyProtocol ParseIP br = Some (br', (Some h, None)) ∧
    Version h = 2%Z ∧ RawBytes h = buildProxyV2Header src dst ∧ content br' = B.
Proof.
  intros Hsz Hcont. split; [|by apply detect_built].
  destruct (build_frame src dst) as (verCmd & famProto & block & -> & _ & Hlen).
  rewrite v2_frame_length. destruct Hlen as [Hl|[Hl|Hl]]; rewrite Hl; set_solver.
Qed.

(** X13. When one of the two addresses is no TCP address the header
    built is the 16-byte LOCAL header, and detecting it gives a header
    without addresses. *)
Theorem non_tcp_address_gives_local_header (br : Reader) (src dst : Addr) (B : bytes) :
  16 ≤ br_size br →
  ¬ (is_tcp src ∧ is_tcp dst) →
  content br = buildProxyV2Header src dst ++ B →
  buildProxyV2Header src dst = proxyV2Sig ++ [x20; x00; x00; x00] ∧
  ∃ br', detectProxyProtocol ParseIP br
           = Some (br', (Some (mkProxyHeader 2 [] [] 0 0 (buildProxyV2Header src dst)), None)) ∧
    content br' = B.
Proof.
  intros Hsz Hno Hcont.
  assert (buildProxyV2Header src dst = v2_frame x20 x00 []) as Hbuild.
  { destruct src, dst; try done. by destruct Hno. }
  rewrite Hbuild in *. split; [done|].
  destruct (detect_v2 ParseIP br (v2_frame x20 x00 []) B)
    as (br' & -> & Hc); [done|by_evaluation|done|].
  by exists br'.
Qed.

End BuiltHeaders.

(** ** Detecting a header a second time *)

(** What [parseProxyV2] accepts is a frame of the announced length. *)
Lemma parseProxyV2_accepts br br' h :
  parseProxyV2 br = Some (br', (Some h, None)) →
  ∃ H, content br = H ++ content br' ∧ h = decodeV2 H ∧
    Z.shiftr (byte_to_Z (H !!! 12%nat)) 4 = 2%Z ∧
    length H = 16 + Z.to_nat (BigEndian_Uint16 (slice H 14 16)).
Proof.
  unfold parseProxyV2.
  destruct (readFull_spec br 16) as (br1 & fixed & err & -> & Hc1 & _ & Herr).
  simpl. destruct err; [done|].
  case_decide as Hver; [done|].
  set (L := BigEndian_Uint16 (slice fixed 14 16)).
  assert (∃ br2 block err, (if decide (0 < L)%Z then readFull br1 (Z.to_nat L)
                            else Some (br1, [], false)) = Some (br2, block, err) ∧
                           content br1 = block ++ content br2 ∧
                           (err = false → length block = Z.to_nat L))
    as (br2 & block & err & -> & Hc2 & Hblock).
  { case_decide.
    - destruct (readFull_spec br1 (Z.to_nat L)) as (br2 & block & err & -> & Hc2 & _ & Hb).
      eexists _, _, _. split_and!; [done|done|]. by intros ->.
    - exists br1, [], false. split_and!; [done|done|]. intros _. simpl. lia. }
  simpl. destruct err; [done|]. specialize (Hblock eq_refl).
  intros [= <- <-]. exists (fixed ++ block).
  assert (slice (fixed ++ block) 14 16 = slice fixed 14 16) as Hslice
    by (apply slice_app_l; lia).
  split_and!.
  - by rewrite Hc1, Hc2, app_assoc.
  - unfold decodeV2. rewrite Hslice, drop_app_length', lookup_total_app_lt by lia. done.
  - rewrite lookup_total_app_lt by lia. done.
  - rewrite Hslice, length_app. fold L. lia.
Qed.

Section Redetection.

Variable ParseIP : bytes → IP.

(** The outcome of [parseProxyV1] depends on the line only. *)
Lemma parseProxyV1_same_line br1 br1' br2 br2' line :
  ReadBytes br1 LF = Some (br1', line, false) →
  ReadBytes br2 LF = Some (br2', line, false) →
  ∃ outcome, parseProxyV1 ParseIP br1 = Some (br1', outcome) ∧
    parseProxyV1 ParseIP br2 = Some (br2', outcome).
Proof.
  intros H1 H2. unfold parseProxyV1. rewrite H1, H2. simpl.
  repeat case_decide; by eexists.
Qed.

(** A header that [parseProxyV2] took from a stream carrying the
    signature is detected again from its raw bytes. *)
Lemma detect_again_v2 br1 br' h downstream B :
  16 ≤ br_size downstream →
  16 ≤ length (content br1) → take 12 (content br1) = proxyV2Sig →
  parseProxyV2 br1 = Some (br', (Some h, None)) →
  content downstream = RawBytes h ++ B →
  ∃ downstream', detectProxyProtocol ParseIP downstream = Some (downstream', (Some h, None)) ∧
    content downstream' = B.
Proof.
  intros Hsz Hlen Hsig Hparse Hcont.
  apply parseProxyV2_accepts in Hparse as (H & Hc & -> & Hver & HlenH).
  rewrite RawBytes_decodeV2 in Hcont.
  apply (detect_v2 ParseIP downstream H B); [done| |done].
  split_and!; [|done|done].
  rewrite <-Hsig, Hc. by rewrite take_app_le by lia.
Qed.

(** The same for a header that [parseProxyV1] took from a stream that
    begins with ["PROXY "]. *)
Lemma detect_again_v1 br1 br' h downstream B :
  16 ≤ br_size br1 → 16 ≤ br_size downstream →
  take 6 (content br1) = proxyV1Prefix →
  parseProxyV1 ParseIP br1 = Some (br', (Some h, None)) →
  content downstream = RawBytes h ++ B →
  ∃ downstream', detectProxyProtocol ParseIP downstream = Some (downstream', (Some h, None)) ∧
    content downstream' = B.
Proof.
  intros Hsz1 Hsz Hpre Hparse Hcont.
  destruct (detect_stream ParseIP downstream Hsz) as (d1 & Hd1 & Hdsz & ->).
  pose proof Hparse as Hdet. unfold parseProxyV1 in Hdet.
  destruct (ReadBytes_spec br1 LF) as (b' & line & err & Hread & Hc & _ & Herr); [lia|].
  rewrite Hread in Hdet. simpl in Hdet. destruct err; [done|].
  destruct Herr as (l & -> & Hl).
  assert (RawBytes h = l ++ [LF] ∧ b' = br') as [Hraw ->].
  { repeat case_decide; try done; by injection Hdet as <- <-. }
  rewrite Hraw, <-app_assoc in Hcont. simpl in Hcont.
  assert (proxyV1Prefix `prefix_of` l) as [k Hk].
  { rewrite Hc, <-app_assoc in Hpre. simpl in Hpre.
    destruct (decide (6 ≤ length l)) as [Hge|Hlt].
    - rewrite take_app_le in Hpre by done. rewrite <-Hpre. apply prefix_take.
    - exfalso. assert (LF ∈ proxyV1Prefix) as Hin.
      { rewrite <-Hpre. apply elem_of_take. exists (length l).
        split; [by apply list_lookup_middle|lia]. }
      revert Hin. by_evaluation. }
  rewrite Hcont, Hk, <-!app_assoc.
  rewrite decide_False.
  2:{ intros [_ Hsig]. discriminate Hsig. }
  rewrite decide_True.
  2:{ rewrite length_app. split; [simpl; lia|done]. }
  destruct (ReadBytes_line d1 LF l B) as (d' & Hread2 & Hd' & _); [lia|congruence|done|].
  destruct (parseProxyV1_same_line br1 br' d1 d' (l ++ [LF]) Hread Hread2)
    as (outcome & Ho1 & ->).
  rewrite Hparse in Ho1. injection Ho1 as <-. eauto.
Qed.

(** X14. A header that [detectProxyProtocol] returned is detected again
    from its [RawBytes]: on any stream that starts with them, detection
    returns the same header, field for field, and stops right behind
    them.  This is what a backend running the same detection sees of a
    header that was passed through. *)
Theorem detected_header_is_detected_again (br br' : Reader) (h : ProxyHeader)
    (downstream : Reader) (B : bytes) :
  16 ≤ br_size br → 16 ≤ br_size downstream →
  detectProxyProtocol ParseIP br = Some (br', (Some h, None)) →
  content downstream = RawBytes h ++ B →
  ∃ downstream', detectProxyProtocol ParseIP downstream = Some (downstream', (Some h, None)) ∧
    content downstream' = B.
Proof.
  intros Hsz Hsz2 Hdet Hcont.
  destruct (detect_stream ParseIP br Hsz) as (br1 & Hc1 & Hsz1 & Heq).
  rewrite Heq in Hdet. rewrite <-Hc1 in Hdet. clear Heq.
  case_decide as Hv2; [|case_decide as Hv1; [|done]].
  - destruct Hv2 as [Hlen Hsig]. by apply (detect_again_v2 br1 br' h).
  - destruct Hv1 as [Hlen Hpre]. apply (detect_again_v1 br1 br' h); [lia|done..].
Qed.

End Redetection.

(** ** The forwarder from end to end *)

Lemma content_NewReaderSize rd size : content (NewReaderSize rd size) = concat rd.
Proof. done. Qed.

Lemma br_size_NewReaderSize rd size : 16 ≤ br_size (NewReaderSize rd size).
Proof. simpl. lia. Qed.

(** A backend that never refuses a write receives everything. *)
Lemma conn_Write_unbounded c p :
  room c = None → conn_Write c p = (mkBackendConn (written c ++ p) None, false).
Proof. intros Hroom. unfold conn_Write. by rewrite Hroom. Qed.

Lemma write_all_unbounded dst ps :
  room dst = None →
  write_all dst ps = (mkBackendConn (written dst ++ concat ps) None, false).
Proof.
  revert dst. induction ps as [|p ps IH]; intros dst Hroom; simpl.
  - rewrite app_nil_r. by destruct dst as [w []].
  - rewrite conn_Write_unbounded by done. rewrite IH by done. simpl.
    by rewrite <-app_assoc.
Qed.

(** What a connection with the given room takes of a sequence of writes. *)
Lemma write_all_exact dst ps dst' err :
  write_all dst ps = (dst', err) →
  match room dst with
  | None => written dst' = written dst ++ concat ps ∧ err = false
  | Some k => written dst' = written dst ++ take k (concat ps) ∧
              err = bool_decide (k < length (concat ps))
  end.
Proof.
  revert dst. induction ps as [|p ps IH]; intros dst; simpl.
  - intros [= <- <-]. destruct (room dst) as [k|]; rewrite ?take_nil, app_nil_r;
      split; try done.
    all: symmetry; apply bool_decide_eq_false_2; simpl; lia.
  - unfold conn_Write at 1. destruct (room dst) as [k|] eqn:Hroom.
    + case_decide as Hfit.
      * intros Hrest. apply IH in Hrest. simpl in Hrest. destruct Hrest as [-> ->].
        rewrite <-app_assoc, take_app_ge by done. split; [done|].
        rewrite length_app. apply bool_decide_ext. lia.
      * intros [= <- <-]. simpl. rewrite take_app_le by lia. split; [done|].
        rewrite bool_decide_eq_true_2; [done|]. rewrite length_app. lia.
    + intros Hrest. apply IH in Hrest. simpl in Hrest. destruct Hrest as [-> ->].
      by rewrite <-app_assoc.
Qed.

Section ForwarderEndToEnd.

Variable ParseIP : bytes → IP.
Variable DialTimeout : bytes → option BackendConn.

Lemma detect_absent br :
  16 ≤ br_size br →
  ¬ proxyV1Prefix `prefix_of` content br → ¬ proxyV2Sig `prefix_of` content br →
  ∃ br', detectProxyProtocol ParseIP br = Some (br', (None, None)) ∧
    content br' = content br.
Proof.
  intros Hsz Hv1 Hv2.
  destruct (detect_stream ParseIP br Hsz) as (br1 & Hc1 & _ & ->).
  rewrite decide_False.
  2:{ intros [_ Hsig]. apply Hv2. by apply (take_prefix_eq 12). }
  rewrite decide_False.
  2:{ intros [_ Hpre]. apply Hv1. by apply (take_prefix_eq 6). }
  eauto.
Qed.

Lemma detect_well_formed br H B :
  16 ≤ br_size br → well_formed_v1 H ∨ well_formed_v2 H → content br = H ++ B →
  ∃ br' h, detectProxyProtocol ParseIP br = Some (br', (Some h, None)) ∧
    RawBytes h = H ∧ content br' = B.
Proof.
  intros Hsz [Hv1|Hv2] Hcont.
  - destruct Hv1 as (tokens & -> & Hclean & Hshape).
    destruct (detect_v1 ParseIP br tokens B) as (br' & -> & Hc); try done.
    { destruct Hshape as [->|(Hlen & H0 & _)]; [by eexists|].
      destruct tokens as [|t0 [|t1 ts]]; try done. simpl in H0.
      injection H0 as ->. by eexists. }
    unfold v1_outcome.
    destruct Hshape as [->|(Hlen & _)].
    + rewrite decide_True by done. by eexists _, _.
    + rewrite decide_False by lia. rewrite decide_False by lia. by eexists _, _.
  - destruct (detect_v2 ParseIP br H B) as (br' & -> & Hc); try done.
    eexists _, _. split; [done|]. by rewrite RawBytes_decodeV2.
Qed.

(** X15. A connection whose stream starts with no PROXY preamble, to a
    backend that can be dialed and accepts every write: the backend
    receives the header built from the client's remote and local
    addresses and then the client's whole stream, unchanged. *)
Theorem direct_connection_gets_built_header (clientConn : ClientConn)
    (backendAddr : bytes) (fresh : BackendConn) :
  ¬ proxyV1Prefix `prefix_of` concat (incoming clientConn) →
  ¬ proxyV2Sig `prefix_of` concat (incoming clientConn) →
  DialTimeout backendAddr = Some fresh → room fresh = None →
  handleConnection ParseIP DialTimeout clientConn backendAddr =
    Some (Spliced (mkBackendConn
                     (written fresh
                        ++ buildProxyV2Header (RemoteAddr clientConn) (LocalAddr clientConn)
                        ++ concat (incoming clientConn)) None) false).
Proof.
  intros Hv1 Hv2 Hdial Hroom. unfold handleConnection.
  destruct (detect_absent (NewReaderSize (incoming clientConn) peekBufferSize))
    as (br' & -> & Hc); [apply br_size_NewReaderSize|done|done|].
  simpl. rewrite Hdial, conn_Write_unbounded by done.
  unfold io_Copy. rewrite write_all_unbounded by done.
  change (concat (br_buf br' :: br_rd br')) with (content br').
  rewrite Hc, content_NewReaderSize. simpl. by rewrite <-app_assoc.
Qed.

(** X16. A connection whose stream starts with a well-formed v1 or v2
    header, to a backend that can be dialed and accepts every write: the
    backend receives the client's stream byte for byte, the header as it
    came and the payload behind it, and no header of the forwarder's
    own. *)
Theorem proxied_connection_is_passed_through (clientConn : ClientConn)
    (backendAddr : bytes) (fresh : BackendConn) (H B : bytes) :
  well_formed_v1 H ∨ well_formed_v2 H →
  concat (incoming clientConn) = H ++ B →
  DialTimeout backendAddr = Some fresh → room fresh = None →
  handleConnection ParseIP DialTimeout clientConn backendAddr =
    Some (Spliced (mkBackendConn (written fresh ++ concat (incoming clientConn)) None) false).
Proof.
  intros Hwf Hstream Hdial Hroom. unfold handleConnection.
  destruct (detect_well_formed (NewReaderSize (incoming clientConn) peekBufferSize) H B)
    as (br' & h & -> & Hraw & Hc); [apply br_size_NewReaderSize|done|done|].
  simpl. rewrite Hdial, conn_Write_unbounded by done.
  unfold io_Copy. rewrite write_all_unbounded by done.
  change (concat (br_buf br' :: br_rd br')) with (content br').
  rewrite Hc, Hraw, Hstream. simpl. by rewrite <-app_assoc.
Qed.

(** X17. When the backend stops taking bytes before the header of a
    direct connection is written in full, the handler ends there: the
    backend holds the part of the header that fitted and no byte of the
    client's stream. *)
Theorem refused_header_stops_the_forwarder (clientConn : ClientConn)
    (backendAddr : bytes) (fresh : BackendConn) (k : nat) :
  ¬ proxyV1Prefix `prefix_of` concat (incoming clientConn) →
  ¬ proxyV2Sig `prefix_of` concat (incoming clientConn) →
  DialTimeout backendAddr = Some fresh → room fresh = Some k →
  k < length (buildProxyV2Header (RemoteAddr clientConn) (LocalAddr clientConn)) →
  handleConnection ParseIP DialTimeout clientConn backendAddr =
    Some (HeaderWriteFailed
            (mkBackendConn
               (written fresh
                  ++ take k (buildProxyV2Header (RemoteAddr clientConn) (LocalAddr clientConn)))
               (Some 0))).
Proof.
  intros Hv1 Hv2 Hdial Hroom Hk. unfold handleConnection.
  destruct (detect_absent (NewReaderSize (incoming clientConn) peekBufferSize))
    as (br' & -> & Hc); [apply br_size_NewReaderSize|done|done|].
  simpl. rewrite Hdial. unfold conn_Write. rewrite Hroom.
  rewrite decide_False by lia. done.
Qed.

(** X18. Whenever the copy to a freshly dialed backend ends without a
    write error, what the backend received starts with a header that
    [detectProxyProtocol] itself accepts, a passed-through header as well
    as a built one, and what follows that header is the tail of the
    client's stream. *)
Theorem backend_stream_starts_with_a_header (clientConn : ClientConn)
    (backendAddr : bytes) (fresh backend : BackendConn) (downstream : Reader) :
  DialTimeout backendAddr = Some fresh → written fresh = [] →
  handleConnection ParseIP DialTimeout clientConn backendAddr
    = Some (Spliced backend false) →
  16 ≤ br_size downstream → content downstream = written backend →
  ∃ downstream' h,
    detectProxyProtocol ParseIP downstream = Some (downstream', (Some h, None)) ∧
    written backend = RawBytes h ++ content downstream' ∧
    content downstream' `suffix_of` concat (incoming clientConn).
Proof.
  intros Hdial Hempty Hrun Hsz Hcont. unfold handleConnection in Hrun.
  destruct (detect_frame ParseIP (NewReaderSize (incoming clientConn) peekBufferSize))
    as (br' & hdr & err & Hdet & Hframe); [apply br_size_NewReaderSize|].
  rewrite Hdet in Hrun. simpl in Hrun. destruct err as [e|]; [done|].
  rewrite Hdial in Hrun. specialize (Hframe eq_refl).
  rewrite content_NewReaderSize in Hframe.
  set (header := match hdr with
                 | Some h => RawBytes h
                 | None => buildProxyV2Header (RemoteAddr clientConn) (LocalAddr clientConn)
                 end).
  assert ((match hdr with
           | Some h => conn_Write fresh (RawBytes h)
           | None => conn_Write fresh
                       (buildProxyV2Header (RemoteAddr clientConn) (LocalAddr clientConn))
           end) = conn_Write fresh header) as Heq by (by destruct hdr).
  rewrite Heq in Hrun. clear Heq.
  destruct (conn_Write fresh header) as [b1 werr] eqn:Hw.
  destruct (conn_Write_spec _ _ _ _ Hw) as (_ & Hok & _).
  destruct werr; [done|]. specialize (Hok eq_refl).
  destruct (io_Copy b1 br') as [b2 perr] eqn:Hcopy.
  injection Hrun as <- ->. unfold io_Copy in Hcopy.
  destruct (write_all_spec _ _ _ _ Hcopy) as (_ & Hall & _).
  change (concat (br_buf br' :: br_rd br')) with (content br') in *.
  specialize (Hall eq_refl). rewrite Hok, Hempty in Hall. simpl in Hall.
  rewrite Hall in Hcont |- *.
  assert (content br' `suffix_of` concat (incoming clientConn)) as Hsuffix
    by (rewrite Hframe; by eexists).
  destruct hdr as [h|]; simpl in *.
  - assert (∃ d', detectProxyProtocol ParseIP downstream = Some (d', (Some h, None)) ∧
                  content d' = content br') as (d' & -> & Hd').
    { destruct (detect_stream ParseIP _ (br_size_NewReaderSize (incoming clientConn)
                                           peekBufferSize)) as (br1 & Hc1 & Hsz1 & Heq).
      rewrite Heq in Hdet. rewrite <-Hc1 in Hdet. clear Heq.
      case_decide as Hv2; [|case_decide as Hv1; [|done]].
      - destruct Hv2 as [Hlen Hsig]. by apply (detect_again_v2 ParseIP br1 br' h).
      - destruct Hv1 as [Hlen Hpre].
        apply (detect_again_v1 ParseIP br1 br' h); [simpl in Hsz1; lia|done..]. }
    exists d', h. by rewrite Hd'.
  - destruct (detect_built ParseIP downstream _ _ _ Hsz Hcont) as (d' & h & -> & _ & Hraw & Hd').
    exists d', h. by rewrite Hraw, Hd'.
Qed.

(** Detecting a header built for two valid TCP addresses gives the
    addresses and the ports back, whatever follows the header. *)
Lemma detect_built_fields br src dst B :
  16 ≤ br_size br → valid_tcp_addr src → valid_tcp_addr dst →
  content br = buildProxyV2Header src dst ++ B →
  ∃ br' h, detectProxyProtocol ParseIP br = Some (br', (Some h, None)) ∧
    content br' = B ∧ RawBytes h = buildProxyV2Header src dst ∧
    Version h = 2%Z ∧
    SrcPort h = addr_port src ∧ DstPort h = addr_port dst ∧
    IP_Equal (SrcAddr h) (addr_ip src) = true ∧
    IP_Equal (DstAddr h) (addr_ip dst) = true.
Proof.
  intros Hsz Hsrc Hdst Hcont.
  destruct src as [sip sp sz|]; [|done]. destruct dst as [dip dp dz|]; [|done].
  destruct Hsrc as [Hsl Hsp], Hdst as [Hdl Hdp]. cbn [addr_ip addr_port].
  assert (uint16 sp = sp) as Hsp' by (apply Z.mod_small; lia).
  assert (uint16 dp = dp) as Hdp' by (apply Z.mod_small; lia).
  pose proof (BigEndian_Uint16_PutUint16 sp ltac:(lia)) as Hrs.
  pose proof (BigEndian_Uint16_PutUint16 dp ltac:(lia)) as Hrd.
  set (H := buildProxyV2Header _ _) in *.
  destruct (decide (To4 sip ≠ [] ∧ To4 dip ≠ [])) as [[Hs4 Hd4]|Hv4].
  - pose proof (build_v4 sip sp sz dip dp dz Hs4 Hd4) as HH. fold H in HH.
    rewrite Hsp', Hdp' in HH.
    pose proof (IP_Equal_To4 _ Hs4) as Hes. pose proof (IP_Equal_To4 _ Hd4) as Hed.
    pose proof (To4_length _ Hs4) as Hls. pose proof (To4_length _ Hd4) as Hld.
    destruct (To4 sip) as [|s0 [|s1 [|s2 [|s3 [|]]]]]; try done.
    destruct (To4 dip) as [|d0 [|d1 [|d2 [|d3 [|]]]]]; try done.
    destruct (detect_v2 ParseIP br H B) as (br' & -> & Hc); [done| |done|].
    { rewrite HH. done. }
    eexists _, _. split; [done|]. rewrite RawBytes_decodeV2, Version_decodeV2.
    split_and!; try done; rewrite HH; try done.
  - pose proof (build_v6 sip sp sz dip dp dz Hv4 Hsl Hdl) as HH. fold H in HH.
    rewrite Hsp', Hdp' in HH.
    pose proof (IP_Equal_To16 _ Hsl) as Hes. pose proof (IP_Equal_To16 _ Hdl) as Hed.
    pose proof (To16_length _ Hsl) as Hls. pose proof (To16_length _ Hdl) as Hld.
    destruct (To16 sip) as
      [|s0 [|s1 [|s2 [|s3 [|s4 [|s5 [|s6 [|s7 [|s8 [|s9 [|s10 [|s11 [|s12 [|s13 [|s14 [|s15 [|]]]]]]]]]]]]]]]]];
      try done.
    destruct (To16 dip) as
      [|d0 [|d1 [|d2 [|d3 [|d4 [|d5 [|d6 [|d7 [|d8 [|d9 [|d10 [|d11 [|d12 [|d13 [|d14 [|d15 [|]]]]]]]]]]]]]]]]];
      try done.
    destruct (detect_v2 ParseIP br H B) as (br' & -> & Hc); [done| |done|].
    { rewrite HH. done. }
    eexists _, _. split; [done|]. rewrite RawBytes_decodeV2, Version_decodeV2.
    split_and!; try done; rewrite HH; try done.
Qed.

(** The raw bytes of a header that detection returned are one header. *)
Lemma detected_header_shape br br' h :
  16 ≤ br_size br →
  detectProxyProtocol ParseIP br = Some (br', (Some h, None)) →
  one_proxy_header (RawBytes h).
Proof.
  intros Hsz Hdet.
  destruct (detect_stream ParseIP br Hsz) as (br1 & Hc1 & Hsz1 & Heq).
  rewrite Heq in Hdet. rewrite <-Hc1 in Hdet. clear Heq.
  case_decide as Hv2; [|case_decide as Hv1; [|done]].
  - destruct Hv2 as [Hlen Hsig]. right.
    apply parseProxyV2_accepts in Hdet as (H & Hc & -> & Hver & HlenH).
    rewrite RawBytes_decodeV2. split_and!; [|done|done].
    rewrite <-Hsig, Hc. by rewrite take_app_le by lia.
  - destruct Hv1 as [Hlen Hpre]. left. unfold parseProxyV1 in Hdet.
    destruct (ReadBytes_spec br1 LF) as (b' & line & err & Hread & Hc & _ & Herr); [lia|].
    rewrite Hread in Hdet. simpl in Hdet. destruct err; [done|].
    destruct Herr as (l & -> & Hl).
    case_decide as Hcr; [done|].
    assert (RawBytes h = l ++ [LF]) as ->.
    { repeat case_decide; try done; by injection Hdet as <- <-. }
    assert (proxyV1Prefix `prefix_of` l) as Hprefix.
    { rewrite Hc, <-app_assoc in Hpre. simpl in Hpre.
      destruct (decide (6 ≤ length l)) as [Hge|Hlt].
      - rewrite take_app_le in Hpre by done. rewrite <-Hpre. apply prefix_take.
      - exfalso. assert (LF ∈ proxyV1Prefix) as Hin.
        { rewrite <-Hpre. apply elem_of_take. exists (length l).
          split; [by apply list_lookup_middle|lia]. }
        revert Hin. by_evaluation. }
    assert (last l = Some CR) as Hlast.
    { destruct (decide (last l = Some CR)) as [|Hno]; [done|]. exfalso. apply Hcr.
      right. rewrite length_app. simpl.
      destruct Hprefix as [k Hk].
      replace (length l + 1 - 2) with (length l - 1) by (rewrite Hk, length_app; simpl; lia).
      rewrite lookup_app_l by (rewrite Hk, length_app; simpl; lia).
      rewrite last_lookup in Hno. by rewrite <-Nat.sub_1_r in Hno. }
    apply last_Some in Hlast as [l0 ->].
    exists l0. rewrite <-app_assoc. split; [done|]. split.
    + destruct Hprefix as [k Hk].
      destruct (decide (6 ≤ length l0)) as [Hge|Hlt].
      * exists (drop 6 l0). rewrite <-(take_drop 6 l0) at 1. f_equal.
        apply (f_equal (take 6)) in Hk. rewrite take_app_le in Hk by done.
        rewrite Hk. done.
      * exfalso. apply (f_equal (λ x, x !! length l0)) in Hk.
        rewrite list_lookup_middle in Hk by done.
        assert (length l0 < 6) as Hl0 by lia.
        rewrite lookup_app_l in Hk by (simpl; lia).
        assert (CR ∈ proxyV1Prefix) as Hin by (by eapply list_elem_of_lookup_2).
        revert Hin. by_evaluation.
    + intros Hin. apply Hl. rewrite elem_of_app. by left.
Qed.

(** C3 (amended). When the handler reaches the splice, the client's
    stream is the detected header (if any) followed by a payload, and
    what was written to the backend is one PROXY header followed by
    bytes of the payload and nothing else.  The header is the detected
    header's raw bytes, or else the header built from the client's remote
    and local addresses; either way it is framed as one header, and a
    receiver that runs the detection on the backend's stream takes
    exactly this header off it: the detected header itself when one was
    passed through, and for a built one a version-2 header carrying the
    remote address as source and the local address as destination.  The
    payload bytes follow in order: all of them exactly when the copy ends
    without a write error, which is the case whenever the backend keeps
    accepting writes, and otherwise the part that the backend still
    accepted. *)
Theorem forwarder_prepends_one_header (clientConn : ClientConn) (backendAddr : bytes)
    (fresh backend : BackendConn) (pipe_err : bool) :
  DialTimeout backendAddr = Some fresh →
  handleConnection ParseIP DialTimeout clientConn backendAddr
    = Some (Spliced backend pipe_err) →
  ∃ br' hdr header payload copied,
    detectProxyProtocol ParseIP (NewReaderSize (incoming clientConn) peekBufferSize)
      = Some (br', (hdr, None)) ∧
    content br' = payload ∧
    concat (incoming clientConn) = from_option RawBytes [] hdr ++ payload ∧
    header = match hdr with
             | Some h => RawBytes h
             | None => buildProxyV2Header (RemoteAddr clientConn) (LocalAddr clientConn)
             end ∧
    one_proxy_header header ∧
    (∀ downstream B, 16 ≤ br_size downstream → content downstream = header ++ B →
       ∃ downstream' h,
         detectProxyProtocol ParseIP downstream = Some (downstream', (Some h, None)) ∧
         RawBytes h = header ∧ content downstream' = B ∧
         (∀ h0, hdr = Some h0 → h = h0) ∧
         (hdr = None →
          valid_tcp_addr (RemoteAddr clientConn) → valid_tcp_addr (LocalAddr clientConn) →
          Version h = 2%Z ∧
          SrcPort h = addr_port (RemoteAddr clientConn) ∧
          DstPort h = addr_port (LocalAddr clientConn) ∧
          IP_Equal (SrcAddr h) (addr_ip (RemoteAddr clientConn)) = true ∧
          IP_Equal (DstAddr h) (addr_ip (LocalAddr clientConn)) = true)) ∧
    written backend = written fresh ++ header ++ copied ∧
    copied `prefix_of` payload ∧
    (pipe_err = false ↔ copied = payload) ∧
    (room fresh = None → pipe_err = false) ∧
    (∀ k, room fresh = Some k → copied = take (k - length header) payload).
Proof.
  intros Hdial Hrun. unfold handleConnection in Hrun.
  pose proof (br_size_NewReaderSize (incoming clientConn) peekBufferSize) as Hsz.
  destruct (detect_frame ParseIP (NewReaderSize (incoming clientConn) peekBufferSize))
    as (br' & hdr & err & Hdet & Hframe); [done|].
  rewrite Hdet in Hrun. simpl in Hrun. destruct err as [e|]; [done|].
  rewrite Hdial in Hrun. specialize (Hframe eq_refl).
  rewrite content_NewReaderSize in Hframe.
  set (header := match hdr with
                 | Some h => RawBytes h
                 | None => buildProxyV2Header (RemoteAddr clientConn) (LocalAddr clientConn)
                 end).
  assert ((match hdr with
           | Some h => conn_Write fresh (RawBytes h)
           | None => conn_Write fresh
                       (buildProxyV2Header (RemoteAddr clientConn) (LocalAddr clientConn))
           end) = conn_Write fresh header) as Heq by (by destruct hdr).
  rewrite Heq in Hrun. clear Heq.
  destruct (conn_Write fresh header) as [b1 werr] eqn:Hw.
  destruct werr; [done|].
  destruct (io_Copy b1 br') as [b2 perr] eqn:Hcopy.
  injection Hrun as <- <-. unfold io_Copy in Hcopy.
  apply write_all_exact in Hcopy.
  change (concat (br_buf br' :: br_rd br')) with (content br') in Hcopy.
  (* what the backend takes of the payload *)
  assert (∃ copied,
            written b2 = written fresh ++ header ++ copied ∧
            copied `prefix_of` content br' ∧
            (perr = false ↔ copied = content br') ∧
            (room fresh = None → perr = false) ∧
            (∀ k, room fresh = Some k → copied = take (k - length header) (content br')))
    as (copied & Hwritten & Hprefix & Herr & Hnone & Hsome).
  { unfold conn_Write in Hw. destruct (room fresh) as [k|] eqn:Hroom.
    - case_decide as Hfit; [|done]. injection Hw as <-. simpl in Hcopy.
      destruct Hcopy as [-> ->]. exists (take (k - length header) (content br')).
      rewrite <-app_assoc. split_and!; [done|apply prefix_take| |done|by intros ? [= <-]].
      rewrite bool_decide_eq_false. split.
      + intros Hge. apply take_ge. lia.
      + intros Htake Hlt. apply (f_equal length) in Htake.
        rewrite length_take in Htake. lia.
    - injection Hw as <-. simpl in Hcopy. destruct Hcopy as [-> ->].
      exists (content br'). rewrite <-app_assoc. by split_and!. }
  exists br', hdr, header, (content br'), copied.
  split_and!; try done.
  - (* one header *)
    destruct hdr as [h|]; [by eapply detected_header_shape|].
    right. unfold header.
    destruct (build_frame (RemoteAddr clientConn) (LocalAddr clientConn))
      as (verCmd & famProto & block & -> & Hver & Hlen).
    apply v2_frame_well_formed; [done|lia].
  - (* a receiver takes exactly this header off the stream *)
    intros downstream B Hdsz Hcont. destruct hdr as [h|].
    + assert (∃ d', detectProxyProtocol ParseIP downstream = Some (d', (Some h, None)) ∧
                    content d' = B) as (d' & -> & Hd').
      { destruct (detect_stream ParseIP _ Hsz) as (br1 & Hc1 & Hsz1 & Heq).
        rewrite Heq in Hdet. rewrite <-Hc1 in Hdet. clear Heq.
        case_decide as Hv2; [|case_decide as Hv1; [|done]].
        - destruct Hv2 as [Hlen Hsig]. by apply (detect_again_v2 ParseIP br1 br' h).
        - destruct Hv1 as [Hlen Hpre].
          apply (detect_again_v1 ParseIP br1 br' h); [simpl in Hsz1; lia|done..]. }
      exists d', h. split_and!; try done. by intros h0 [= ->].
    + destruct (detect_built ParseIP downstream _ _ _ Hdsz Hcont)
        as (d' & h & Hd & Hv & Hraw & Hd').
      exists d', h. split_and!; try done.
      intros _ Hsrc Hdst.
      destruct (detect_built_fields downstream _ _ _ Hdsz Hsrc Hdst Hcont)
        as (d'' & h' & Hd2 & _ & _ & Hfields).
      rewrite Hd in Hd2. injection Hd2 as _ <-. done.
Qed.

End ForwarderEndToEnd.

(** C3, counterexample: a backend that stops taking bytes in the middle
    of the payload.  The handler reaches the splice, and the backend has
    the header and three of the seven payload bytes. *)
Lemma forwarder_write_error_cuts_payload :
  let dial := λ _ : bytes, Some (mkBackendConn [] (Some (length gateway_line + 3))) in
  handleConnection (λ _, []) dial gateway_client (bs "127.0.0.1:25566")
    = Some (Spliced (mkBackendConn (gateway_line ++ bs "MC_") (Some 0)) true) ∧
  concat (incoming gateway_client) = gateway_line ++ bs "MC_DATA" ∧
  gateway_line ++ bs "MC_" ≠ gateway_line ++ bs "MC_DATA".
Proof. split_and!; [vm_compute; reflexivity|reflexivity|by_evaluation]. Qed.

(** ** The probes and the fan-out *)

(** Trailing bytes of the cutset do not change what [TrimRight] keeps. *)
Lemma TrimRight_trailing s cutset tail :
  Forall (λ c, c ∈ cutset) tail → TrimRight (s ++ tail) cutset = TrimRight s cutset.
Proof.
  intros Htail. induction s as [|c s IH].
  - rewrite app_nil_l. by apply (TrimRight_app_cutset []).
  - by rewrite <-app_comm_cons, !TrimRight_cons, IH.
Qed.

(** X19. Slashes at the end of a server's base URL make no difference to
    the URL that is probed: a base written with or without them stands
    for the same upstream. *)
Theorem probe_url_ignores_trailing_slashes (serverBase rawQuery : bytes) (n : nat) :
  probe_url (serverBase ++ replicate n x2f) rawQuery = probe_url serverBase rawQuery.
Proof.
  unfold probe_url. f_equal.
  apply TrimRight_trailing, Forall_replicate. by_evaluation.
Qed.

Section FanOutSoundness.

Variable net : bytes → upstream_reply.

(** A result that wins comes from a 200 reply with a body. *)
Lemma upstream_of_winner serverBase rawQuery :
  winner (querySessionServer net serverBase rawQuery) →
  ∃ body, net (probe_url serverBase rawQuery) = Response StatusOK body ∧ body ≠ [] ∧
    Body (querySessionServer net serverBase rawQuery) = take (64 * 1024) body.
Proof.
  unfold querySessionServer, winner.
  destruct (net (probe_url serverBase rawQuery)) as [| |status|status body];
    cbn [Err StatusCode Body]; try by intros (? & _).
  rewrite length_take. intros (_ & -> & Hlen). exists body. split_and!; try done.
  intros ->. simpl in Hlen. lia.
Qed.

(** X20. The result of a probe wins exactly when the upstream answered
    its URL with status 200 and a body that is not empty: a request that
    could not be made or answered, a body that could not be read,
    another status or an empty body never win. *)
Theorem probe_wins_iff (serverBase rawQuery : bytes) :
  winner (querySessionServer net serverBase rawQuery) ↔
  ∃ body, net (probe_url serverBase rawQuery) = Response StatusOK body ∧ body ≠ [].
Proof.
  unfold querySessionServer, winner.
  destruct (net (probe_url serverBase rawQuery)) as [| |status|status body];
    cbn [Err StatusCode Body].
  1-3: split; [by intros (? & _)|by intros (? & ? & _)].
  rewrite length_take. split.
  - intros (_ & -> & Hlen). exists body. split; [done|].
    intros ->. simpl in Hlen. lia.
  - intros (body' & [= -> ->] & Hne). split_and!; try done.
    destruct body'; [done|]. cbn [length]. lia.
Qed.

(** X21. A request without query string is answered 400 with the text
    [missing query parameters] as plain text, whatever the servers and
    the schedule: no probe is started and nothing is awaited. *)
Theorem empty_query_is_bad_request (w : ResponseWriter) (r : Request)
    (servers : list bytes) (sched : list event) :
  RawQuery r = [] → Code w = None →
  ∃ run, handleHasJoined net w r servers sched = Some run ∧
    Code (run_w run) = Some StatusBadRequest ∧
    Sent (run_w run) = Sent w ++ bs "missing query parameters" ++ [LF] ∧
    Header (run_w run) !! bs "Content-Type" = Some (bs "text/plain; charset=utf-8") ∧
    run_started run = [] ∧ run_taken run = 0.
Proof.
  intros Hq Hw. unfold handleHasJoined. rewrite decide_True by done.
  eexists. split; [done|]. cbn [run_w run_started run_taken].
  unfold http_Error, Write, WriteHeader, Header_Set, Header_Del. simpl. rewrite Hw. simpl.
  split_and!; try done.
  rewrite lookup_insert_ne by done. by rewrite lookup_insert_eq.
Qed.

(** What the dispatcher writes: the 204, or the body of a result that it
    received and that wins. *)
Lemma dispatch_sound results w started remaining :
  ∀ taken last sched run,
  dispatch results w started remaining taken last sched = Some run →
  (run_w run = WriteHeader StatusNoContent w ∧ run_cancelled run = false) ∨
  (∃ i result, Arrive i ∈ sched ∧ results !! i = Some result ∧ winner result ∧
     run_w run = Write (Body result)
                   (WriteHeader StatusOK
                      (Header_Set (bs "Content-Type") (bs "application/json") w)) ∧
     run_cancelled run = true).
Proof.
  induction remaining as [|remaining IH]; intros taken last sched run; simpl.
  - intros [= <-]. by left.
  - destruct sched as [|[i|] sched]; [done| |].
    + destruct (results !! i) as [result|] eqn:Hres; [|done]. simpl.
      case_decide as Herr.
      { intros Hrun. destruct (IH _ _ _ _ Hrun) as [?|(j & res & Hj & ?)]; [by left|].
        right. exists j, res. split; [by right|done]. }
      case_decide as Hwin.
      { intros [= <-]. right. exists i, result. simpl.
        split; [left|]. split; [done|]. split; [|done]. split; [|done].
        destruct (Err result); [|done]. by destruct Herr. }
      intros Hrun. destruct (IH _ _ _ _ Hrun) as [?|(j & res & Hj & ?)]; [by left|].
      right. exists j, res. split; [by right|done].
    + intros [= <-]. by left.
Qed.

(** X22. Whatever the upstreams answer and in whatever order, a run on a
    request with a query ends in one of two ways: status 204 with
    nothing written, or status 200 with a body that a configured server,
    whose result was received, returned with status 200 (the first
    64 KiB of it).  No other status, and no body of a reply that was not
    a 200, ever reaches the client. *)
Theorem ok_only_from_an_upstream (w : ResponseWriter) (r : Request)
    (servers : list bytes) (sched : list event) (run : Run) :
  RawQuery r ≠ [] → Code w = None → Sent w = [] →
  handleHasJoined net w r servers sched = Some run →
  (Code (run_w run) = Some StatusNoContent ∧ Sent (run_w run) = []) ∨
  (∃ i serverBase body,
     servers !! i = Some serverBase ∧ Arrive i ∈ sched ∧
     net (probe_url serverBase (RawQuery r)) = Response StatusOK body ∧ body ≠ [] ∧
     Code (run_w run) = Some StatusOK ∧ Sent (run_w run) = take (64 * 1024) body).
Proof.
  intros Hq Hw Hsent. unfold handleHasJoined. rewrite decide_False by done.
  intros Hrun.
  apply dispatch_sound in Hrun as [[Hrun _]|(i & result & Hi & Hres & Hwin & Hrun & _)].
  - left. rewrite Hrun. unfold WriteHeader. rewrite Hw. done.
  - right. rewrite list_lookup_fmap in Hres.
    apply fmap_Some in Hres as (serverBase & Hserver & ->).
    destruct (upstream_of_winner _ _ Hwin) as (body & Hnet & Hne & Hbody).
    exists i, serverBase, body. rewrite Hrun.
    unfold Write, WriteHeader, Header_Set. cbn [Code Sent Header]. rewrite Hw.
    cbn [Code Sent Header]. rewrite Hsent, Hbody.
    split_and!; first [assumption | reflexivity].
Qed.

(** X23. When exactly one server's result wins and every probe reports
    before the deadline, the response is that result's body with status
    200 in whatever order the results arrive. *)
Theorem single_winner_is_served_in_any_order (w : ResponseWriter) (r : Request)
    (servers : list bytes) (order : list nat) (post : list event)
    (i : nat) (result : authResult) :
  RawQuery r ≠ [] → Code w = None → Sent w = [] →
  order ≡ₚ seq 0 (length servers) →
  probe_result net servers (RawQuery r) i = Some result → winner result →
  (∀ j, j < length servers → j ≠ i → loses net servers (RawQuery r) j) →
  ∃ run, handleHasJoined net w r servers ((Arrive <$> order) ++ post) = Some run ∧
    Code (run_w run) = Some StatusOK ∧
    Header (run_w run) !! bs "Content-Type" = Some (bs "application/json") ∧
    Sent (run_w run) = Body result.
Proof.
  intros Hq Hw Hsent Hperm Hres Hwin Hothers. unfold handleHasJoined.
  rewrite decide_False by done.
  pose proof (probe_result_range net _ _ _ _ Hres) as Hi.
  assert (i ∈ order) as Hin by (rewrite Hperm, elem_of_seq; lia).
  apply list_elem_of_split in Hin as (pre & rest & ->).
  assert (NoDup (pre ++ i :: rest)) as Hnd by (rewrite Hperm; apply NoDup_seq).
  apply NoDup_app in Hnd as (_ & Hnotin & _).
  assert (Forall (loses net servers (RawQuery r)) pre) as Hlose.
  { apply Forall_forall. intros j Hj. apply Hothers.
    - assert (j ∈ seq 0 (length servers)) as Hjs by (rewrite <-Hperm, elem_of_app; auto).
      apply elem_of_seq in Hjs. lia.
    - intros ->. apply (Hnotin i Hj). left. }
  assert (length pre < length servers) as Hlen.
  { apply Permutation_length in Hperm. rewrite length_app, length_seq in Hperm.
    simpl in Hperm. lia. }
  replace (length servers) with (length pre + S (length servers - length pre - 1)) by lia.
  rewrite fmap_app, <-app_assoc. cbn [fmap list_fmap app].
  destruct (dispatch_losers net servers (RawQuery r) w
              ((λ server, probe_url server (RawQuery r)) <$> servers) pre
              (S (length servers - length pre - 1)) 0 (mkAuthResult 0 [] [] None)
              (Arrive i :: (Arrive <$> rest) ++ post) Hlose) as [last' ->].
  rewrite (dispatch_winner _ _ _ _ _ _ _ result); [|by rewrite probe_result_lookup|done].
  eexists. split; [done|]. cbn [run_w].
  destruct (written_response_200 w (Body result) Hw) as (? & ? & Hs).
  rewrite Hsent in Hs. done.
Qed.

Lemma dispatch_returns results w started sched :
  ∀ remaining taken last,
  Forall (λ i, i < length results) (arrivals sched) →
  Done ∈ sched ∨ remaining ≤ length (arrivals sched) →
  ∃ run, dispatch results w started remaining taken last sched = Some run ∧
    run_taken run ≤ taken + remaining.
Proof.
  induction sched as [|e sched IH]; intros remaining taken last Hrange Hcomplete.
  - destruct Hcomplete as [Hdone|Hlen]; [by apply not_elem_of_nil in Hdone|].
    simpl in Hlen. assert (remaining = 0) as -> by lia.
    eexists. split; [done|]. simpl. lia.
  - destruct remaining as [|remaining]; [eexists; split; [done|]; simpl; lia|].
    destruct e as [i|]; [|eexists; split; [done|]; simpl; lia].
    cbn [arrivals] in Hrange, Hcomplete.
    apply Forall_cons in Hrange as [Hi Hrange].
    apply lookup_lt_is_Some_2 in Hi as [result Hres].
    simpl. rewrite Hres. simpl.
    assert (Done ∈ sched ∨ remaining ≤ length (arrivals sched)) as Hrest.
    { destruct Hcomplete as [Hdone|Hlen].
      - left. by apply elem_of_cons in Hdone as [|].
      - right. simpl in Hlen. lia. }
    repeat case_decide.
    + destruct (IH remaining (S taken) result Hrange Hrest) as (run & -> & Hle).
      exists run. split; [done|]. lia.
    + eexists. split; [done|]. simpl. lia.
    + destruct (IH remaining (S taken) result Hrange Hrest) as (run & -> & Hle).
      exists run. split; [done|]. lia.
Qed.

(** X24. The handler answers on every schedule in which the deadline
    fires or as many results arrive as there are servers: it does not
    wait for ever, and it takes at most one event for each server. *)
Theorem fan_out_always_answers (w : ResponseWriter) (r : Request)
    (servers : list bytes) (sched : list event) :
  Forall (λ i, i < length servers) (arrivals sched) →
  Done ∈ sched ∨ length servers ≤ length (arrivals sched) →
  ∃ run, handleHasJoined net w r servers sched = Some run ∧
    run_taken run ≤ length servers.
Proof.
  intros Hrange Hcomplete. unfold handleHasJoined. case_decide.
  - eexists. split; [done|]. simpl. lia.
  - apply (dispatch_returns _ w _ sched (length servers) 0); [|done].
    by rewrite length_fmap.
Qed.

End FanOutSoundness.

(** ** The command line *)

(** Case analysis on the bytes that a pattern match looks at. *)
Ltac byte_cases :=
  repeat match goal with
         | |- context [match ?x with _ => _ end] => is_var x; destruct x; simpl
         end.

Lemma space_width_le s : space_width s ≤ length s.
Proof. unfold space_width. byte_cases; lia. Qed.

Lemma space_width_last_le s : space_width_last s ≤ length s.
Proof. unfold space_width_last. byte_cases; lia. Qed.

(** With fuel for every byte the loop ends on a string that starts with
    no white space. *)
Lemma trim_loop_spec (width : bytes → nat) :
  (∀ s, width s ≤ length s) →
  ∀ fuel s, length s ≤ fuel →
    width (trim_loop width fuel s) = 0 ∧ trim_loop width fuel s `suffix_of` s.
Proof.
  intros Hw. induction fuel as [|fuel IH]; intros s Hlen.
  - destruct s; [|simpl in Hlen; lia]. simpl. split; [|done].
    specialize (Hw []). simpl in Hw. lia.
  - simpl. destruct (width s) as [|k] eqn:Hk; [done|].
    destruct (IH (drop (S k) s)) as [H0 Hsuf].
    { rewrite length_drop. lia. }
    split; [done|]. etrans; [done|]. apply suffix_drop.
Qed.

Lemma trim_loop_fixed (width : bytes → nat) fuel s :
  width s = 0 → trim_loop width fuel s = s.
Proof. intros Hw. destruct fuel; simpl; [done|]. by rewrite Hw. Qed.

(** A string that starts with no white space has no prefix that does. *)
Lemma space_width_prefix p q : space_width (p ++ q) = 0 → space_width p = 0.
Proof.
  unfold space_width.
  destruct p as [|c0 [|c1 [|c2 p]]]; try done; simpl.
  all: destruct c0; try done; try destruct c1; try done; byte_cases; done.
Qed.

Lemma TrimLeftSpace_spec s :
  space_width (TrimLeftSpace s) = 0 ∧ TrimLeftSpace s `suffix_of` s.
Proof. by apply trim_loop_spec; [apply space_width_le|]. Qed.

Lemma TrimRightSpace_spec s :
  space_width_last (reverse (TrimRightSpace s)) = 0 ∧ TrimRightSpace s `prefix_of` s.
Proof.
  unfold TrimRightSpace.
  destruct (trim_loop_spec space_width_last space_width_last_le (length s) (reverse s))
    as [H0 Hsuf]; [by rewrite length_reverse|].
  rewrite reverse_involutive. split; [done|].
  apply suffix_prefix_reverse in Hsuf. by rewrite reverse_involutive in Hsuf.
Qed.

Lemma TrimLeftSpace_fixed s : space_width s = 0 → TrimLeftSpace s = s.
Proof. apply trim_loop_fixed. Qed.

Lemma TrimRightSpace_fixed s : space_width_last (reverse s) = 0 → TrimRightSpace s = s.
Proof.
  intros H0. unfold TrimRightSpace. rewrite trim_loop_fixed by done.
  apply reverse_involutive.
Qed.

(** Trimming a second time changes nothing. *)
Lemma TrimSpace_idempotent s : TrimSpace (TrimSpace s) = TrimSpace s.
Proof.
  unfold TrimSpace.
  destruct (TrimLeftSpace_spec s) as [HL _].
  destruct (TrimRightSpace_spec (TrimLeftSpace s)) as [HR [q Hq]].
  rewrite (TrimLeftSpace_fixed (TrimRightSpace _)).
  - by apply TrimRightSpace_fixed.
  - apply (space_width_prefix _ q). by rewrite <-Hq.
Qed.

Lemma elem_of_TrimSpace c s : c ∈ TrimSpace s → c ∈ s.
Proof.
  unfold TrimSpace. intros Hc.
  destruct (TrimRightSpace_spec (TrimLeftSpace s)) as [_ [q Hq]].
  destruct (TrimLeftSpace_spec s) as [_ [p Hp]].
  rewrite Hp, Hq, !elem_of_app. auto.
Qed.

Lemma Split_no_sep s sep : Forall (λ p, sep ∉ p) (Split s sep).
Proof.
  induction s as [|c s IH]; [repeat constructor; apply not_elem_of_nil|].
  rewrite Split_cons. case_decide as Hc.
  - constructor; [apply not_elem_of_nil|done].
  - destruct (Split s sep) as [|p ps];
      [repeat constructor; rewrite list_elem_of_singleton; congruence|].
    apply Forall_cons in IH as [Hp Hps]. constructor; [|done].
    rewrite not_elem_of_cons. split; [congruence|done].
Qed.

Lemma Split_one t (sep : byte) : sep ∉ t → Split t sep = [t].
Proof.
  induction t as [|c t IH]; [done|].
  rewrite not_elem_of_cons. intros [Hc Ht].
  rewrite Split_cons, decide_False by done. by rewrite IH.
Qed.

Lemma Split_first t (sep : byte) rest :
  sep ∉ t → Split (t ++ sep :: rest) sep = t :: Split rest sep.
Proof.
  induction t as [|c t IH].
  - intros _. rewrite app_nil_l, Split_cons. by rewrite decide_True.
  - rewrite not_elem_of_cons. intros [Hc Ht].
    rewrite <-app_comm_cons, Split_cons, decide_False by done. by rewrite IH.
Qed.

(** Splitting what [Join] put together gives the elements back. *)
Lemma Split_Join elems (sep : byte) :
  elems ≠ [] → Forall (λ e, sep ∉ e) elems → Split (Join elems sep) sep = elems.
Proof.
  induction elems as [|e es IH]; [done|]. intros _ Hall.
  apply Forall_cons in Hall as [He Hes].
  destruct es as [|e' es].
  - simpl. by apply Split_one.
  - change (Join (e :: e' :: es) sep) with (e ++ sep :: Join (e' :: es) sep).
    rewrite Split_first by done. by rewrite IH.
Qed.

Lemma appendServers_spec acc parts :
  appendServers acc parts = acc ++ filter (λ s, s ≠ []) (TrimSpace <$> parts).
Proof.
  revert acc. induction parts as [|p parts IH]; intros acc; simpl.
  - by rewrite app_nil_r.
  - rewrite filter_cons. case_decide; rewrite IH; [|done]. by rewrite <-app_assoc.
Qed.

(** X25. Whenever [main] gets as far as starting the servers, the list
    of session servers it hands them is not empty, and every entry of it
    is not empty, holds no comma and has no white space left at either
    end. *)
Theorem main_keeps_trimmed_servers (flags : Flags) (cfg : Config) :
  main flags = Some cfg →
  SessionServers cfg ≠ [] ∧ Forall trimmed_entry (SessionServers cfg).
Proof.
  unfold main. cbn [SessionServers ListenAddr BackendAddr AuthListenAddr].
  case_decide as Hlen; [done|]. intros [= <-]. cbn [SessionServers].
  split; [by intros Hnil; rewrite Hnil in Hlen|].
  rewrite appendServers_spec, app_nil_l.
  apply Forall_forall. intros s Hs.
  apply list_elem_of_filter in Hs as [Hne Hs].
  apply list_elem_of_fmap in Hs as (p & -> & Hp).
  pose proof (Split_no_sep (flag_session_servers flags) x2c) as Hsep.
  rewrite Forall_forall in Hsep. split_and!.
  - done.
  - intros Hc. by apply (Hsep p Hp), elem_of_TrimSpace.
  - apply TrimSpace_idempotent.
Qed.

(** X26. A list of such entries, written with commas between them as the
    value of [-session-servers], comes back as the configuration's
    server list, entry for entry and in order; the other three flags are
    taken over as they are. *)
Theorem session_servers_round_trip (listen backend authListen : bytes)
    (servers : list bytes) :
  servers ≠ [] → Forall trimmed_entry servers →
  main (mkFlags listen backend authListen (Join servers x2c))
    = Some (mkConfig listen backend authListen servers).
Proof.
  intros Hne Hall. unfold main.
  cbn [SessionServers ListenAddr BackendAddr AuthListenAddr flag_listen flag_backend
       flag_auth_listen flag_session_servers].
  rewrite Split_Join; [|done|by eapply Forall_impl; [done|]; intros s (_ & ? & _)].
  rewrite appendServers_spec, app_nil_l.
  assert (filter (λ s, s ≠ []) (TrimSpace <$> servers) = servers) as ->.
  { clear Hne. induction Hall as [|s ss (Hs & _ & Ht) _ IH]; [done|].
    rewrite fmap_cons, filter_cons, Ht, decide_True by done. by rewrite IH. }
  rewrite decide_False; [done|]. by destruct servers.
Qed.

(** * The scenarios of the test suite *)

(** [TestDetectProxyV2]: 192.168.1.100:12345 to 10.0.0.1:25565. *)
Example test_detect_v2 :
  let header := proxyV2Sig ++ [x21; x11; x00; x0c; xc0; xa8; x01; x64;
                               x0a; x00; x00; x01; x30; x39; x63; xdd] in
  let mcData := bs "MINECRAFT_HANDSHAKE_DATA_HERE" in
  detectProxyProtocol (λ _, []) (NewReaderSize [header ++ mcData] 512) =
    Some (mkReader mcData [] 512,
          (Some (mkProxyHeader 2 [xc0; xa8; x01; x64] [x0a; x00; x00; x01]
                   12345 25565 header), None)).
Proof. vm_compute. reflexivity. Qed.

(** [TestDetectProxyV1] *)
Example test_detect_v1 :
  let header := bs "PROXY TCP4 192.168.1.50 10.0.0.1 54321 25565" ++ [CR; LF] in
  let mcData := bs "MINECRAFT_DATA" in
  ∀ ParseIP,
    detectProxyProtocol ParseIP (NewReaderSize [header ++ mcData] 512) =
      Some (mkReader mcData [] 512,
            (Some (mkProxyHeader 1 (ParseIP (bs "192.168.1.50")) (ParseIP (bs "10.0.0.1"))
                     54321 25565 header), None)).
Proof. intros header mcData ParseIP. vm_compute. reflexivity. Qed.

(** [TestDetectNoProxyProtocol] *)
Example test_detect_none :
  detectProxyProtocol (λ _, []) (NewReaderSize [handshake] 512) =
    Some (mkReader handshake [] 512, (None, None)).
Proof. vm_compute. reflexivity. Qed.

(** A stream shorter than six bytes. *)
Example test_detect_short :
  detectProxyProtocol (λ _, []) (NewReaderSize [bs "PRO"] 512) =
    Some (mkReader (bs "PRO") [] 512, (None, None)).
Proof. vm_compute. reflexivity. Qed.

(** [TestBuildProxyV2Header]: 203.0.113.50:49152 to 10.0.0.1:25565, both
    as [net.ParseIP] returns them. *)
Example test_build_v4 :
  let header := buildProxyV2Header
                  (TCPAddr (v4InV6Prefix ++ [xcb; x00; x71; x32]) 49152 [])
                  (TCPAddr (v4InV6Prefix ++ [x0a; x00; x00; x01]) 25565 []) in
  length header = 28 ∧ take 12 header = proxyV2Sig ∧ header !! 12 = Some x21.
Proof. vm_compute. done. Qed.

(** [TestBuildProxyV2HeaderIPv6]: 2001:db8::1 to 2001:db8::2. *)
Example test_build_v6 :
  let ip last := [x20; x01; x0d; xb8; x00; x00; x00; x00;
                  x00; x00; x00; x00; x00; x00; x00; last] in
  let header := buildProxyV2Header (TCPAddr (ip x01) 49152 []) (TCPAddr (ip x02) 25565 []) in
  length header = 52 ∧
  ∃ br' h, detectProxyProtocol (λ _, []) (NewReaderSize [header] 512)
             = Some (br', (Some h, None)) ∧ SrcAddr h = ip x01.
Proof. split; [done|]. eexists _, _. split; [vm_compute; reflexivity|done]. Qed.

(** An address that is no TCP address gives the 16-byte LOCAL header. *)
Example test_build_local :
  buildProxyV2Header (OtherAddr (bs "unix") (bs "/tmp/s")) (TCPAddr [x0a; x00; x00; x01] 1 [])
    = proxyV2Sig ++ [x20; x00; x00; x00].
Proof. reflexivity. Qed.

(** [TestMultiauthFirstServerSucceeds] *)
Example test_first_server_succeeds :
  answered (handleHasJoined two_upstreams NewRecorder join_request two_servers
              [Arrive 0; Arrive 1])
    = Some (Some 200%Z, bs "{profile}", 1).
Proof. vm_compute. reflexivity. Qed.

(** [TestMultiauthSecondServerSucceeds] *)
Example test_second_server_succeeds :
  let net url := if Contains url (bs "minehut") then Response 200 (bs "{profile}")
                 else Response 204 [] in
  answered (handleHasJoined net NewRecorder join_request two_servers [Arrive 0; Arrive 1])
    = Some (Some 200%Z, bs "{profile}", 2).
Proof. vm_compute. reflexivity. Qed.

(** [TestMultiauthBothFail] *)
Example test_both_fail :
  answered (handleHasJoined (λ _, Response 204 []) NewRecorder join_request two_servers
              [Arrive 1; Arrive 0])
    = Some (Some 204%Z, [], 2).
Proof. vm_compute. reflexivity. Qed.

(** The deadline fires before the slow upstream reports. *)
Example test_deadline :
  answered (handleHasJoined two_upstreams NewRecorder join_request two_servers
              [Arrive 1; Done; Arrive 0])
    = Some (Some 204%Z, [], 2).
Proof. vm_compute. reflexivity. Qed.

(** An empty query is answered 400 and starts no probe. *)
Example test_empty_query :
  answered (handleHasJoined two_upstreams NewRecorder (mkRequest (bs "GET") hasJoinedPath [])
              two_servers [])
    = Some (Some 400%Z, bs "missing query parameters" ++ [LF], 0).
Proof. vm_compute. reflexivity. Qed.

(** The URL and the label of a probe. *)
Example test_probe_url :
  probe_url (bs "https://api.minehut.com/mitm/proxy/") (bs "username=a") =
    bs "https://api.minehut.com/mitm/proxy/session/minecraft/hasJoined?username=a" ∧
  probe_name (bs "https://api.minehut.com/mitm/proxy/") = bs "minehut".
Proof. vm_compute. done. Qed.

(** [TestTCPProxyDirectConnection]: the backend receives a 28-byte v2
    header with the client's address, then the client's bytes. *)
Example test_direct_connection :
  let clientConn :=
    mkClientConn (TCPAddr [x7f; x00; x00; x01] 40000 []) (TCPAddr [x7f; x00; x00; x01] 25565 [])
      [bs "HELLO_MC"] in
  handleConnection (λ _, []) (λ _, Some (mkBackendConn [] None)) clientConn (bs "127.0.0.1:25566")
    = Some (Spliced (mkBackendConn
                       (proxyV2Sig ++ [x21; x11; x00; x0c; x7f; x00; x00; x01;
                                       x7f; x00; x00; x01; x9c; x40; x63; xdd] ++ bs "HELLO_MC")
                       None) false).
Proof. vm_compute. reflexivity. Qed.

(** [TestTCPProxyPassthroughProxyProtocol] *)
Example test_passthrough :
  let clientConn :=
    mkClientConn (TCPAddr [x7f; x00; x00; x01] 40000 []) (TCPAddr [x7f; x00; x00; x01] 25565 [])
      [gateway_line; bs "MC_DATA"] in
  handleConnection (λ _, []) (λ _, Some (mkBackendConn [] None)) clientConn (bs "127.0.0.1:25566")
    = Some (Spliced (mkBackendConn (gateway_line ++ bs "MC_DATA") None) false).
Proof. vm_compute. reflexivity. Qed.

(** A backend that stops accepting bytes in the middle of the payload. *)
Example test_backend_write_error :
  let clientConn :=
    mkClientConn (TCPAddr [x7f; x00; x00; x01] 40000 []) (TCPAddr [x7f; x00; x00; x01] 25565 [])
      [gateway_line; bs "MC_DATA"] in
  handleConnection (λ _, []) (λ _, Some (mkBackendConn [] (Some (length gateway_line + 3))))
      clientConn (bs "127.0.0.1:25566")
    = Some (Spliced (mkBackendConn (gateway_line ++ bs "MC_") (Some 0)) true).
Proof. vm_compute. reflexivity. Qed.

(** The defaults of the command line give the default configuration. *)
Example test_default_flags : main default_flags = Some default_config.
Proof. vm_compute. reflexivity. Qed.

(** White space around the entries and blank parts are dropped, a
    no-break space included; a flag without any entry is fatal. *)
Example test_session_servers_flag :
  main (mkFlags (bs ":25565") (bs ":25566") (bs ":8652")
          ([x09] ++ bs "https://a.example ,," ++ [xc2; xa0] ++ bs "https://b.example/ "))
    = Some (mkConfig (bs ":25565") (bs ":25566") (bs ":8652")
              [bs "https://a.example"; bs "https://b.example/"]) ∧
  main (mkFlags (bs ":25565") (bs ":25566") (bs ":8652") (bs " , ")) = None.
Proof. split; vm_compute; reflexivity. Qed.

(** A v2 header with a version nibble of 3 ends the connection before
    the backend is dialed. *)
Example test_bad_version_drops_connection :
  let clientConn :=
    mkClientConn (TCPAddr [x7f; x00; x00; x01] 40000 []) (TCPAddr [x7f; x00; x00; x01] 25565 [])
      [proxyV2Sig ++ [x31; x11; x00; x00] ++ bs "MC_DATA"] in
  handleConnection (λ _, []) (λ _, Some (mkBackendConn [] None)) clientConn (bs "127.0.0.1:25566")
    = Some (DetectFailed (ErrV2Version 3)).
Proof. vm_compute. reflexivity. Qed.

(** A path that is not in canonical form is answered with a redirect to
    the cleaned path, whatever it would match. *)
Example test_redirect :
  ServeHTTP two_upstreams default_config NewRecorder
      (mkRequest (bs "GET") (bs "//health") []) []
    = Redirected (bs "/health") [] ∧
  ServeHTTP two_upstreams default_config NewRecorder
      (mkRequest (bs "GET") (bs "/a/../hasJoined") (bs "username=a")) []
    = Redirected (bs "/hasJoined") (bs "username=a").
Proof. split; vm_compute; reflexivity. Qed.

(** The answer to a HEAD request carries the status and no body. *)
Example test_head_health :
  ServeHTTP two_upstreams default_config NewRecorder
      (mkRequest (bs "HEAD") (bs "/health") []) []
    = Direct (mkResponseWriter ∅ (Some 200%Z) []).
Proof. done. Qed.

(** * Instances of the theorems on concrete inputs *)

(** C5, witness: the handshake, delivered in two reads. *)
Lemma detect_no_header_witness :
  let br := NewReaderSize [take 3 handshake; drop 3 handshake] peekBufferSize in
  content br = handshake ∧
  ∃ br', detectProxyProtocol (λ _, []) br = Some (br', (None, None)) ∧
    content br' = content br.
Proof.
  split; [reflexivity|].
  apply detect_no_header_consumes_nothing; [simpl; lia|by_evaluation|by_evaluation].
Defined.

(** C4, witness: a v1 header followed by payload, delivered in pieces. *)
Lemma detect_raw_header_witness :
  let br := NewReaderSize [take 9 gateway_line; drop 9 gateway_line ++ bs "MC"; bs "_DATA"]
              peekBufferSize in
  ∃ br' h, detectProxyProtocol (λ _, []) br = Some (br', (Some h, None)) ∧
    RawBytes h = gateway_line ∧ content br' = bs "MC_DATA".
Proof.
  apply detect_returns_raw_header; [simpl; lia| |reflexivity].
  left. eexists. split; [reflexivity|]. split; [by_evaluation|].
  right. split_and!; [reflexivity|reflexivity|by left].
Defined.

(** C6, witness: an IPv4 client and an IPv4-mapped local address. *)
Lemma detect_build_witness :
  let src := TCPAddr [xcb; x00; x71; x32] 49152 [] in
  let dst := TCPAddr (v4InV6Prefix ++ [x0a; x00; x00; x01]) 25565 [] in
  let br := NewReaderSize [buildProxyV2Header src dst] peekBufferSize in
  ∃ br' h, detectProxyProtocol (λ _, []) br = Some (br', (Some h, None)) ∧
    content br' = [] ∧ Version h = 2%Z ∧
    SrcPort h = 49152%Z ∧ DstPort h = 25565%Z ∧
    SrcAddr h = [xcb; x00; x71; x32] ∧ DstAddr h = [x0a; x00; x00; x01].
Proof.
  intros src dst br.
  destruct (detect_build_roundtrip (λ _, []) br src dst) as
    (br' & h & Hd & Hc & Hv & Hsp & Hdp & Hsa & Hda & _);
    [simpl; lia|by_evaluation|by_evaluation|reflexivity|].
  exists br', h. split_and!; try done.
Defined.

(** C7, witness: a line of three tokens is rejected. *)
Lemma v1_token_count_witness :
  let tokens := [bs "PROXY"; bs "TCP4"; bs "1.2.3.4"] in
  let br := NewReaderSize [v1_line tokens ++ bs "rest"] peekBufferSize in
  ∃ br' hdr err, parseProxyV1 (λ _, []) br = Some (br', (hdr, err)) ∧
    content br' = bs "rest" ∧
    match hdr, err with
    | Some h, None =>
        ((length tokens = 2 ∧ tokens !! 1 = Some (bs "UNKNOWN")) ∨ length tokens = 6) ∧
        Version h = 1%Z ∧ RawBytes h = v1_line tokens
    | None, Some e =>
        ¬ (length tokens = 2 ∧ tokens !! 1 = Some (bs "UNKNOWN")) ∧
        length tokens ≠ 6 ∧ e = ErrV1Fields (length tokens)
    | _, _ => False
    end.
Proof.
  apply v1_token_count_decides; [simpl; lia|done|by_evaluation|reflexivity].
Defined.

(** C9, witness: the ports 70000 and -5. *)
Lemma v1_port_token_witness :
  let br := NewReaderSize
              [v1_line [bs "PROXY"; bs "TCP4"; bs "1.2.3.4"; bs "5.6.7.8"; bs "70000"; bs "-5"]]
              peekBufferSize in
  ∃ br' h, parseProxyV1 (λ _, []) br = Some (br', (Some h, None)) ∧
    SrcPort h = 4464%Z ∧ DstPort h = 65531%Z.
Proof.
  intros br.
  destruct (v1_port_token_wraps (λ _, []) br (bs "PROXY") (bs "TCP4") (bs "1.2.3.4")
              (bs "5.6.7.8") (bs "70000") (bs "-5") [])
    as (br' & h & Hp & Hs & Hd & _); [simpl; lia|by_evaluation|reflexivity|].
  exists br', h. split_and!; [done| |].
  - apply (Hs NoSign (bs "70000")); [reflexivity|done|by_evaluation].
  - apply (Hd Minus (bs "5")); [reflexivity|done|by_evaluation].
Defined.

(** C3, witness: a player's connection to a backend that takes every
    byte, and a gateway's connection to a backend that stops in the
    middle of the payload. *)
Lemma forwarder_witness :
  let direct_backend :=
    mkBackendConn (buildProxyV2Header (RemoteAddr direct_client) (LocalAddr direct_client)
                     ++ handshake) None in
  let short := mkBackendConn [] (Some (length gateway_line + 3)) in
  let short_backend := mkBackendConn (gateway_line ++ bs "MC_") (Some 0) in
  (∃ br' hdr header payload copied,
    detectProxyProtocol (λ _, []) (NewReaderSize (incoming direct_client) peekBufferSize)
      = Some (br', (hdr, None)) ∧
    content br' = payload ∧
    concat (incoming direct_client) = from_option RawBytes [] hdr ++ payload ∧
    header = match hdr with
             | Some h => RawBytes h
             | None => buildProxyV2Header (RemoteAddr direct_client) (LocalAddr direct_client)
             end ∧
    one_proxy_header header ∧
    (∀ downstream B, 16 ≤ br_size downstream → content downstream = header ++ B →
       ∃ downstream' h,
         detectProxyProtocol (λ _, []) downstream = Some (downstream', (Some h, None)) ∧
         RawBytes h = header ∧ content downstream' = B ∧
         (∀ h0, hdr = Some h0 → h = h0) ∧
         (hdr = None →
          valid_tcp_addr (RemoteAddr direct_client) → valid_tcp_addr (LocalAddr direct_client) →
          Version h = 2%Z ∧
          SrcPort h = addr_port (RemoteAddr direct_client) ∧
          DstPort h = addr_port (LocalAddr direct_client) ∧
          IP_Equal (SrcAddr h) (addr_ip (RemoteAddr direct_client)) = true ∧
          IP_Equal (DstAddr h) (addr_ip (LocalAddr direct_client)) = true)) ∧
    written direct_backend = written (mkBackendConn [] None) ++ header ++ copied ∧
    copied `prefix_of` payload ∧
    (false = false ↔ copied = payload) ∧
    (room (mkBackendConn [] None) = None → false = false) ∧
    (∀ k, room (mkBackendConn [] None) = Some k → copied = take (k - length header) payload)) ∧
  (∃ br' hdr header payload copied,
    detectProxyProtocol (λ _, []) (NewReaderSize (incoming gateway_client) peekBufferSize)
      = Some (br', (hdr, None)) ∧
    content br' = payload ∧
    concat (incoming gateway_client) = from_option RawBytes [] hdr ++ payload ∧
    header = match hdr with
             | Some h => RawBytes h
             | None => buildProxyV2Header (RemoteAddr gateway_client) (LocalAddr gateway_client)
             end ∧
    one_proxy_header header ∧
    (∀ downstream B, 16 ≤ br_size downstream → content downstream = header ++ B →
       ∃ downstream' h,
         detectProxyProtocol (λ _, []) downstream = Some (downstream', (Some h, None)) ∧
         RawBytes h = header ∧ content downstream' = B ∧
         (∀ h0, hdr = Some h0 → h = h0) ∧
         (hdr = None →
          valid_tcp_addr (RemoteAddr gateway_client) → valid_tcp_addr (LocalAddr gateway_client) →
          Version h = 2%Z ∧
          SrcPort h = addr_port (RemoteAddr gateway_client) ∧
          DstPort h = addr_port (LocalAddr gateway_client) ∧
          IP_Equal (SrcAddr h) (addr_ip (RemoteAddr gateway_client)) = true ∧
          IP_Equal (DstAddr h) (addr_ip (LocalAddr gateway_client)) = true)) ∧
    written short_backend = written short ++ header ++ copied ∧
    copied `prefix_of` payload ∧
    (true = false ↔ copied = payload) ∧
    (room short = None → true = false) ∧
    (∀ k, room short = Some k → copied = take (k - length header) payload)).
Proof.
  intros direct_backend short short_backend. split.
  - apply (forwarder_prepends_one_header (λ _, []) (λ _, Some (mkBackendConn [] None))
             direct_client (bs "127.0.0.1:25566") (mkBackendConn [] None) direct_backend false);
      [reflexivity|vm_compute; reflexivity].
  - apply (forwarder_prepends_one_header (λ _, []) (λ _, Some short)
             gateway_client (bs "127.0.0.1:25566") short short_backend true);
      [reflexivity|vm_compute; reflexivity].
Defined.

(** C1, witness: the second upstream reports first and loses, the first
    one reports next and wins. *)
Lemma first_winner_witness :
  ∃ run, handleHasJoined two_upstreams NewRecorder join_request two_servers
           ((Arrive <$> [1]) ++ Arrive 0 :: [Done]) = Some run ∧
    Code (run_w run) = Some StatusOK ∧
    Header (run_w run) !! bs "Content-Type" = Some (bs "application/json") ∧
    Sent (run_w run) = bs "{profile}" ∧
    run_taken run = 2 ∧
    run_cancelled run = true.
Proof.
  apply (first_winner_is_served two_upstreams NewRecorder join_request two_servers [1] 0 [Done]
           (mkAuthResult 200 (bs "{profile}") (bs "mojang") None));
    [done|done|done|by_evaluation| |vm_compute; reflexivity|by_evaluation].
  repeat constructor. eexists. split; [vm_compute; reflexivity|]. by_evaluation.
Defined.

(** C2, witness: no upstream answers 200 and both report. *)
Lemma no_winner_witness :
  ∃ run, handleHasJoined (λ _, Response 204 []) NewRecorder join_request two_servers
           [Arrive 1; Arrive 0] = Some run ∧
    run_w run = no_content NewRecorder ∧ run_cancelled run = false.
Proof.
  apply no_winner_gives_no_content; [done|done| |right; simpl; lia].
  repeat constructor; (eexists; split; [vm_compute; reflexivity|]); by_evaluation.
Defined.

(** C10, witness. *)
Lemma no_servers_witness :
  ∃ run, handleHasJoined two_upstreams NewRecorder join_request [] [Done] = Some run ∧
    run_w run = no_content NewRecorder ∧
    run_started run = [] ∧ run_taken run = 0 ∧ run_cancelled run = false.
Proof. apply no_servers_gives_no_content; done. Defined.


(** X2, witness: a gateway's stream, delivered in two reads. *)
Lemma detect_keeps_the_stream_witness :
  let br := NewReaderSize [gateway_line; bs "MC_DATA"] peekBufferSize in
  ∃ br' hdr err, detectProxyProtocol (λ _, []) br = Some (br', (hdr, err)) ∧
    (err = None → content br = from_option RawBytes [] hdr ++ content br') ∧
    (err ≠ None → hdr = None).
Proof. apply detect_keeps_the_stream. simpl. lia. Defined.

(** X3, witness: the signature and two bytes more. *)
Lemma detect_short_v2_signature_witness :
  let br := NewReaderSize [proxyV2Sig; [x21; x11]] peekBufferSize in
  ∃ br', detectProxyProtocol (λ _, []) br = Some (br', (None, None)) ∧
    content br' = proxyV2Sig ++ [x21; x11].
Proof.
  apply (detect_short_v2_signature (λ _, [])
           (NewReaderSize [proxyV2Sig; [x21; x11]] peekBufferSize));
    [simpl; lia|by_evaluation|simpl; lia].
Defined.

(** X4, witness: a version nibble of 3. *)
Lemma detect_v2_rejects_other_versions_witness :
  let br := NewReaderSize [proxyV2Sig ++ [x31; x11]; [x00; x00] ++ bs "MC"] peekBufferSize in
  ∃ br', detectProxyProtocol (λ _, []) br = Some (br', (None, Some (ErrV2Version 3))) ∧
    content br' = bs "MC".
Proof.
  apply (detect_v2_rejects_other_versions (λ _, [])
           (NewReaderSize [proxyV2Sig ++ [x31; x11]; [x00; x00] ++ bs "MC"] peekBufferSize)
           (proxyV2Sig ++ [x31; x11; x00; x00]) (bs "MC"));
    [simpl; lia|reflexivity|reflexivity|reflexivity|by_evaluation].
Defined.

(** X5, witness: twelve bytes announced, four delivered. *)
Lemma detect_v2_truncated_block_witness :
  let br := NewReaderSize [proxyV2Sig ++ [x21; x11; x00; x0c]; [xc0; xa8; x01; x64]]
              peekBufferSize in
  ∃ br', detectProxyProtocol (λ _, []) br = Some (br', (None, Some ErrV2ReadBlock)) ∧
    content br' = [].
Proof.
  apply (detect_v2_truncated_block (λ _, [])
           (NewReaderSize [proxyV2Sig ++ [x21; x11; x00; x0c]; [xc0; xa8; x01; x64]]
              peekBufferSize)
           (proxyV2Sig ++ [x21; x11; x00; x0c]) [xc0; xa8; x01; x64]);
    [simpl; lia|reflexivity|reflexivity|reflexivity|reflexivity|vm_compute; lia].
Defined.

(** X6, witness: a v1 line that is never ended. *)
Lemma detect_v1_unterminated_line_witness :
  let br := NewReaderSize [bs "PROXY TCP4 1.2.3.4 "; bs "5.6.7.8 1 2"] peekBufferSize in
  ∃ br', detectProxyProtocol (λ _, []) br = Some (br', (None, Some ErrV1ReadLine)) ∧
    content br' = [].
Proof.
  apply (detect_v1_unterminated_line (λ _, [])
           (NewReaderSize [bs "PROXY TCP4 1.2.3.4 "; bs "5.6.7.8 1 2"] peekBufferSize));
    [simpl; lia|by_evaluation|by_evaluation].
Defined.

(** X7, witness: a v1 line ended by a line feed alone. *)
Lemma detect_v1_requires_crlf_witness :
  let br := NewReaderSize [bs "PROXY TCP4 1.2.3.4 5.6.7.8 1 2" ++ [LF] ++ bs "MC"]
              peekBufferSize in
  ∃ br', detectProxyProtocol (λ _, []) br = Some (br', (None, Some ErrV1NoCRLF)) ∧
    content br' = bs "MC".
Proof.
  apply (detect_v1_requires_crlf (λ _, [])
           (NewReaderSize [bs "PROXY TCP4 1.2.3.4 5.6.7.8 1 2" ++ [LF] ++ bs "MC"]
              peekBufferSize)
           (bs "PROXY TCP4 1.2.3.4 5.6.7.8 1 2") (bs "MC"));
    [simpl; lia|reflexivity|by_evaluation|by_evaluation|by_evaluation].
Defined.

(** X8, witness: a [TCP4] line with an IPv6 source and a destination
    that is no IP literal, for a [ParseIP] that knows [::1] only. *)
Lemma detect_v1_addresses_witness :
  let ParseIP := λ s : bytes, if decide (s = bs "::1") then replicate 15 x00 ++ [x01] else [] in
  let br := NewReaderSize [v1_line [bs "PROXY"; bs "TCP4"; bs "::1"; bs "somewhere";
                                    bs "1"; bs "2"] ++ bs "MC"] peekBufferSize in
  ∃ br' h, detectProxyProtocol ParseIP br = Some (br', (Some h, None)) ∧
    Version h = 1%Z ∧ SrcAddr h = replicate 15 x00 ++ [x01] ∧ DstAddr h = [] ∧
    content br' = bs "MC".
Proof.
  intros ParseIP br.
  apply (detect_v1_addresses ParseIP br (bs "TCP4") (bs "::1") (bs "somewhere")
           (bs "1") (bs "2") (bs "MC")); [simpl; lia|by_evaluation|reflexivity].
Defined.

(** X9, witness: a LOCAL command over AF_INET and datagram transport,
    with a TLV behind the addresses. *)
Lemma detect_v2_inet_witness :
  let block := [xc0; xa8; x01; x64] ++ [x0a; x00; x00; x01]
                 ++ BigEndian_PutUint16 12345 ++ BigEndian_PutUint16 25565
                 ++ [x04; x00; x01; x00] in
  let br := NewReaderSize [v2_frame x20 x12 block ++ bs "MC"] peekBufferSize in
  ∃ br', detectProxyProtocol (λ _, []) br
           = Some (br', (Some (mkProxyHeader 2 [xc0; xa8; x01; x64] [x0a; x00; x00; x01]
                                 12345 25565 (v2_frame x20 x12 block)), None)) ∧
    content br' = bs "MC".
Proof.
  apply (detect_v2_inet (λ _, [])
           (NewReaderSize
              [v2_frame x20 x12
                 ([xc0; xa8; x01; x64] ++ [x0a; x00; x00; x01]
                    ++ BigEndian_PutUint16 12345 ++ BigEndian_PutUint16 25565
                    ++ [x04; x00; x01; x00]) ++ bs "MC"] peekBufferSize)
           x20 x12 [xc0; xa8; x01; x64] [x0a; x00; x00; x01] 12345 25565
           [x04; x00; x01; x00] (bs "MC"));
    [simpl; lia|reflexivity|reflexivity|reflexivity|reflexivity|lia|lia|simpl; lia|reflexivity].
Defined.

(** X10, witness: 2001:db8::1 to 2001:db8::2. *)
Lemma detect_v2_inet6_witness :
  let src := [x20; x01; x0d; xb8] ++ replicate 11 x00 ++ [x01] in
  let dst := [x20; x01; x0d; xb8] ++ replicate 11 x00 ++ [x02] in
  let block := src ++ dst ++ BigEndian_PutUint16 49152 ++ BigEndian_PutUint16 25565 ++ [] in
  let br := NewReaderSize [v2_frame x21 x21 block] peekBufferSize in
  ∃ br', detectProxyProtocol (λ _, []) br
           = Some (br', (Some (mkProxyHeader 2 src dst 49152 25565 (v2_frame x21 x21 block)),
                         None)) ∧
    content br' = [].
Proof.
  apply (detect_v2_inet6 (λ _, [])
           (NewReaderSize
              [v2_frame x21 x21
                 (([x20; x01; x0d; xb8] ++ replicate 11 x00 ++ [x01])
                    ++ ([x20; x01; x0d; xb8] ++ replicate 11 x00 ++ [x02])
                    ++ BigEndian_PutUint16 49152 ++ BigEndian_PutUint16 25565 ++ [])]
              peekBufferSize)
           x21 x21 ([x20; x01; x0d; xb8] ++ replicate 11 x00 ++ [x01])
           ([x20; x01; x0d; xb8] ++ replicate 11 x00 ++ [x02]) 49152 25565 [] []);
    [simpl; lia|reflexivity|reflexivity|reflexivity|reflexivity|lia|lia|simpl; lia|reflexivity].
Defined.

(** X11, witness: AF_INET with a block of eight bytes. *)
Lemma detect_v2_without_addresses_witness :
  let block := [xc0; xa8; x01; x64; x0a; x00; x00; x01] in
  let br := NewReaderSize [v2_frame x21 x11 block ++ bs "MC"] peekBufferSize in
  ∃ br', detectProxyProtocol (λ _, []) br
           = Some (br', (Some (mkProxyHeader 2 [] [] 0 0 (v2_frame x21 x11 block)), None)) ∧
    content br' = bs "MC".
Proof.
  apply (detect_v2_without_addresses (λ _, [])
           (NewReaderSize
              [v2_frame x21 x11 [xc0; xa8; x01; x64; x0a; x00; x00; x01] ++ bs "MC"]
              peekBufferSize)
           x21 x11 [xc0; xa8; x01; x64; x0a; x00; x00; x01] (bs "MC"));
    [simpl; lia|reflexivity|simpl; lia|simpl; lia|vm_compute; discriminate|reflexivity].
Defined.

(** X12, witness: a source IP of five bytes and a port outside 16 bits. *)
Lemma built_header_is_always_detected_witness :
  let src := TCPAddr [x01; x02; x03; x04; x05] 70000 [] in
  let dst := TCPAddr ([x20; x01; x0d; xb8] ++ replicate 11 x00 ++ [x02]) 25565 [] in
  let br := NewReaderSize [buildProxyV2Header src dst; bs "MC"] peekBufferSize in
  length (buildProxyV2Header src dst) ∈ [16; 28; 52] ∧
  ∃ br' h, detectProxyProtocol (λ _, []) br = Some (br', (Some h, None)) ∧
    Version h = 2%Z ∧ RawBytes h = buildProxyV2Header src dst ∧ content br' = bs "MC".
Proof.
  intros src dst br.
  apply (built_header_is_always_detected (λ _, []) br src dst (bs "MC"));
    [simpl; lia|reflexivity].
Defined.

(** X13, witness: a Unix-domain source. *)
Lemma non_tcp_address_gives_local_header_witness :
  let src := OtherAddr (bs "unix") (bs "/tmp/s") in
  let dst := TCPAddr [x0a; x00; x00; x01] 25565 [] in
  let br := NewReaderSize [buildProxyV2Header src dst ++ bs "MC"] peekBufferSize in
  buildProxyV2Header src dst = proxyV2Sig ++ [x20; x00; x00; x00] ∧
  ∃ br', detectProxyProtocol (λ _, []) br
           = Some (br', (Some (mkProxyHeader 2 [] [] 0 0 (buildProxyV2Header src dst)), None)) ∧
    content br' = bs "MC".
Proof.
  intros src dst br.
  apply (non_tcp_address_gives_local_header (λ _, []) br src dst (bs "MC"));
    [simpl; lia|by_evaluation|reflexivity].
Defined.

(** X14, witness: the gateway's header, detected once and then again by
    a reader with the smallest buffer, in two reads. *)
Lemma detected_header_is_detected_again_witness :
  let h := mkProxyHeader 1 [] [] 11111 25565 gateway_line in
  let downstream := NewReaderSize [take 20 gateway_line; drop 20 gateway_line ++ bs "MC"] 16 in
  ∃ downstream', detectProxyProtocol (λ _, []) downstream = Some (downstream', (Some h, None)) ∧
    content downstream' = bs "MC".
Proof.
  intros h downstream.
  apply (detected_header_is_detected_again (λ _, [])
           (NewReaderSize [gateway_line ++ bs "MC_DATA"] peekBufferSize)
           (mkReader (bs "MC_DATA") [] peekBufferSize) h downstream (bs "MC"));
    [simpl; lia|simpl; lia|vm_compute; reflexivity|reflexivity].
Defined.

(** X15, witness: a player's connection. *)
Lemma direct_connection_gets_built_header_witness :
  let dial := λ _ : bytes, Some (mkBackendConn [] None) in
  handleConnection (λ _, []) dial direct_client (bs "127.0.0.1:25566") =
    Some (Spliced (mkBackendConn
                     ([] ++ buildProxyV2Header (RemoteAddr direct_client) (LocalAddr direct_client)
                         ++ concat (incoming direct_client)) None) false).
Proof.
  intros dial.
  apply (direct_connection_gets_built_header (λ _, []) dial direct_client (bs "127.0.0.1:25566")
           (mkBackendConn [] None));
    [by_evaluation|by_evaluation|reflexivity|reflexivity].
Defined.

(** X16, witness: a gateway's connection. *)
Lemma proxied_connection_is_passed_through_witness :
  let dial := λ _ : bytes, Some (mkBackendConn [] None) in
  handleConnection (λ _, []) dial gateway_client (bs "127.0.0.1:25566") =
    Some (Spliced (mkBackendConn ([] ++ concat (incoming gateway_client)) None) false).
Proof.
  intros dial.
  apply (proxied_connection_is_passed_through (λ _, []) dial gateway_client
           (bs "127.0.0.1:25566") (mkBackendConn [] None) gateway_line (bs "MC_DATA"));
    [|reflexivity|reflexivity|reflexivity].
  left. eexists. split; [reflexivity|]. split; [by_evaluation|].
  right. split_and!; [reflexivity|reflexivity|by left].
Defined.

(** X17, witness: a backend that takes ten bytes. *)
Lemma refused_header_stops_the_forwarder_witness :
  let dial := λ _ : bytes, Some (mkBackendConn [] (Some 10)) in
  handleConnection (λ _, []) dial direct_client (bs "127.0.0.1:25566") =
    Some (HeaderWriteFailed
            (mkBackendConn
               ([] ++ take 10 (buildProxyV2Header (RemoteAddr direct_client)
                                 (LocalAddr direct_client)))
               (Some 0))).
Proof.
  intros dial.
  apply (refused_header_stops_the_forwarder (λ _, []) dial direct_client (bs "127.0.0.1:25566")
           (mkBackendConn [] (Some 10)) 10);
    [by_evaluation|by_evaluation|reflexivity|reflexivity|vm_compute; lia].
Defined.

(** X18, witness: what the backend of a player's connection received. *)
Lemma backend_stream_starts_with_a_header_witness :
  let dial := λ _ : bytes, Some (mkBackendConn [] None) in
  let header := buildProxyV2Header (RemoteAddr direct_client) (LocalAddr direct_client) in
  let backend := mkBackendConn (header ++ handshake) None in
  let downstream := NewReaderSize [written backend] peekBufferSize in
  ∃ downstream' h,
    detectProxyProtocol (λ _, []) downstream = Some (downstream', (Some h, None)) ∧
    written backend = RawBytes h ++ content downstream' ∧
    content downstream' `suffix_of` concat (incoming direct_client).
Proof.
  intros dial header backend downstream.
  apply (backend_stream_starts_with_a_header (λ _, []) dial direct_client
           (bs "127.0.0.1:25566") (mkBackendConn [] None) backend downstream);
    [reflexivity|reflexivity|vm_compute; reflexivity|simpl; lia|reflexivity].
Defined.

(** X21, witness. *)
Lemma empty_query_is_bad_request_witness :
  ∃ run, handleHasJoined two_upstreams NewRecorder (mkRequest (bs "GET") hasJoinedPath [])
           two_servers [Arrive 0] = Some run ∧
    Code (run_w run) = Some StatusBadRequest ∧
    Sent (run_w run) = Sent NewRecorder ++ bs "missing query parameters" ++ [LF] ∧
    Header (run_w run) !! bs "Content-Type" = Some (bs "text/plain; charset=utf-8") ∧
    run_started run = [] ∧ run_taken run = 0.
Proof. apply empty_query_is_bad_request; reflexivity. Defined.

(** X22, witness: the run in which the second upstream reports first. *)
Lemma ok_only_from_an_upstream_witness :
  ∃ run, handleHasJoined two_upstreams NewRecorder join_request two_servers
           [Arrive 1; Arrive 0] = Some run ∧
    ((Code (run_w run) = Some StatusNoContent ∧ Sent (run_w run) = []) ∨
     (∃ i serverBase body,
        two_servers !! i = Some serverBase ∧ Arrive i ∈ [Arrive 1; Arrive 0] ∧
        two_upstreams (probe_url serverBase (RawQuery join_request)) = Response StatusOK body ∧
        body ≠ [] ∧
        Code (run_w run) = Some StatusOK ∧ Sent (run_w run) = take (64 * 1024) body)).
Proof.
  destruct (handleHasJoined two_upstreams NewRecorder join_request two_servers
              [Arrive 1; Arrive 0]) as [run|] eqn:Hrun; [|by vm_compute in Hrun].
  exists run. split; [reflexivity|].
  apply (ok_only_from_an_upstream two_upstreams NewRecorder join_request two_servers
           [Arrive 1; Arrive 0] run); [by_evaluation|reflexivity|reflexivity|exact Hrun].
Defined.

(** X23, witness: the winner reports last. *)
Lemma single_winner_is_served_in_any_order_witness :
  ∃ run, handleHasJoined two_upstreams NewRecorder join_request two_servers
           ((Arrive <$> [1; 0]) ++ [Done]) = Some run ∧
    Code (run_w run) = Some StatusOK ∧
    Header (run_w run) !! bs "Content-Type" = Some (bs "application/json") ∧
    Sent (run_w run) = bs "{profile}".
Proof.
  apply (single_winner_is_served_in_any_order two_upstreams NewRecorder join_request two_servers
           [1; 0] [Done] 0 (mkAuthResult 200 (bs "{profile}") (bs "mojang") None));
    [by_evaluation|reflexivity|reflexivity| |vm_compute; reflexivity|by_evaluation|].
  - apply Permutation_swap.
  - intros j Hj Hne. assert (j = 1) as -> by (simpl in Hj; lia).
    eexists. split; [vm_compute; reflexivity|]. by_evaluation.
Defined.

(** X24, witness: the deadline fires after one result. *)
Lemma fan_out_always_answers_witness :
  ∃ run, handleHasJoined two_upstreams NewRecorder join_request two_servers
           [Arrive 1; Done] = Some run ∧
    run_taken run ≤ length two_servers.
Proof.
  apply fan_out_always_answers; [by_evaluation|left; by_evaluation].
Defined.

(** X25, witness: a flag with white space and empty parts. *)
Lemma main_keeps_trimmed_servers_witness :
  let cfg := mkConfig (bs ":25565") (bs ":25566") (bs ":8652")
               [bs "https://a.example"; bs "https://b.example/"] in
  SessionServers cfg ≠ [] ∧ Forall trimmed_entry (SessionServers cfg).
Proof.
  intros cfg.
  apply (main_keeps_trimmed_servers
           (mkFlags (bs ":25565") (bs ":25566") (bs ":8652")
              (bs " https://a.example , ,https://b.example/,")) cfg).
  vm_compute. reflexivity.
Defined.

(** X26, witness: the two default servers. *)
Lemma session_servers_round_trip_witness :
  main (mkFlags (bs ":25565") (bs ":25566") (bs ":8652") (Join two_servers x2c))
    = Some (mkConfig (bs ":25565") (bs ":25566") (bs ":8652") two_servers).
Proof. apply session_servers_round_trip; [done|by_evaluation]. Defined.
